(** * Workspace-aware CRD resolution and the virtual API reconciler

    A shallow embedding of the kcp CRD lister ([package server]:
    [systemCRDProvider], [apiBindingAwareCRDLister]) and of the syncer
    virtual workspace's [APIReconciler], with the properties of their
    specification stated over the code.

    Go values are modelled as follows.
    - [(T, error)] results are [result T]; a Go panic is the [Panic] outcome
      of the monad [M].
    - A Go [map] that the code copies or writes (the annotations of a CRD)
      is a location in a heap of maps, so that two CRD values sharing one
      map are visibly aliased.  Maps and slices the code only reads are
      plain values.
    - [klog] calls append to a log carried by the state.
    - Injected collaborators (listers, indexers, [getClusterWorkspace],
      [getCRD]) are function-valued fields, as in the Go structs. *)

From Stdlib Require Import ZArith Lia Ascii String.
From stdpp Require Import base option list strings gmap sets sorting.



(** ** Errors *)

Module apierrors.

(** The errors the code builds or classifies.  [Errorf] is [fmt.Errorf]
    without, [Errorf_w] with an error wrapped by [%w]; [OtherError] is any
    error coming from a collaborator that is not an API status. *)
Inductive error :=
| NewNotFound (resource name : string)
| NewServiceUnavailable (reason : string)
| NewInternalError (err : error)
| Errorf (msg : string)
| Errorf_w (msg : string) (wrapped : error)
| OtherError (msg : string).

(** [IsNotFound] looks at the status reason, through [%w] wrappers. *)
Fixpoint IsNotFound (e : error) : bool :=
  match e with
  | NewNotFound _ _ => true
  | Errorf_w _ e' => IsNotFound e'
  | _ => false
  end.

Definition IsServiceUnavailable (e : error) : bool :=
  match e with NewServiceUnavailable _ => true | _ => false end.


End apierrors.
Export apierrors.

Inductive result (A : Type) :=
| Ok (a : A)
| Err (e : error).
Arguments Ok {A} a.
Arguments Err {A} e.

(** ** State, log and the monad of the embedding *)

Definition loc := positive.

Module metav1.
(** An instant, counted from Go's zero time. *)
Definition Time := Z.
Definition Time_IsZero (t : Time) : bool := (t =? 0)%Z.
(** [IsZero] on a [*metav1.Time]: a nil pointer or the zero instant. *)
Definition IsZero (t : option Time) : bool :=
  match t with None => true | Some t => Time_IsZero t end.
End metav1.

Inductive LogArg :=
| ArgString (s : string)
| ArgError (e : error).

Inductive LogEntry :=
| klog_Errorf (format : string) (args : list LogArg)
| klog_ErrorS (err : error) (msg : string) (keysAndValues : list string)
| klog_Infof (format : string) (args : list LogArg).

Record State := mkState {
  heap : gmap loc (gmap string string);
  klog : list LogEntry;
  now : metav1.Time
}.

Inductive Outcome (A : Type) :=
| Done (a : A) (s : State)
| Panic (msg : string).
Arguments Done {A} a s.
Arguments Panic {A} msg.

Definition M (A : Type) := State → Outcome A.

Definition ret {A} (a : A) : M A := λ s, Done a s.

Definition bind {A B} (m : M A) (f : A → M B) : M B :=
  λ s, match m s with
       | Done a s' => f a s'
       | Panic msg => Panic msg
       end.

Notation "'do' x <- m ; f" := (bind m (λ x, f))
  (at level 20, x name, m at level 100, f at level 200).
Notation "'run' m ; f" := (bind m (λ _, f))
  (at level 20, m at level 100, f at level 200).

Definition panic {A} (msg : string) : M A := λ _, Panic msg.

Definition log (e : LogEntry) : M unit :=
  λ s, Done tt (mkState (heap s) (klog s ++ [e]) (now s)).

Definition time_Now : M metav1.Time := λ s, Done (now s) s.

(** [value o] is what a call returned, when it returned. *)
Definition value {A} (o : Outcome A) : option A :=
  match o with Done a _ => Some a | Panic _ => None end.

Definition final {A} (o : Outcome A) : option State :=
  match o with Done _ s => Some s | Panic _ => None end.

(** ** Logical cluster names and cluster-aware keys *)

Module logicalcluster.

Record Name := New { name_value : string }.

#[global] Instance Name_eq_dec : EqDecision Name.
Proof. solve_decision. Defined.

Definition separator : string := ":".

Definition Wildcard : Name := New "*".

Definition String (n : Name) : string := name_value n.

(** [strings.LastIndex] on the separator, together with the two slices
    [s[:i]] and [s[i+1:]] when there is one. *)
Fixpoint cutLast (s : string) : option (string * string) :=
  match s with
  | EmptyString => None
  | String.String c rest =>
      match cutLast rest with
      | Some (p, n) => Some (String.String c p, n)
      | None => if Ascii.eqb c ":"%char then Some (EmptyString, rest) else None
      end
  end.

Definition Split (n : Name) : Name * string :=
  match cutLast (name_value n) with
  | None => (New "", name_value n)
  | Some (p, w) => (New p, w)
  end.

Definition HasPrefix (n other : Name) : bool :=
  String.prefix (name_value other +:+ separator) (name_value n).

End logicalcluster.

Module clusters.
Definition ToClusterAwareKey (cluster : logicalcluster.Name) (name : string) : string :=
  logicalcluster.String cluster +:+ "#$#" +:+ name.
End clusters.

(** [sets.String] of apimachinery: a set of strings; [List] returns its
    members sorted. *)
Module sets.
Definition string_le (a b : string) : Prop := String.leb a b = true.
#[global] Instance string_le_dec a b : Decision (string_le a b).
Proof. unfold string_le. apply _. Defined.

Definition Has (s : gset string) (k : string) : bool := bool_decide (k ∈ s).
Definition Insert (s : gset string) (k : string) : gset string := s ∪ {[k]}.
Definition Union (s1 s2 : gset string) : gset string := s1 ∪ s2.
Definition NewString (l : list string) : gset string := list_to_set l.
Definition List (s : gset string) : list string := merge_sort string_le (elements s).
End sets.

(** ** API types, reduced to the fields the code reads or writes *)

Module apiextensionsv1.

(** [Type_] is the field [Type], the one the minimal schema sets;
    [Properties] stands for the rest of a validation schema. *)
Record JSONSchemaProps := {
  Type_ : string;
  Properties : list (string * string)
}.

Record CustomResourceValidation := {
  OpenAPIV3Schema : option JSONSchemaProps
}.

Record CustomResourceDefinitionVersion := {
  Version_Name : string;
  Served : bool;
  Storage : bool;
  Schema : option CustomResourceValidation
}.

Record CustomResourceDefinitionNames := {
  Plural : string;
  Kind : string
}.

Record CustomResourceDefinitionSpec := {
  Group : string;
  Names : CustomResourceDefinitionNames;
  Scope : string;
  Versions : list CustomResourceDefinitionVersion
}.

(** Condition types ([Type'] is the field [Type]) and statuses are Go
    string types; the zero value of a condition has every field empty. *)
Record CustomResourceDefinitionCondition := {
  Type' : string;
  Status : string;
  LastTransitionTime : metav1.Time;
  Reason : string;
  Message : string
}.

Definition Terminating : string := "Terminating".
Definition Established : string := "Established".
Definition ConditionTrue : string := "True".
Definition ConditionFalse : string := "False".

(** The object, with the promoted [ObjectMeta] fields in place.
    [Annotations] is a reference to a map in the heap, [None] for the nil
    map; [Conditions] is [Status.Conditions]. *)
Record CustomResourceDefinition := {
  Name : string;
  ClusterName : string;
  UID : string;
  Labels : gmap string string;
  Annotations : option loc;
  DeletionTimestamp : option metav1.Time;
  Spec : CustomResourceDefinitionSpec;
  Conditions : list CustomResourceDefinitionCondition
}.

#[global] Instance JSONSchemaProps_eq_dec : EqDecision JSONSchemaProps.
Proof. solve_decision. Defined.
#[global] Instance CustomResourceValidation_eq_dec : EqDecision CustomResourceValidation.
Proof. solve_decision. Defined.
#[global] Instance CustomResourceDefinitionVersion_eq_dec : EqDecision CustomResourceDefinitionVersion.
Proof. solve_decision. Defined.
#[global] Instance CustomResourceDefinitionNames_eq_dec : EqDecision CustomResourceDefinitionNames.
Proof. solve_decision. Defined.
#[global] Instance CustomResourceDefinitionSpec_eq_dec : EqDecision CustomResourceDefinitionSpec.
Proof. solve_decision. Defined.
#[global] Instance CustomResourceDefinitionCondition_eq_dec : EqDecision CustomResourceDefinitionCondition.
Proof. solve_decision. Defined.
#[global] Instance CustomResourceDefinition_eq_dec : EqDecision CustomResourceDefinition.
Proof. solve_decision. Defined.

End apiextensionsv1.
Import apiextensionsv1.

Abbreviation CRD := CustomResourceDefinition.

Module equality.
(** [equality.Semantic.DeepEqual] on two CRD specs.  The embedding has one
    value for a nil and an empty slice, so semantic equality of specs is
    equality of their models. *)
Definition Semantic_DeepEqual (a b : CustomResourceDefinitionSpec) : bool :=
  bool_decide (a = b).
End equality.

Module logicalcluster_from.
(** [logicalcluster.From(obj)]: the cluster an object lives in. *)
Definition From (crd : CRD) : logicalcluster.Name :=
  logicalcluster.New (ClusterName crd).
End logicalcluster_from.
Import logicalcluster_from.

Module tenancyv1alpha1.

Record ClusterWorkspaceTypeReference := {
  Name : string;
  Path : string
}.

Record ClusterWorkspaceSpec := {
  Type' : ClusterWorkspaceTypeReference
}.

Record ClusterWorkspace := {
  Spec : ClusterWorkspaceSpec
}.

(** Modelled from the spec: the constant [RootCluster] is declared in
    pkg/apis/tenancy/v1alpha1, which is not among the sources; the spec
    names the cluster [root]. *)
Definition RootCluster : logicalcluster.Name := logicalcluster.New "root".

End tenancyv1alpha1.

(** ** The system CRD registry *)

Definition SystemCRDLogicalCluster : logicalcluster.Name :=
  logicalcluster.New "system:system-crds".

Record systemCRDProvider := {
  commonCRDs : gset string;
  rootCRDs : gset string;
  orgCRDs : gset string;
  universalCRDs : gset string;
  getClusterWorkspace : string → result tenancyv1alpha1.ClusterWorkspace;
  getCRD : string → result CRD
}.

Definition systemKey (name : string) : string :=
  clusters.ToClusterAwareKey SystemCRDLogicalCluster name.

(** The two feature gates read at construction. *)
Record FeatureGates := {
  LocationAPI : bool;
  PlacementAPI : bool
}.

Definition newSystemCRDProvider (gates : FeatureGates)
    (getClusterWorkspace : string → result tenancyv1alpha1.ClusterWorkspace)
    (getCRD : string → result CRD) : systemCRDProvider :=
  let common := sets.NewString [
    systemKey "clusterworkspaces.tenancy.kcp.dev";
    systemKey "clusterworkspacetypes.tenancy.kcp.dev";
    systemKey "clusterworkspaceshards.tenancy.kcp.dev";
    systemKey "workspaces.tenancy.kcp.dev" ] in
  let root := sets.NewString [] in
  let org := sets.NewString [] in
  let universal := sets.NewString [
    systemKey "apiresourceimports.apiresource.kcp.dev";
    systemKey "negotiatedapiresources.apiresource.kcp.dev";
    systemKey "workloadclusters.workload.kcp.dev";
    systemKey "apiexports.apis.kcp.dev";
    systemKey "apibindings.apis.kcp.dev";
    systemKey "apiresourceschemas.apis.kcp.dev" ] in
  let add (on : bool) (k : string) (s : gset string) :=
    if on then sets.Insert s k else s in
  let loc_k := systemKey "locations.scheduling.kcp.dev" in
  let pla_k := systemKey "placements.scheduling.kcp.dev" in
  {| commonCRDs := common;
     rootCRDs := add (PlacementAPI gates) pla_k (add (LocationAPI gates) loc_k root);
     orgCRDs := add (PlacementAPI gates) pla_k (add (LocationAPI gates) loc_k org);
     universalCRDs := add (PlacementAPI gates) pla_k (add (LocationAPI gates) loc_k universal);
     getClusterWorkspace := getClusterWorkspace;
     getCRD := getCRD |}.

Definition Keys (p : systemCRDProvider) (clusterName : logicalcluster.Name)
  : M (gset string) :=
  if bool_decide (clusterName = tenancyv1alpha1.RootCluster) then
    ret (sets.Union (rootCRDs p) (commonCRDs p))
  else if logicalcluster.HasPrefix clusterName tenancyv1alpha1.RootCluster then
    let '(parent, ws) := logicalcluster.Split clusterName in
    let workspaceKey := clusters.ToClusterAwareKey parent ws in
    match getClusterWorkspace p workspaceKey with
    | Err err =>
        run (if negb (IsNotFound err) then
               log (klog_ErrorS err
                      "Unable to determine system CRD keys: error getting clusterworkspace"
                      ["clusterName"; logicalcluster.String clusterName;
                       "workspaceKey"; workspaceKey])
             else ret tt);
        ret (sets.NewString [])
    | Ok clusterWorkspace =>
        let t := tenancyv1alpha1.Name
                   (tenancyv1alpha1.Type' (tenancyv1alpha1.Spec clusterWorkspace)) in
        if String.eqb t "Universal" then
          ret (sets.Union (universalCRDs p) (commonCRDs p))
        else if String.eqb t "Organization" || String.eqb t "Team" then
          ret (sets.Union (orgCRDs p) (commonCRDs p))
        else ret (sets.NewString [])
    end
  else ret (sets.NewString []).

(** [systemCRDProvider.List]: the loop over the sorted keys, stopping at the
    first failing [getCRD]. *)
Fixpoint systemList_loop (p : systemCRDProvider) (clusterName : logicalcluster.Name)
    (keys : list string) (acc : list CRD) : M (result (list CRD)) :=
  match keys with
  | [] => ret (Ok acc)
  | key :: keys' =>
      match getCRD p key with
      | Err err =>
          run log (klog_Errorf "Failed to get CRD %s for %s: %v"
                     [ArgString key; ArgString (logicalcluster.String clusterName);
                      ArgError err]);
          ret (Err (Errorf_w "error getting system CRD %q: %w" err))
      | Ok crd => systemList_loop p clusterName keys' (acc ++ [crd])
      end
  end.

Definition systemCRDProvider_List (p : systemCRDProvider)
    (clusterName : logicalcluster.Name) : M (result (list CRD)) :=
  do keys <- Keys p clusterName;
  systemList_loop p clusterName (sets.List keys) [].

(** ** Strings *)

Module strings.

(** [strings.Split(s, sep)] for a one-byte separator. *)
Fixpoint Split (sep : ascii) (s : string) : list string :=
  match s with
  | EmptyString => [EmptyString]
  | String.String ch rest =>
      if Ascii.eqb ch sep then EmptyString :: Split sep rest
      else match Split sep rest with
           | [] => [String.String ch EmptyString]
           | p :: ps => String.String ch p :: ps
           end
  end.

(** [strings.SplitN(s, sep, 2)]: cut at the first separator, if any. *)
Fixpoint SplitN2 (sep : ascii) (s : string) : string * option string :=
  match s with
  | EmptyString => (EmptyString, None)
  | String.String ch rest =>
      if Ascii.eqb ch sep then (EmptyString, Some rest)
      else let '(a, b) := SplitN2 sep rest in (String.String ch a, b)
  end.

Fixpoint TrimLeft (s : string) : string :=
  match s with
  | String.String ch rest => if Ascii.eqb ch " "%char then TrimLeft rest else s
  | EmptyString => EmptyString
  end.

(** [strings.Trim(s, " ")]. *)
Definition Trim (s : string) : string :=
  String.rev (TrimLeft (String.rev (TrimLeft s))).

Definition HasSuffix (s suffix : string) : bool :=
  String.prefix (String.rev suffix) (String.rev s).

End strings.

(** [goautoneg.ParseAccept], reduced to what its caller reads: the
    parameters of each well-formed clause of the header, in header order.
    The quality value [q] is kept out of the parameters, as in the library;
    the library's final sort by quality permutes the clauses, which the
    caller's search does not observe. *)
Module goautoneg.

Definition param (acc : gmap string string) (p : string) : gmap string string :=
  match strings.SplitN2 "="%char p with
  | (_, None) => acc
  | (k, Some v) =>
      let token := strings.Trim k in
      if String.eqb token "q" then acc else <[token := strings.Trim v]> acc
  end.

Definition clause (part : string) : option (gmap string string) :=
  let mrp := strings.Split ";"%char (strings.Trim part) in
  match mrp with
  | [] => None
  | media_range :: params =>
      let sp := strings.Split "/"%char media_range in
      let wellFormed :=
        match sp with
        | [t] => String.eqb (strings.Trim t) "*"
        | [_; _] => true
        | _ => false
        end in
      if wellFormed then Some (foldl param ∅ params) else None
  end.

Definition ParseAccept (header : string) : list (gmap string string) :=
  omap clause (strings.Split ","%char header).

End goautoneg.

(** ** Bindings *)

Module apisv1alpha1.

Record Condition := {
  Type' : string;
  Status : string
}.

Record BoundSchemaReference := {
  Name : string;
  UID : string;
  IdentityHash : string
}.

Record BoundAPIResource := {
  Group : string;
  Resource : string;
  Schema : BoundSchemaReference
}.

(** [Conditions] and [BoundResources] are the fields of [Status]. *)
Record APIBinding := {
  ClusterName : string;
  DeletionTimestamp : option metav1.Time;
  Conditions : list Condition;
  BoundResources : list BoundAPIResource
}.

(** Modelled from the spec: the condition type [InitialBindingCompleted]
    and the annotation key carrying the identity hash are constants of
    pkg/apis/apis/v1alpha1, which is not among the sources; the spec names
    both. *)
Definition InitialBindingCompleted : string := "InitialBindingCompleted".
Definition AnnotationAPIIdentityKey : string := "apis.kcp.dev/identity".

End apisv1alpha1.

Abbreviation APIBinding := apisv1alpha1.APIBinding.
Abbreviation BoundAPIResource := apisv1alpha1.BoundAPIResource.

Module conditions.
(** Modelled from the spec: [conditions.IsTrue] belongs to
    pkg/apis/third_party/conditions, which is not among the sources.  The
    spec gives a binding a condition [InitialBindingCompleted] and walks
    "completed" bindings: the binding carries the condition of that type,
    and its status is [True]. *)
Definition IsTrue (b : APIBinding) (t : string) : bool :=
  match List.find (λ cnd, String.eqb (apisv1alpha1.Type' cnd) t)
                  (apisv1alpha1.Conditions b) with
  | Some cnd => String.eqb (apisv1alpha1.Status cnd) "True"
  | None => false
  end.
End conditions.

Module apibinding.
(** Modelled from the spec: the shadow workspace ("a reserved constant
    used as the residence for binding-imported schemas"), the name of the
    identity index and its key function belong to
    pkg/reconciler/apis/apibinding, which is not among the sources. *)
Definition ShadowWorkspaceName : logicalcluster.Name :=
  logicalcluster.New "system:bound-crds".
Definition IndexAPIBindingsByIdentityGroupResource : string :=
  "byIdentityGroupResource".
Definition IdentityGroupResourceKeyFunc (identity group resource : string) : string :=
  identity +:+ "/" +:+ group +:+ "/" +:+ resource.
End apibinding.

(** Modelled from the spec: the names of the two secondary indexes
    ([by-workspace], [by-group-resource-name]) are constants of package
    server declared outside the sources. *)
Definition byWorkspace : string := "byWorkspace".
Definition byGroupResourceName : string := "byGroupResourceName".

(** ** Request contexts *)

(** A value stored in a context, as far as a type assertion to [string]
    tells. *)
Inductive any :=
| AnyString (s : string)
| AnyOther.

(** The three context extensions: the cluster ([request.ClusterNameFrom]
    fails without one), the API identity (empty when absent) and the value
    stored under [acceptHeaderContextKey], if any. *)
Record Context := {
  ctx_cluster : option logicalcluster.Name;
  ctx_identity : string;
  ctx_accept : option any
}.

Definition ClusterNameFrom (ctx : Context) : result logicalcluster.Name :=
  match ctx_cluster ctx with
  | Some n => Ok n
  | None => Err (OtherError "no cluster in the request context")
  end.

(** Modelled from the spec: [IdentityFromContext] is declared outside the
    sources; the context carries an "optional API identity string". *)
Definition IdentityFromContext (ctx : Context) : string := ctx_identity ctx.

(** ** Maps in the heap *)

Definition readMap (a : option loc) : M (gmap string string) :=
  λ s, Done (match a with
             | None => ∅
             | Some l => default ∅ (heap s !! l)
             end) s.

(** [make(map[string]string, n)] followed by the copy loop. *)
Definition allocMap (m : gmap string string) : M loc :=
  λ s, let l := fresh (dom (heap s)) in
       Done l (mkState (<[l := m]> (heap s)) (klog s) (now s)).

(** [m[k] = v]; writing to the nil map panics. *)
Definition writeMap (a : option loc) (k v : string) : M unit :=
  match a with
  | None => panic "assignment to entry in nil map"
  | Some l =>
      λ s, Done tt (mkState (<[l := <[k := v]> (default ∅ (heap s !! l))]> (heap s))
                            (klog s) (now s))
  end.

(** ** Field updates on a CRD value *)

Definition set_Annotations (a : option loc) (crd : CRD) : CRD :=
  {| Name := Name crd; ClusterName := ClusterName crd; UID := UID crd;
     Labels := Labels crd; Annotations := a;
     DeletionTimestamp := DeletionTimestamp crd; Spec := Spec crd;
     Conditions := Conditions crd |}.

Definition set_UID (u : string) (crd : CRD) : CRD :=
  {| Name := Name crd; ClusterName := ClusterName crd; UID := u;
     Labels := Labels crd; Annotations := Annotations crd;
     DeletionTimestamp := DeletionTimestamp crd; Spec := Spec crd;
     Conditions := Conditions crd |}.

Definition set_DeletionTimestamp (t : option metav1.Time) (crd : CRD) : CRD :=
  {| Name := Name crd; ClusterName := ClusterName crd; UID := UID crd;
     Labels := Labels crd; Annotations := Annotations crd;
     DeletionTimestamp := t; Spec := Spec crd;
     Conditions := Conditions crd |}.

Definition set_Conditions (cs : list CustomResourceDefinitionCondition) (crd : CRD) : CRD :=
  {| Name := Name crd; ClusterName := ClusterName crd; UID := UID crd;
     Labels := Labels crd; Annotations := Annotations crd;
     DeletionTimestamp := DeletionTimestamp crd; Spec := Spec crd;
     Conditions := cs |}.

Definition set_Versions (vs : list CustomResourceDefinitionVersion) (crd : CRD) : CRD :=
  {| Name := Name crd; ClusterName := ClusterName crd; UID := UID crd;
     Labels := Labels crd; Annotations := Annotations crd;
     DeletionTimestamp := DeletionTimestamp crd;
     Spec := {| Group := Group (Spec crd); Names := Names (Spec crd);
                Scope := Scope (Spec crd); Versions := vs |};
     Conditions := Conditions crd |}.

(** ** Transformations *)

Definition shallowCopyCRDAndDeepCopyAnnotations (in_ : CRD) : M CRD :=
  do m <- readMap (Annotations in_);
  do l <- allocMap m;
  ret (set_Annotations (Some l) in_).

Module apiextensionshelpers.

Definition zeroCondition : CustomResourceDefinitionCondition :=
  {| Type' := ""; Status := ""; LastTransitionTime := 0%Z;
     Reason := ""; Message := "" |}.

(** The in-place update [SetCRDCondition] makes on the first condition of
    the new condition's type; [None] when [FindCRDCondition] finds none. *)
Fixpoint overwrite (newCondition : CustomResourceDefinitionCondition)
    (cs : list CustomResourceDefinitionCondition)
  : option (list CustomResourceDefinitionCondition) :=
  match cs with
  | [] => None
  | existing :: cs' =>
      if String.eqb (Type' existing) (Type' newCondition) then
        let ltt :=
          if negb (String.eqb (Status existing) (Status newCondition))
             || metav1.Time_IsZero (LastTransitionTime existing)
          then LastTransitionTime newCondition
          else LastTransitionTime existing in
        Some ({| Type' := Type' existing; Status := Status newCondition;
                 LastTransitionTime := ltt; Reason := Reason newCondition;
                 Message := Message newCondition |} :: cs')
      else option_map (cons existing) (overwrite newCondition cs')
  end.

Definition SetCRDCondition (crd : CRD)
    (newCondition : CustomResourceDefinitionCondition) : M CRD :=
  do t <- time_Now;
  let newCondition :=
    {| Type' := Type' newCondition; Status := Status newCondition;
       LastTransitionTime := t; Reason := Reason newCondition;
       Message := Message newCondition |} in
  match overwrite newCondition (Conditions crd) with
  | None => ret (set_Conditions (Conditions crd ++ [newCondition]) crd)
  | Some cs => ret (set_Conditions cs crd)
  end.

End apiextensionshelpers.

Definition terminatingTrue : CustomResourceDefinitionCondition :=
  {| Type' := Terminating; Status := ConditionTrue; LastTransitionTime := 0%Z;
     Reason := ""; Message := "" |}.

Definition decorateCRDWithBinding (in_ : CRD) (identity : string)
    (deleteTime : option metav1.Time) : M CRD :=
  do out <- shallowCopyCRDAndDeepCopyAnnotations in_;
  run writeMap (Annotations out) apisv1alpha1.AnnotationAPIIdentityKey identity;
  if metav1.IsZero deleteTime then ret out
  else
    (* make([]Condition, len(in.Status.Conditions)), then append *)
    let made := repeat apiextensionshelpers.zeroCondition (length (Conditions in_)) in
    let out := set_Conditions (made ++ Conditions in_) out in
    let out := set_DeletionTimestamp deleteTime out in
    apiextensionshelpers.SetCRDCondition out terminatingTrue.

Definition annotationKeyPartialMetadata : string := "crd.kcp.dev/partial-metadata".

Definition minimalSchema : CustomResourceValidation :=
  {| OpenAPIV3Schema := Some {| Type_ := "object"; Properties := [] |} |}.

Definition withMinimalSchema (v : CustomResourceDefinitionVersion)
  : CustomResourceDefinitionVersion :=
  {| Version_Name := Version_Name v; Served := Served v; Storage := Storage v;
     Schema := Some minimalSchema |}.

(** The Go function updates the struct it is given; both callers pass their
    own fresh shallow copy, which the embedding returns. *)
Definition makePartialMetadataCRD (crd : CRD) : M CRD :=
  run writeMap (Annotations crd) annotationKeyPartialMetadata "";
  ret (set_Versions (map withMinimalSchema (Versions (Spec crd))) crd).

(** ** The binding-aware CRD lister *)

(** The collaborators the methods below call: [crdLister] is the lister's
    [Get], the two indexers are their [ByIndex].  A lister returns an object
    or an error, never both and never neither. *)
Record apiBindingAwareCRDLister := {
  crdLister : string → result CRD;
  crdIndexer : string → string → result (list CRD);
  apiBindingIndexer : string → string → result (list APIBinding);
  systemProvider : systemCRDProvider
}.

Definition crdResource : string := "customresourcedefinitions".

Definition isPartialMetadataHeader (accept : string) : bool :=
  existsb (λ params : gmap string string,
             bool_decide (params !! "as" = Some "PartialObjectMetadata")
             || bool_decide (params !! "as" = Some "PartialObjectMetadataList"))
          (goautoneg.ParseAccept accept).

(** The type assertion [ctx.Value(acceptHeaderContextKey).(string)] has the
    one-result form: it panics on a nil interface and on any other type. *)
Definition isPartialMetadataRequest (ctx : Context) : M bool :=
  match ctx_accept ctx with
  | Some (AnyString accept) =>
      if String.eqb accept "" then ret false
      else ret (isPartialMetadataHeader accept)
  | Some AnyOther => panic "interface conversion: interface {} is not string"
  | None => panic "interface conversion: interface {} is nil, not string"
  end.

Definition crdNameToGroupResource (name : string) : string * string :=
  let '(resource, rest) := strings.SplitN2 "."%char name in
  let group := match rest with Some g => g | None => "" end in
  let group := if String.eqb group "core" then "" else group in
  (group, resource).

Definition shadowKey (uid : string) : string :=
  clusters.ToClusterAwareKey apibinding.ShadowWorkspaceName uid.

Definition Refresh (c : apiBindingAwareCRDLister) (crd : CRD) : M (result CRD) :=
  let crdKey := clusters.ToClusterAwareKey (From crd) (Name crd) in
  match crdLister c crdKey with
  | Err err => ret (Err err)
  | Ok updatedCRD =>
      do refreshed <- shallowCopyCRDAndDeepCopyAnnotations updatedCRD;
      do annotations <- readMap (Annotations crd);
      let identity := default "" (annotations !! apisv1alpha1.AnnotationAPIIdentityKey) in
      run (if negb (String.eqb identity "") then
             writeMap (Annotations refreshed) apisv1alpha1.AnnotationAPIIdentityKey identity
           else ret tt);
      match annotations !! annotationKeyPartialMetadata with
      | Some _ =>
          do refreshed <- makePartialMetadataCRD refreshed;
          if strings.HasSuffix (UID crd) ".wildcard.partial-metadata" then
            ret (Ok (set_UID (UID crd) refreshed))
          else ret (Ok refreshed)
      | None => ret (Ok refreshed)
      end
  end.

(** The loop of [getForFullDataWildcard] over the indexed objects, with
    [foundCRD] nil at first. *)
Fixpoint fullDataWildcard_loop (foundCRD : option CRD) (objs : list CRD)
  : result (option CRD) :=
  match objs with
  | [] => Ok foundCRD
  | crd :: objs' =>
      match foundCRD with
      | None => fullDataWildcard_loop (Some crd) objs'
      | Some found =>
          if negb (equality.Semantic_DeepEqual (Spec found) (Spec crd)) then
            Err (NewInternalError (Errorf
              "error resolving resource: cannot watch across logical clusters for a resource type with several distinct schemas"))
          else fullDataWildcard_loop foundCRD objs'
      end
  end.

Definition getForFullDataWildcard (c : apiBindingAwareCRDLister) (name : string)
  : result CRD :=
  match crdIndexer c byGroupResourceName name with
  | Err err => Err err
  | Ok objs =>
      match fullDataWildcard_loop None objs with
      | Err err => Err err
      | Ok None => Err (NewNotFound crdResource name)
      | Ok (Some foundCRD) => Ok foundCRD
      end
  end.

Definition matchesIdentity (group resource identity : string) (r : BoundAPIResource) : bool :=
  String.eqb (apisv1alpha1.Group r) group
  && String.eqb (apisv1alpha1.Resource r) resource
  && String.eqb (apisv1alpha1.IdentityHash (apisv1alpha1.Schema r)) identity.

Definition getForIdentity (c : apiBindingAwareCRDLister) (name identity : string)
  : M (result CRD) :=
  let '(group, resource) := crdNameToGroupResource name in
  let indexKey := apibinding.IdentityGroupResourceKeyFunc identity group resource in
  match apiBindingIndexer c apibinding.IndexAPIBindingsByIdentityGroupResource indexKey with
  | Err err => ret (Err err)
  | Ok [] => ret (Err (NewNotFound crdResource name))
  | Ok (apiBinding :: _) =>
      let boundCRDName :=
        match List.find (matchesIdentity group resource identity)
                        (apisv1alpha1.BoundResources apiBinding) with
        | Some r => apisv1alpha1.UID (apisv1alpha1.Schema r)
        | None => ""
        end in
      if String.eqb boundCRDName "" then ret (Err (NewNotFound crdResource name))
      else
        match crdLister c (shadowKey boundCRDName) with
        | Err err => ret (Err err)
        | Ok crd =>
            do crd <- decorateCRDWithBinding crd identity
                        (apisv1alpha1.DeletionTimestamp apiBinding);
            ret (Ok crd)
        end
  end.

Definition getForWildcardPartialMetadata (c : apiBindingAwareCRDLister) (name : string)
  : result CRD :=
  match crdIndexer c byGroupResourceName name with
  | Err err => Err err
  | Ok [] => Err (NewNotFound crdResource name)
  | Ok (crd :: _) => Ok crd
  end.

Definition getSystemCRD (c : apiBindingAwareCRDLister)
    (clusterName : logicalcluster.Name) (name : string) : M (result CRD) :=
  if bool_decide (clusterName = logicalcluster.Wildcard) then
    ret (crdLister c (systemKey name))
  else
    do systemCRDKeys <- Keys (systemProvider c) clusterName;
    if negb (sets.Has systemCRDKeys (systemKey name)) then
      ret (Err (NewNotFound crdResource name))
    else ret (crdLister c (systemKey name)).

Definition matchesGroupResource (group resource : string) (r : BoundAPIResource) : bool :=
  String.eqb (apisv1alpha1.Group r) group
  && String.eqb (apisv1alpha1.Resource r) resource.

(** The inner loop of [get] over the bound resources of one binding:
    [Some r] when the loop returns from [get] with [r], [None] when it runs
    to its end. *)
Fixpoint get_boundResources (c : apiBindingAwareCRDLister) (name group resource : string)
    (apiBinding : APIBinding) (rs : list BoundAPIResource) : M (option (result CRD)) :=
  match rs with
  | [] => ret None
  | boundResource :: rs' =>
      if matchesGroupResource group resource boundResource then
        match crdLister c (shadowKey (apisv1alpha1.UID (apisv1alpha1.Schema boundResource))) with
        | Err err =>
            if IsNotFound err then
              ret (Some (Err (NewServiceUnavailable (name +:+ " is currently unavailable"))))
            else ret (Some (Err err))
        | Ok crd =>
            do crd <- decorateCRDWithBinding crd
                        (apisv1alpha1.IdentityHash (apisv1alpha1.Schema boundResource))
                        (apisv1alpha1.DeletionTimestamp apiBinding);
            ret (Some (Ok crd))
        end
      else get_boundResources c name group resource apiBinding rs'
  end.

(** The outer loop of [get] over the bindings of the workspace. *)
Fixpoint get_bindings (c : apiBindingAwareCRDLister) (name group resource : string)
    (objs : list APIBinding) : M (option (result CRD)) :=
  match objs with
  | [] => ret None
  | apiBinding :: objs' =>
      if negb (conditions.IsTrue apiBinding apisv1alpha1.InitialBindingCompleted) then
        get_bindings c name group resource objs'
      else
        do r <- get_boundResources c name group resource apiBinding
                  (apisv1alpha1.BoundResources apiBinding);
        match r with
        | Some r => ret (Some r)
        | None => get_bindings c name group resource objs'
        end
  end.

Definition get (c : apiBindingAwareCRDLister) (clusterName : logicalcluster.Name)
    (name : string) : M (result CRD) :=
  let '(group, resource) := crdNameToGroupResource name in
  match apiBindingIndexer c byWorkspace (logicalcluster.String clusterName) with
  | Err err => ret (Err err)
  | Ok objs =>
      do r <- get_bindings c name group resource objs;
      match r with
      | Some r => ret r
      | None =>
          let crdKey := clusters.ToClusterAwareKey clusterName name in
          match crdLister c crdKey with
          | Err err =>
              if negb (IsNotFound err) then ret (Err err)
              else ret (Err (NewNotFound crdResource name))
          | Ok crd => ret (Ok crd)
          end
      end
  end.

(** The resolution [Get] makes when the name is not a system CRD. *)
Definition Get_resolve (c : apiBindingAwareCRDLister) (ctx : Context)
    (clusterName : logicalcluster.Name) (partialMetadataRequest : bool)
    (name : string) : M (result CRD) :=
  let identity := IdentityFromContext ctx in
  if negb (String.eqb identity "") then getForIdentity c name identity
  else if bool_decide (clusterName = logicalcluster.Wildcard) && partialMetadataRequest then
    ret (getForWildcardPartialMetadata c name)
  else if bool_decide (clusterName = logicalcluster.Wildcard) then
    ret (getForFullDataWildcard c name)
  else get c clusterName name.

(** The end of [Get]: the error check and the projection of a
    partial-metadata request. *)
Definition Get_finish (clusterName : logicalcluster.Name)
    (partialMetadataRequest : bool) (name : string) (r : result CRD)
  : M (result CRD) :=
  match r with
  | Err err => ret (Err err)
  | Ok crd =>
      if partialMetadataRequest then
        do crd <- shallowCopyCRDAndDeepCopyAnnotations crd;
        do crd <- makePartialMetadataCRD crd;
        if bool_decide (clusterName = logicalcluster.Wildcard) then
          ret (Ok (set_UID (name +:+ ".wildcard.partial-metadata") crd))
        else ret (Ok crd)
      else ret (Ok crd)
  end.

Definition Get (c : apiBindingAwareCRDLister) (ctx : Context) (name : string)
  : M (result CRD) :=
  match ClusterNameFrom ctx with
  | Err err => ret (Err err)
  | Ok clusterName =>
      do sys <- getSystemCRD c clusterName name;
      match sys with
      | Err err =>
          if negb (IsNotFound err) then ret (Err err)
          else
            do partialMetadataRequest <- isPartialMetadataRequest ctx;
            do r <- Get_resolve c ctx clusterName partialMetadataRequest name;
            Get_finish clusterName partialMetadataRequest name r
      | Ok crd =>
          do partialMetadataRequest <- isPartialMetadataRequest ctx;
          Get_finish clusterName partialMetadataRequest name (Ok crd)
      end
  end.

(** *** List *)

Definition crdName (crd : CRD) : string :=
  Plural (Names (Spec crd)) +:+ "." +:+ Group (Spec crd).

(** A label selector, by its [Matches]. *)
Definition Selector := gmap string string → bool.

(** The inner loop of the binding pass of [List]; the accumulator is
    [(ret, seen)]. *)
Fixpoint List_boundResources (c : apiBindingAwareCRDLister)
    (clusterName : logicalcluster.Name) (selector : Selector)
    (apiBinding : APIBinding) (rs : list BoundAPIResource)
    (acc : list CRD * gset string) : M (list CRD * gset string) :=
  match rs with
  | [] => ret acc
  | boundResource :: rs' =>
      let crdKey := shadowKey (apisv1alpha1.UID (apisv1alpha1.Schema boundResource)) in
      match crdLister c crdKey with
      | Err err =>
          run log (klog_Errorf "Error getting bound CRD %q: %v"
                     [ArgString crdKey; ArgError err]);
          List_boundResources c clusterName selector apiBinding rs' acc
      | Ok crd =>
          if negb (selector (Labels crd)) then
            List_boundResources c clusterName selector apiBinding rs' acc
          else if sets.Has acc.2 (crdName crd) then
            run log (klog_Infof
                   "For cluster %s CR access skipping APIBinding CRD %s|%s because it came in via system CRDs"
                   [ArgString (logicalcluster.String clusterName);
                    ArgString (logicalcluster.String (From crd));
                    ArgString (Name crd)]);
            List_boundResources c clusterName selector apiBinding rs' acc
          else
            do crd <- decorateCRDWithBinding crd
                        (apisv1alpha1.IdentityHash (apisv1alpha1.Schema boundResource))
                        (apisv1alpha1.DeletionTimestamp apiBinding);
            List_boundResources c clusterName selector apiBinding rs'
              (acc.1 ++ [crd], sets.Insert acc.2 (crdName crd))
      end
  end.

Fixpoint List_bindings (c : apiBindingAwareCRDLister)
    (clusterName : logicalcluster.Name) (selector : Selector)
    (objs : list APIBinding) (acc : list CRD * gset string)
  : M (list CRD * gset string) :=
  match objs with
  | [] => ret acc
  | apiBinding :: objs' =>
      if negb (conditions.IsTrue apiBinding apisv1alpha1.InitialBindingCompleted) then
        List_bindings c clusterName selector objs' acc
      else
        do acc <- List_boundResources c clusterName selector apiBinding
                    (apisv1alpha1.BoundResources apiBinding) acc;
        List_bindings c clusterName selector objs' acc
  end.

(** The pass over the CRDs of the workspace itself. *)
Fixpoint List_local (clusterName : logicalcluster.Name) (selector : Selector)
    (seen : gset string) (objs : list CRD) (acc : list CRD) : M (list CRD) :=
  match objs with
  | [] => ret acc
  | crd :: objs' =>
      if negb (selector (Labels crd)) then
        List_local clusterName selector seen objs' acc
      else if sets.Has seen (crdName crd) then
        run log (klog_Infof
               "For cluster %s CR access skipping local CRD %s|%s because it came in via APIBindings or system CRDs"
               [ArgString (logicalcluster.String clusterName);
                ArgString (logicalcluster.String (From crd));
                ArgString (Name crd)]);
        List_local clusterName selector seen objs' acc
      else List_local clusterName selector seen objs' (acc ++ [crd])
  end.

Definition List (c : apiBindingAwareCRDLister) (ctx : Context) (selector : Selector)
  : M (result (list CRD)) :=
  match ClusterNameFrom ctx with
  | Err err => ret (Err err)
  | Ok clusterName =>
      do sys <- systemCRDProvider_List (systemProvider c) clusterName;
      match sys with
      | Err err => ret (Err (Errorf_w "error retrieving kcp system CRDs: %w" err))
      | Ok kcpSystemCRDs =>
          let seen := foldl (λ seen crd, sets.Insert seen (crdName crd))
                            (sets.NewString []) kcpSystemCRDs in
          match apiBindingIndexer c byWorkspace (logicalcluster.String clusterName) with
          | Err err => ret (Err err)
          | Ok objs =>
              do acc <- List_bindings c clusterName selector objs (kcpSystemCRDs, seen);
              match crdIndexer c byWorkspace (logicalcluster.String clusterName) with
              | Err err => ret (Err err)
              | Ok objs =>
                  do all <- List_local clusterName selector acc.2 objs acc.1;
                  ret (Ok all)
              end
          end
      end
  end.

(** ** The API reconciler of the syncer virtual workspace *)

Module apireconciler.

(** [schema.GroupVersionResource], the key of an [APIDefinitionSet]. *)
Record GroupVersionResource := GVR {
  Group : string;
  Version : string;
  Resource : string
}.

#[global] Instance GroupVersionResource_eq_dec : EqDecision GroupVersionResource.
Proof. solve_decision. Defined.

#[global] Instance GroupVersionResource_countable : Countable GroupVersionResource.
Proof.
  apply (inj_countable' (λ g, (Group g, Version g, Resource g))
                        (λ t, GVR t.1.1 t.1.2 t.2)).
  intros []; reflexivity.
Defined.

(** An [APIDefinition] is an object behind an interface; the embedding
    keeps its identity.  Its [TearDown] is an effect outside the
    reconciler, recorded call by call in [tearDowns]. *)
Definition APIDefinition := positive.

Abbreviation APIDefinitionSet := (gmap GroupVersionResource APIDefinition).

(** Modelled from the spec: the sync target is declared in
    pkg/apis/workload/v1alpha1, outside the sources; [wanted] stands for
    "the set of (schema, version, identityHash) triples derivable from the
    sync-target's exports". *)
Record SyncTarget := {
  wanted : list GroupVersionResource
}.

(** The reconciler's map of API-definition sets, with the [TearDown]
    calls made so far and the next object [createAPIDefinition] makes. *)
Record APIReconciler := mkReconciler {
  apiSets : gmap string APIDefinitionSet;
  tearDowns : list APIDefinition;
  nextDefinition : APIDefinition
}.

Definition NewAPIReconciler : APIReconciler :=
  mkReconciler ∅ [] 1%positive.

Definition removeAPIDefinitionSet (key : string) (r : APIReconciler) : APIReconciler :=
  mkReconciler (delete key (apiSets r)) (tearDowns r) (nextDefinition r).

Definition GetAPIDefinitionSet (key : string) (r : APIReconciler)
  : option APIDefinitionSet * bool :=
  (apiSets r !! key, bool_decide (is_Some (apiSets r !! key))).

(** Modelled from the spec: [reconcile] is defined in another file of the
    package, outside the sources.  Per work item the spec diffs the wanted
    triples against the current set of the key: "Added triples → create
    definition, insert. Removed triples → remove from map, call TearDown
    on the removed definition. Unchanged → keep", then publishes the
    updated set.  The factory is taken to succeed. *)
Definition reconcile (key : string) (syncTarget : SyncTarget) (r : APIReconciler)
  : result unit * APIReconciler :=
  let oldSet := default ∅ (apiSets r !! key) in
  let '(newSet, next) :=
    foldl (λ '(acc, n) gvr,
             match acc !! gvr, oldSet !! gvr with
             | Some _, _ => (acc, n)
             | None, Some d => (<[gvr := d]> acc, n)
             | None, None => (<[gvr := n]> acc, Pos.succ n)
             end)
          ((∅ : APIDefinitionSet), nextDefinition r) (wanted syncTarget) in
  let removed :=
    map snd (List.filter (λ kv, negb (bool_decide (kv.1 ∈ wanted syncTarget)))
                         (map_to_list oldSet)) in
  (Ok tt, mkReconciler (<[key := newSet]> (apiSets r)) (tearDowns r ++ removed) next).

Definition process (syncTargetLister : string → result SyncTarget) (key : string)
    (r : APIReconciler) : result unit * APIReconciler :=
  match syncTargetLister key with
  | Err err =>
      if IsNotFound err then (Ok tt, removeAPIDefinitionSet key r)
      else (Err err, r)
  | Ok syncTarget => reconcile key syncTarget r
  end.

(** One work item: the key, and the sync-target lister as it stands when
    the worker takes the key. *)
Definition WorkItem : Type := (string → result SyncTarget) * string.

Definition processNextWorkItem (item : WorkItem) (r : APIReconciler) : APIReconciler :=
  (process item.1 item.2 r).2.

(** The deferred function of [Start]: every definition of every set still
    in the map is torn down. *)
Definition stopAllWatches (r : APIReconciler) : APIReconciler :=
  mkReconciler (apiSets r)
    (tearDowns r ++ concat (map (λ kv, map snd (map_to_list kv.2))
                                (map_to_list (apiSets r))))
    (nextDefinition r).

(** [Start]: the worker processes the items that arrive until the context
    is done, then the deferred teardown runs. *)
Definition Start (items : list WorkItem) (r : APIReconciler) : APIReconciler :=
  stopAllWatches (foldl (λ r item, processNextWorkItem item r) r items).

(** The definitions held by the registry. *)
Definition held (r : APIReconciler) : list APIDefinition :=
  concat (map (λ kv, map snd (map_to_list kv.2)) (map_to_list (apiSets r))).

End apireconciler.

(** ** Vocabulary of the registry's specification *)

(** A proper descendant of the root cluster: [root:] followed by a path. *)
Definition descendantOfRoot (cluster : logicalcluster.Name) : Prop :=
  ∃ rest, logicalcluster.name_value cluster = "root:" +:+ rest.

(** The workspace lookup [Keys] makes for a descendant of root. *)
Definition workspaceLookup (p : systemCRDProvider) (cluster : logicalcluster.Name)
  : result tenancyv1alpha1.ClusterWorkspace :=
  getClusterWorkspace p
    (clusters.ToClusterAwareKey (logicalcluster.Split cluster).1
                                (logicalcluster.Split cluster).2).

Definition workspaceType (w : tenancyv1alpha1.ClusterWorkspace) : string :=
  tenancyv1alpha1.Name (tenancyv1alpha1.Type' (tenancyv1alpha1.Spec w)).


(** ** Vocabulary of the resolver's specification *)

(** A request that carries its Accept header as a string. *)
Definition acceptOf (ctx : Context) (accept : string) : Prop :=
  ctx_accept ctx = Some (AnyString accept).


(** The name is not served by the system workspace. *)
Definition notSystemCRD (c : apiBindingAwareCRDLister) (name : string) : Prop :=
  ∃ e, crdLister c (systemKey name) = Err e ∧ IsNotFound e = true.


(** The annotations of a CRD value in a state: what reading its map
    gives. *)
Definition annotationsOf (s : State) (crd : CRD) : gmap string string :=
  match Annotations crd with
  | None => ∅
  | Some l => default ∅ (heap s !! l)
  end.

(** The condition [SetCRDCondition] is given by the decoration, stamped
    with the time of the call. *)
Definition terminatingAt (t : metav1.Time) : CustomResourceDefinitionCondition :=
  {| Type' := Terminating; Status := ConditionTrue; LastTransitionTime := t;
     Reason := ""; Message := "" |}.

(** The conditions [decorateCRDWithBinding] leaves on the copy of a schema
    whose binding is being deleted. *)
Definition decoratedConditions (t : metav1.Time)
    (cs : list CustomResourceDefinitionCondition)
  : list CustomResourceDefinitionCondition :=
  repeat apiextensionshelpers.zeroCondition (length cs)
  ++ default (cs ++ [terminatingAt t])
             (apiextensionshelpers.overwrite (terminatingAt t) cs).

(** A computation that returns from every state: it does not panic. *)
Definition returns {A} (m : M A) : Prop :=
  ∀ s, ∃ a s', m s = Done a s'.

(** Two CRD values of one stored object: same name, same cluster. *)
Definition sameObject (a b : CRD) : Prop :=
  Name a = Name b ∧ ClusterName a = ClusterName b.

(** The bound resource at which the walk over the bindings of a workspace
    stops: the first matching resource of the first completed binding that
    has one. *)
Fixpoint firstBound (group resource : string) (objs : list APIBinding)
  : option (APIBinding * BoundAPIResource) :=
  match objs with
  | [] => None
  | b :: objs' =>
      if conditions.IsTrue b apisv1alpha1.InitialBindingCompleted then
        match List.find (matchesGroupResource group resource)
                        (apisv1alpha1.BoundResources b) with
        | Some r => Some (b, r)
        | None => firstBound group resource objs'
        end
      else firstBound group resource objs'
  end.

(** No completed binding declares the group and resource. *)
Definition noBindingMatches (group resource : string) (objs : list APIBinding) : Prop :=
  ∀ b r, b ∈ objs →
    conditions.IsTrue b apisv1alpha1.InitialBindingCompleted = true →
    r ∈ apisv1alpha1.BoundResources b →
    matchesGroupResource group resource r = false.

(** A request on the normal single-cluster path: a cluster other than the
    wildcard, no identity, a string Accept header. *)
Definition singleCluster (ctx : Context) (cl : logicalcluster.Name) (accept : string) : Prop :=
  ctx_cluster ctx = Some cl
  ∧ cl ≠ logicalcluster.Wildcard
  ∧ ctx_identity ctx = ""
  ∧ acceptOf ctx accept.

Definition groupOf (name : string) : string := (crdNameToGroupResource name).1.
Definition resourceOf (name : string) : string := (crdNameToGroupResource name).2.

(** What [get] does at the bound resource its walk stops at. *)
Definition atBound (c : apiBindingAwareCRDLister) (name : string)
    (b : APIBinding) (r : BoundAPIResource) : M (option (result CRD)) :=
  match crdLister c (shadowKey (apisv1alpha1.UID (apisv1alpha1.Schema r))) with
  | Err err =>
      if IsNotFound err then
        ret (Some (Err (NewServiceUnavailable (name +:+ " is currently unavailable"))))
      else ret (Some (Err err))
  | Ok crd =>
      do crd <- decorateCRDWithBinding crd
                  (apisv1alpha1.IdentityHash (apisv1alpha1.Schema r))
                  (apisv1alpha1.DeletionTimestamp b);
      ret (Some (Ok crd))
  end.

(** The annotations map of a CRD value lives in the heap of the state (no
    dangling reference). *)
Definition allocated (s : State) (crd : CRD) : Prop :=
  ∀ l, Annotations crd = Some l → l ∈ dom (heap s).

Definition wildcardSuffix : string := ".wildcard.partial-metadata".

(** What [Refresh] writes into the fresh map of the refreshed copy, from
    the annotations [A] of its argument and [U] of the store copy. *)
Definition refreshedAnnotations (A U : gmap string string) : gmap string string :=
  let identity := default "" (A !! apisv1alpha1.AnnotationAPIIdentityKey) in
  let U := if negb (String.eqb identity "")
           then <[apisv1alpha1.AnnotationAPIIdentityKey := identity]> U else U in
  match A !! annotationKeyPartialMetadata with
  | Some _ => <[annotationKeyPartialMetadata := ""]> U
  | None => U
  end.

(** ** Similar states

    Two states are similar outside a set [L] of locations when their heaps
    have the same domain, which covers [L], and hold the same maps outside
    [L], and their clocks agree.  The logs are left out: the code never
    reads them. *)
Definition sim (L : gset loc) (s1 s2 : State) : Prop :=
  dom (heap s1) = dom (heap s2)
  ∧ L ⊆ dom (heap s1)
  ∧ (∀ l, l ∉ L → heap s1 !! l = heap s2 !! l)
  ∧ now s1 = now s2.

(** The annotations of the value are not among the locations [L]. *)
Definition avoids (L : gset loc) (crd : CRD) : Prop :=
  ∀ l, Annotations crd = Some l → l ∉ L.

Definition resultAvoids (L : gset loc) (r : result CRD) : Prop :=
  ∀ crd, r = Ok crd → avoids L crd.

(** Two computations that, from similar states, both panic or return the
    same value, with [P], in similar states. *)
Definition related {A} (L : gset loc) (P : A → Prop) (m1 m2 : M A) : Prop :=
  ∀ s1 s2, sim L s1 s2 →
    match m1 s1, m2 s2 with
    | Done a1 t1, Done a2 t2 => a1 = a2 ∧ P a1 ∧ sim L t1 t2
    | Panic _, Panic _ => True
    | _, _ => False
    end.

Definition respects {A} (L : gset loc) (P : A → Prop) (m : M A) : Prop :=
  related L P m m.

(** The objects a lister can hand out. *)
Definition cached (c : apiBindingAwareCRDLister) (crd : CRD) : Prop :=
  (∃ key, crdLister c key = Ok crd)
  ∨ (∃ index v objs, crdIndexer c index v = Ok objs ∧ crd ∈ objs).

(** ** Vocabulary of the specification of [List] *)

Definition boundKey (r : BoundAPIResource) : string :=
  shadowKey (apisv1alpha1.UID (apisv1alpha1.Schema r)).

(** The shadow schema of the bound resource can be fetched. *)
Definition fetches (c : apiBindingAwareCRDLister) (r : BoundAPIResource) : bool :=
  match crdLister c (boundKey r) with
  | Ok _ => true
  | Err _ => false
  end.

(** The binding, declaring only the resources whose schema can be
    fetched. *)
Definition withoutFailing (c : apiBindingAwareCRDLister) (b : APIBinding) : APIBinding :=
  {| apisv1alpha1.ClusterName := apisv1alpha1.ClusterName b;
     apisv1alpha1.DeletionTimestamp := apisv1alpha1.DeletionTimestamp b;
     apisv1alpha1.Conditions := apisv1alpha1.Conditions b;
     apisv1alpha1.BoundResources := List.filter (fetches c) (apisv1alpha1.BoundResources b) |}.

(** The lister over the same store whose bindings declare only the
    resources whose schema can be fetched. *)
Definition pruned (c : apiBindingAwareCRDLister) : apiBindingAwareCRDLister :=
  {| crdLister := crdLister c;
     crdIndexer := crdIndexer c;
     apiBindingIndexer := λ index v,
       match apiBindingIndexer c index v with
       | Ok objs => Ok (map (withoutFailing c) objs)
       | Err err => Err err
       end;
     systemProvider := systemProvider c |}.

(** The entry [List] logs for a bound schema it could not fetch. *)
Definition fetchFailure (r : BoundAPIResource) (err : error) : LogEntry :=
  klog_Errorf "Error getting bound CRD %q: %v" [ArgString (boundKey r); ArgError err].

Definition logExtends (s s' : State) : Prop :=
  ∃ more, klog s' = klog s ++ more.

(** ** Vocabulary of the aliasing properties *)

(** Every object the lister can hand out keeps its annotations away from
    [L]. *)
Definition cacheAvoids (L : gset loc) (c : apiBindingAwareCRDLister) : Prop :=
  ∀ crd, cached c crd → avoids L crd.

(** The maps of the cached objects live in the heap of the state. *)
Definition cacheIn (c : apiBindingAwareCRDLister) (s : State) : Prop :=
  ∀ crd, cached c crd → allocated s crd.

Definition optionAvoids (L : gset loc) (o : option (result CRD)) : Prop :=
  ∀ r, o = Some r → resultAvoids L r.

(** The caller's [crd.Annotations[k] = v] on a schema it was handed. *)
Definition mutateAnnotations (crd : CRD) (k v : string) (s : State) : State :=
  match Annotations crd with
  | Some l =>
      match heap s !! l with
      | Some m => mkState (<[l := <[k := v]> m]> (heap s)) (klog s) (now s)
      | None => s
      end
  | None => s
  end.

(** What a caller sees of the result of [Get]: the error, or the schema
    with the content of its annotations map. *)
Definition view (o : Outcome (result CRD))
  : option (result (CRD * gmap string string)) :=
  match o with
  | Done (Ok crd) s => Some (Ok (set_Annotations None crd, annotationsOf s crd))
  | Done (Err e) _ => Some (Err e)
  | Panic _ => None
  end.

(** The calls of [Get] that copy: a partial-metadata request, or a name
    the system workspace does not serve that is resolved by identity or, on
    the single-cluster path, through a binding. *)
Definition copies (c : apiBindingAwareCRDLister) (ctx : Context) (name : string)
    (st : State) : Prop :=
  (∃ accept, acceptOf ctx accept ∧ isPartialMetadataHeader accept = true)
  ∨ (∃ cl e0 st0,
       ctx_cluster ctx = Some cl
       ∧ getSystemCRD c cl name st = Done (Err e0) st0
       ∧ IsNotFound e0 = true
       ∧ (ctx_identity ctx ≠ ""
          ∨ (cl ≠ logicalcluster.Wildcard
             ∧ ∃ objs b r,
                 apiBindingIndexer c byWorkspace (logicalcluster.String cl) = Ok objs
                 ∧ firstBound (groupOf name) (resourceOf name) objs = Some (b, r)))).

(** ** An in-memory store for examples

    Modelled from the spec: the indexed store adapter (§4.B) is built from
    informer caches outside the sources.  [memoryLister] serves a list of
    CRDs and a list of bindings through the lookups the lister uses: the
    cluster-aware key, [by-workspace], [by-group-resource-name] (by schema
    name, wherever the schema lives) and the identity index. *)

Definition crdKeyOf (crd : CRD) : string :=
  clusters.ToClusterAwareKey (From crd) (Name crd).

Definition memoryLister (crds : list CRD) (bindings : list APIBinding)
    (p : systemCRDProvider) : apiBindingAwareCRDLister :=
  {| crdLister := λ key,
       match List.find (λ crd, String.eqb (crdKeyOf crd) key) crds with
       | Some crd => Ok crd
       | None => Err (NewNotFound crdResource key)
       end;
     crdIndexer := λ index v,
       if String.eqb index byWorkspace then
         Ok (List.filter (λ crd, String.eqb (ClusterName crd) v) crds)
       else if String.eqb index byGroupResourceName then
         Ok (List.filter (λ crd, String.eqb (Name crd) v) crds)
       else Err (OtherError "Index with name does not exist");
     apiBindingIndexer := λ index v,
       if String.eqb index byWorkspace then
         Ok (List.filter (λ b, String.eqb (apisv1alpha1.ClusterName b) v) bindings)
       else if String.eqb index apibinding.IndexAPIBindingsByIdentityGroupResource then
         Ok (List.filter
               (λ b, existsb
                       (λ r, String.eqb
                               (apibinding.IdentityGroupResourceKeyFunc
                                  (apisv1alpha1.IdentityHash (apisv1alpha1.Schema r))
                                  (apisv1alpha1.Group r) (apisv1alpha1.Resource r)) v)
                       (apisv1alpha1.BoundResources b))
               bindings)
       else Err (OtherError "Index with name does not exist");
     systemProvider := p |}.

Module Example.

Definition workspaceOfType (t : string) : tenancyv1alpha1.ClusterWorkspace :=
  {| tenancyv1alpha1.Spec :=
       {| tenancyv1alpha1.Type' :=
            {| tenancyv1alpha1.Name := t; tenancyv1alpha1.Path := "root" |} |} |}.

(** Workspaces [root:org] (Organization), [root:org:ws] (Universal),
    [root:org:team] (Team) and [root:home] (of a user-defined type);
    [root:broken] cannot be read. *)
Definition workspaces (key : string) : result tenancyv1alpha1.ClusterWorkspace :=
  if String.eqb key "root#$#org" then Ok (workspaceOfType "Organization")
  else if String.eqb key "root:org#$#ws" then Ok (workspaceOfType "Universal")
  else if String.eqb key "root:org#$#team" then Ok (workspaceOfType "Team")
  else if String.eqb key "root#$#home" then Ok (workspaceOfType "Home")
  else if String.eqb key "root#$#broken" then Err (OtherError "etcd unavailable")
  else Err (NewNotFound "clusterworkspaces" key).

Definition established : CustomResourceDefinitionCondition :=
  {| Type' := Established; Status := ConditionTrue; LastTransitionTime := 7%Z;
     Reason := "InitialNamesAccepted"; Message := "the initial names have been accepted" |}.

Definition widgetsSpec : CustomResourceDefinitionSpec :=
  {| Group := "example.io";
     Names := {| Plural := "widgets"; Kind := "Widget" |};
     Scope := "Namespaced";
     Versions := [ {| Version_Name := "v1"; Served := true; Storage := true;
                      Schema := Some {| OpenAPIV3Schema :=
                                          Some {| Type_ := "object";
                                                  Properties := [("size", "integer")] |} |} |} ] |}.

Definition widgetsSpec' : CustomResourceDefinitionSpec :=
  {| Group := "example.io";
     Names := {| Plural := "widgets"; Kind := "Widget" |};
     Scope := "Namespaced";
     Versions := [ {| Version_Name := "v1"; Served := true; Storage := true;
                      Schema := Some {| OpenAPIV3Schema :=
                                          Some {| Type_ := "object";
                                                  Properties := [("size", "string")] |} |} |} ] |}.

Definition workspacesSpec : CustomResourceDefinitionSpec :=
  {| Group := "tenancy.kcp.dev";
     Names := {| Plural := "clusterworkspaces"; Kind := "ClusterWorkspace" |};
     Scope := "Cluster";
     Versions := [ {| Version_Name := "v1alpha1"; Served := true; Storage := true;
                      Schema := None |} ] |}.

(** The system CRD [clusterworkspaces.tenancy.kcp.dev]. *)
Definition systemWorkspaces : CRD :=
  {| Name := "clusterworkspaces.tenancy.kcp.dev"; ClusterName := "system:system-crds";
     UID := "uid-sys"; Labels := ∅; Annotations := Some 3%positive;
     DeletionTimestamp := None; Spec := workspacesSpec; Conditions := [established] |}.

(** A CRD of the same name created in [root:org:ws] itself. *)
Definition localWorkspaces : CRD :=
  {| Name := "clusterworkspaces.tenancy.kcp.dev"; ClusterName := "root:org:ws";
     UID := "uid-mine"; Labels := ∅; Annotations := None;
     DeletionTimestamp := None; Spec := workspacesSpec; Conditions := [] |}.

(** [widgets.example.io] as created in [root:org:ws]. *)
Definition localWidgets : CRD :=
  {| Name := "widgets.example.io"; ClusterName := "root:org:ws";
     UID := "uid-local"; Labels := ∅; Annotations := Some 1%positive;
     DeletionTimestamp := None; Spec := widgetsSpec; Conditions := [established] |}.

(** [widgets.example.io] in another workspace, with the same and with a
    different schema. *)
Definition otherWidgets : CRD :=
  {| Name := "widgets.example.io"; ClusterName := "root:org:team";
     UID := "uid-other"; Labels := ∅; Annotations := None;
     DeletionTimestamp := None; Spec := widgetsSpec; Conditions := [] |}.

Definition divergingWidgets : CRD :=
  {| Name := "widgets.example.io"; ClusterName := "root:home";
     UID := "uid-diverging"; Labels := ∅; Annotations := None;
     DeletionTimestamp := None; Spec := widgetsSpec'; Conditions := [] |}.

(** The bound schema of widgets, living in the shadow workspace under the
    UID of its API resource schema. *)
Definition shadowWidgets : CRD :=
  {| Name := "schema-uid-widgets"; ClusterName := "system:bound-crds";
     UID := "uid-shadow"; Labels := ∅; Annotations := Some 2%positive;
     DeletionTimestamp := None; Spec := widgetsSpec; Conditions := [established] |}.

Definition boundWidgets (schemaUID : string) : BoundAPIResource :=
  {| apisv1alpha1.Group := "example.io"; apisv1alpha1.Resource := "widgets";
     apisv1alpha1.Schema :=
       {| apisv1alpha1.Name := "today.widgets.example.io";
          apisv1alpha1.UID := schemaUID;
          apisv1alpha1.IdentityHash := "identity-1" |} |}.

Definition completed : apisv1alpha1.Condition :=
  {| apisv1alpha1.Type' := apisv1alpha1.InitialBindingCompleted;
     apisv1alpha1.Status := "True" |}.

Definition binding (rs : list BoundAPIResource) (deleted : option metav1.Time)
  : APIBinding :=
  {| apisv1alpha1.ClusterName := "root:org:ws";
     apisv1alpha1.DeletionTimestamp := deleted;
     apisv1alpha1.Conditions := [completed];
     apisv1alpha1.BoundResources := rs |}.

Definition gates : FeatureGates := {| LocationAPI := true; PlacementAPI := false |}.

Definition provider (crds : list CRD) : systemCRDProvider :=
  newSystemCRDProvider gates workspaces
    (λ key, match List.find (λ crd, String.eqb (crdKeyOf crd) key) crds with
            | Some crd => Ok crd
            | None => Err (NewNotFound crdResource key)
            end).

Definition lister (crds : list CRD) (bindings : list APIBinding)
  : apiBindingAwareCRDLister :=
  memoryLister crds bindings (provider crds).

(** The maps the cached objects above refer to. *)
Definition state : State :=
  mkState (<[1%positive := {[ "team" := "a" ]}]>
             (<[2%positive := ∅]> (<[3%positive := {[ "bootstrap" := "kcp" ]}]> ∅)))
          [] 100%Z.

(** A context in which nothing was stored under the accept-header key. *)
Definition contextWithoutAccept (cluster : option logicalcluster.Name) : Context :=
  {| ctx_cluster := cluster; ctx_identity := ""; ctx_accept := None |}.

(** A lister whose store cannot be read. *)
Definition unreadable : apiBindingAwareCRDLister :=
  {| crdLister := λ _, Err (OtherError "store unavailable");
     crdIndexer := λ _ _, Err (OtherError "store unavailable");
     apiBindingIndexer := λ _ _, Err (OtherError "store unavailable");
     systemProvider := provider [] |}.

(** The workspace [root:org:ws] with its own CRDs for widgets and for
    cluster workspaces, next to the system CRD and the bound schema; the
    workspace binds widgets through [binding]. *)
Definition crds : list CRD :=
  [systemWorkspaces; localWorkspaces; localWidgets; shadowWidgets].

Definition bound : apiBindingAwareCRDLister :=
  lister crds [binding [boundWidgets "schema-uid-widgets"] None].

(** The same workspace when the bound schema is missing from the shadow
    workspace, and when nothing is bound. *)
Definition broken : apiBindingAwareCRDLister :=
  lister [systemWorkspaces; localWorkspaces; localWidgets]
         [binding [boundWidgets "schema-uid-widgets"] None].

Definition unbound : apiBindingAwareCRDLister :=
  lister crds [].

Definition ws : logicalcluster.Name := logicalcluster.New "root:org:ws".

(** What a wildcard partial-metadata read by identity hands out for the
    bound widgets: the projected, decorated copy, with its own map. *)
Definition served : CRD :=
  set_UID ("widgets.example.io" +:+ wildcardSuffix)
    (set_Versions (map withMinimalSchema (Versions widgetsSpec))
       (set_Annotations (Some 5%positive) shadowWidgets)).

Definition servedState : State :=
  mkState (<[5%positive := {[ apisv1alpha1.AnnotationAPIIdentityKey := "identity-1";
                              annotationKeyPartialMetadata := "" ]}]> (heap state))
          [] 100%Z.

(** The bound widgets decorated with an identity, and the state after the
    decoration. *)
Definition decorated (identity : string) (s : State) : CRD * State :=
  match decorateCRDWithBinding shadowWidgets identity None s with
  | Done d s' => (d, s')
  | Panic _ => (shadowWidgets, s)
  end.

(** A state in which the stored bound schema itself carries an identity
    annotation. *)
Definition staleState : State :=
  mkState (<[2%positive := {[ apisv1alpha1.AnnotationAPIIdentityKey := "identity-0" ]}]>
             (heap state))
          [] 100%Z.

(** The workspace [root:home], whose type gets no system CRDs: it has its
    own widgets and a completed binding that declares the widgets twice,
    first with a schema that is missing from the shadow workspace. *)
Definition homeBinding : APIBinding :=
  {| apisv1alpha1.ClusterName := "root:home";
     apisv1alpha1.DeletionTimestamp := None;
     apisv1alpha1.Conditions := [completed];
     apisv1alpha1.BoundResources :=
       [boundWidgets "schema-uid-lost"; boundWidgets "schema-uid-widgets"] |}.

Definition home : logicalcluster.Name := logicalcluster.New "root:home".

Definition homeLister : apiBindingAwareCRDLister :=
  lister [divergingWidgets; shadowWidgets] [homeBinding].

(** The same store when the index of the workspace's own CRDs cannot be
    read. *)
Definition noLocalIndex : apiBindingAwareCRDLister :=
  {| crdLister := crdLister homeLister;
     crdIndexer := λ _ _, Err (OtherError "Index with name does not exist");
     apiBindingIndexer := apiBindingIndexer homeLister;
     systemProvider := systemProvider homeLister |}.

Definition everything : Selector := λ _, true.

(** The schema and the state a call of [Get] ended with. *)
Definition returned (o : Outcome (result CRD)) : CRD * State :=
  match o with
  | Done (Ok crd) s => (crd, s)
  | _ => (shadowWidgets, state)
  end.

Definition context (cluster identity accept : string) : Context :=
  {| ctx_cluster := Some (logicalcluster.New cluster);
     ctx_identity := identity;
     ctx_accept := Some (AnyString accept) |}.

End Example.

Module ReconcilerExample.
Import apireconciler.

Definition key : string := "root:org:ws|east".

Definition deployments : GroupVersionResource :=
  GVR "apps" "v1" "deployments".

(** The sync target [east] exists and syncs deployments. *)
Definition present (k : string) : result SyncTarget :=
  if String.eqb k key then Ok {| wanted := [deployments] |}
  else Err (NewNotFound "synctargets" k).

(** The sync target has been deleted. *)
Definition deleted (k : string) : result SyncTarget :=
  Err (NewNotFound "synctargets" k).

(** The sync target is reconciled, then deleted and its key processed
    again, before the controller stops. *)
Definition createdThenDeleted : list WorkItem := [(present, key); (deleted, key)].

(** The sync target is reconciled and still there when the controller
    stops. *)
Definition createdOnly : list WorkItem := [(present, key)].

End ReconcilerExample.

(** ** Vocabulary of the further properties *)

(** Every map of the heap of [s] is still there, unchanged, in [s']. *)
Definition heapKept (s s' : State) : Prop :=
  ∀ l m, heap s !! l = Some m → heap s' !! l = Some m.

(** From [s] to [s'] the maps that existed are kept, the log is only
    appended to, and the clock is left alone. *)
Definition advances (s s' : State) : Prop :=
  heapKept s s' ∧ logExtends s s' ∧ now s' = now s.

(** A computation that only advances the state. *)
Definition advancing {A} (m : M A) : Prop :=
  ∀ s a s', m s = Done a s' → advances s s'.

Definition names (crds : list CRD) : list string := map crdName crds.

(** A CRD of the workspace itself is listed when it matches the selector
    and no schema listed with a higher priority bears its name. *)
Definition unshadowed (selector : Selector) (higher : list CRD) (crd : CRD) : bool :=
  selector (Labels crd) && negb (bool_decide (crdName crd ∈ names higher)).

(** [out] is a decorated copy of [shadow]: decoration keeps the name, the
    cluster, the UID, the labels and the spec. *)
Definition decoratedCopy (out shadow : CRD) : Prop :=
  Name out = Name shadow ∧ ClusterName out = ClusterName shadow
  ∧ UID out = UID shadow ∧ Labels out = Labels shadow ∧ Spec out = Spec shadow.

(** The accumulator of the binding pass of [List], over the system CRDs
    [sys]: the list is [sys] followed by schemas that match the selector
    and have pairwise different names, none of them the name of a system
    CRD, and the seen-set holds exactly the names of the list. *)
Definition bindingPassInv (selector : Selector) (sys : list CRD)
    (acc : list CRD * gset string) : Prop :=
  ∃ bound,
    acc.1 = sys ++ bound
    ∧ (∀ n, n ∈ acc.2 ↔ n ∈ names (sys ++ bound))
    ∧ NoDup (names bound)
    ∧ (∀ crd, crd ∈ bound → selector (Labels crd) = true ∧ crdName crd ∉ names sys).

(** The key under which [getForIdentity] looks the bindings up. *)
Definition identityIndexKey (name identity : string) : string :=
  apibinding.IdentityGroupResourceKeyFunc identity (groupOf name) (resourceOf name).

(** Every version of the schema carries the minimal validation schema. *)
Definition minimalVersions (crd : CRD) : Prop :=
  Forall (λ v, Schema v = Some minimalSchema) (Versions (Spec crd)).

Module MoreExamples.

(** A binding of [root:org:team] that binds the widgets under another
    identity, and one that binds nothing. *)
Definition otherIdentity : BoundAPIResource :=
  {| apisv1alpha1.Group := "example.io"; apisv1alpha1.Resource := "widgets";
     apisv1alpha1.Schema :=
       {| apisv1alpha1.Name := "yesterday.widgets.example.io";
          apisv1alpha1.UID := "schema-uid-old";
          apisv1alpha1.IdentityHash := "identity-2" |} |}.

Definition emptyBinding : APIBinding :=
  {| apisv1alpha1.ClusterName := "root:org:team";
     apisv1alpha1.DeletionTimestamp := None;
     apisv1alpha1.Conditions := [Example.completed];
     apisv1alpha1.BoundResources := [otherIdentity] |}.

(** A lister whose identity index answers with the given bindings, over
    the store of [Example.bound]. *)
Definition indexed (bindings : list APIBinding) : apiBindingAwareCRDLister :=
  {| crdLister := crdLister Example.bound;
     crdIndexer := crdIndexer Example.bound;
     apiBindingIndexer := λ _ _, Ok bindings;
     systemProvider := systemProvider Example.bound |}.

(** A CRD of [root:home] that no binding and no system CRD shadows, and
    the store of [Example.homeLister] with it. *)
Definition gadgetsSpec : CustomResourceDefinitionSpec :=
  {| Group := "example.io";
     Names := {| Plural := "gadgets"; Kind := "Gadget" |};
     Scope := "Namespaced";
     Versions := [ {| Version_Name := "v1"; Served := true; Storage := true;
                      Schema := None |} ] |}.

Definition localGadgets : CRD :=
  {| Name := "gadgets.example.io"; ClusterName := "root:home";
     UID := "uid-gadgets"; Labels := ∅; Annotations := None;
     DeletionTimestamp := None; Spec := gadgetsSpec; Conditions := [] |}.

Definition homeWithGadgets : apiBindingAwareCRDLister :=
  Example.lister [Example.divergingWidgets; localGadgets; Example.shadowWidgets]
                 [Example.homeBinding].

Definition widgetsBinding : APIBinding :=
  Example.binding [Example.boundWidgets "schema-uid-widgets"] None.

Definition lostBinding : APIBinding :=
  Example.binding [Example.boundWidgets "schema-uid-lost"] None.

(** A registry whose store holds a CRD for every key. *)
Definition systemCRD (key : string) : CRD :=
  {| Name := key; ClusterName := "system:system-crds"; UID := "uid-" +:+ key;
     Labels := ∅; Annotations := None; DeletionTimestamp := None;
     Spec := Example.workspacesSpec; Conditions := [Example.established] |}.

Definition fullProvider : systemCRDProvider :=
  newSystemCRDProvider Example.gates Example.workspaces (λ key, Ok (systemCRD key)).

Definition partialAccept : string := "application/json;as=PartialObjectMetadataList".

End MoreExamples.

(** A wildcard request for partial metadata without identity. *)
Definition wildcardPartialMetadata (ctx : Context) : Prop :=
  ctx_cluster ctx = Some logicalcluster.Wildcard
  ∧ ctx_identity ctx = ""
  ∧ ∃ accept, acceptOf ctx accept ∧ isPartialMetadataHeader accept = true.

(** The byte occurs in the string. *)
Fixpoint contains (ch : ascii) (s : string) : bool :=
  match s with
  | EmptyString => false
  | String.String c rest => Ascii.eqb c ch || contains ch rest
  end.

(** The fields of a schema that neither a decoration nor a projection nor
    a refresh takes from anywhere but the object itself. *)
Definition sameStatus (a b : CRD) : Prop :=
  Labels a = Labels b
  ∧ DeletionTimestamp a = DeletionTimestamp b
  ∧ Conditions a = Conditions b
  ∧ Group (Spec a) = Group (Spec b)
  ∧ Names (Spec a) = Names (Spec b)
  ∧ Scope (Spec a) = Scope (Spec b)
  ∧ map Version_Name (Versions (Spec a)) = map Version_Name (Versions (Spec b)).

Definition locationsKey : string := systemKey "locations.scheduling.kcp.dev".
Definition placementsKey : string := systemKey "placements.scheduling.kcp.dev".

(** The entry [Keys] logs when the workspace of a cluster cannot be read. *)
Definition workspaceFailure (cluster : logicalcluster.Name) (err : error) : LogEntry :=
  klog_ErrorS err "Unable to determine system CRD keys: error getting clusterworkspace"
    ["clusterName"; logicalcluster.String cluster;
     "workspaceKey";
     clusters.ToClusterAwareKey (logicalcluster.Split cluster).1
                                (logicalcluster.Split cluster).2].

(** The error [systemCRDProvider.List] returns for a key it could not get. *)
Definition systemError (err : error) : error :=
  Errorf_w "error getting system CRD %q: %w" err.

(** The entry [systemCRDProvider.List] logs for a key it could not get. *)
Definition systemFailure (cluster : logicalcluster.Name) (key : string) (err : error)
  : LogEntry :=
  klog_Errorf "Failed to get CRD %s for %s: %v"
    [ArgString key; ArgString (logicalcluster.String cluster); ArgError err].

(** The order [sets.String.List] sorts by is total. *)
#[global] Instance string_le_total : Total sets.string_le.
Proof. intros a b. apply String.leb_total. Qed.

(** ** The API reconciler's event handlers and work queue *)

Module controller.
Import apireconciler.

(** The metadata the key functions read. *)
Record ObjectMeta := {
  meta_cluster : string;
  meta_namespace : string;
  meta_name : string
}.

(** [kcpcache.ToClusterAwareKey] of kcp-dev/apimachinery:
    [cluster|namespace/name], without the parts that are empty. *)
Definition ToClusterAwareKey (cluster namespace name : string) : string :=
  (if String.eqb cluster "" then "" else cluster +:+ "|")
  +:+ (if String.eqb namespace "" then "" else namespace +:+ "/")
  +:+ name.

Definition keyOf (m : ObjectMeta) : string :=
  ToClusterAwareKey (meta_cluster m) (meta_namespace m) (meta_name m).

(** [workloadv1alpha1.ResourceToSync], an element of
    [Status.SyncedResources]. *)
Record ResourceToSync := {
  rs_Group : string;
  rs_Resource : string;
  rs_Versions : list string;
  rs_IdentityHash : string;
  rs_State : string
}.

#[global] Instance ResourceToSync_eq_dec : EqDecision ResourceToSync.
Proof. solve_decision. Defined.

(** A sync target as the informer delivers it; [stExports] stands for the
    rest of the object. *)
Record SyncTargetObject := {
  stMeta : ObjectMeta;
  stExports : list string;
  SyncedResources : list ResourceToSync
}.

(** What an informer hands to a handler as [interface{}]: the object, or on
    a missed deletion the tombstone [cache.DeletedFinalStateUnknown] with
    the key the object had in the store. *)
Inductive delivered (T : Type) :=
| Live (obj : T)
| DeletedFinalStateUnknown (key : string).
Arguments Live {T} obj.
Arguments DeletedFinalStateUnknown {T} key.

(** [kcpcache.MetaClusterNamespaceKeyFunc] of kcp-dev/apimachinery: the
    cluster-aware key of an object that has metadata, an error for anything
    else, a tombstone included. *)
Definition MetaClusterNamespaceKeyFunc {T} (meta : T → ObjectMeta) (obj : delivered T)
  : result string :=
  match obj with
  | Live o => Ok (keyOf (meta o))
  | DeletedFinalStateUnknown _ => Err (Errorf "object has no meta")
  end.

(** [kcpcache.DeletionHandlingMetaClusterNamespaceKeyFunc]: the key recorded
    in a tombstone, otherwise as above. *)
Definition DeletionHandlingMetaClusterNamespaceKeyFunc {T} (meta : T → ObjectMeta)
    (obj : delivered T) : result string :=
  match obj with
  | DeletedFinalStateUnknown key => Ok key
  | _ => MetaClusterNamespaceKeyFunc meta obj
  end.

(** [equality.Semantic.DeepEqual] on two [SyncedResources] slices; a nil and
    an empty slice are one value of the embedding, and semantically
    equal. *)
Definition Semantic_DeepEqual (a b : list ResourceToSync) : bool :=
  bool_decide (a = b).

(** The calls a controller makes on its rate-limited work queue. *)
Inductive QueueCall :=
| queue_Add (key : string)
| queue_AddRateLimited (key : string)
| queue_Forget (key : string)
| queue_Done (key : string)
| queue_ShutDown.

(** The controller with its collaborators' sides of its effects: the calls
    made on the queue, the errors given to [runtime.HandleError], and the
    messages logged at verbosity 2, each with its queue key. *)
Record Controller := mkController {
  registry : APIReconciler;
  queue : list QueueCall;
  handled : list error;
  infos : list (string * string)
}.

(** The two indexers of the controller, by index name and key. *)
Record Indexers := {
  syncTargetIndexer : string → string → result (list SyncTargetObject);
  apiExportIndexer : string → string → result (list ObjectMeta)
}.

Definition ControllerName : string := "kcp-virtual-syncer-api-reconciler".
Definition indexSyncTargetsByExport : string := ControllerName +:+ "ByExport".
Definition indexAPIExportsByAPIResourceSchema : string :=
  ControllerName +:+ "ByAPIResourceSchema".

Definition HandleError (err : error) (c : Controller) : Controller :=
  mkController (registry c) (queue c) (handled c ++ [err]) (infos c).

Definition call (q : QueueCall) (c : Controller) : Controller :=
  mkController (registry c) (queue c ++ [q]) (handled c) (infos c).

Definition Info (key msg : string) (c : Controller) : Controller :=
  mkController (registry c) (queue c) (handled c) (infos c ++ [(key, msg)]).

Definition enqueueSyncTarget (obj : delivered SyncTargetObject) (logSuffix : string)
    (c : Controller) : Controller :=
  match MetaClusterNamespaceKeyFunc stMeta obj with
  | Err err => HandleError err c
  | Ok key => call (queue_Add key) (Info key ("queueing SyncTarget" +:+ logSuffix) c)
  end.

Definition enqueueAPIExport (ix : Indexers) (obj : delivered ObjectMeta)
    (logSuffix : string) (c : Controller) : Controller :=
  match DeletionHandlingMetaClusterNamespaceKeyFunc id obj with
  | Err err => HandleError err c
  | Ok key =>
      match syncTargetIndexer ix indexSyncTargetsByExport key with
      | Err err => HandleError err c
      | Ok synctargets =>
          foldl (λ c obj, enqueueSyncTarget (Live obj) " because of APIExport" c)
                c synctargets
      end
  end.

Definition enqueueAPIResourceSchema (ix : Indexers) (obj : delivered ObjectMeta)
    (c : Controller) : Controller :=
  match DeletionHandlingMetaClusterNamespaceKeyFunc id obj with
  | Err err => HandleError err c
  | Ok key =>
      match apiExportIndexer ix indexAPIExportsByAPIResourceSchema key with
      | Err err => HandleError err c
      | Ok apiExports =>
          foldl (λ c obj, enqueueAPIExport ix (Live obj) " because of APIResourceSchema" c)
                c apiExports
      end
  end.

(** The events of the three informers [NewAPIReconciler] registers handlers
    with.  An update carries the two versions of the object; a deletion may
    carry a tombstone. *)
Inductive Event :=
| SyncTargetAdded (obj : SyncTargetObject)
| SyncTargetUpdated (old new : SyncTargetObject)
| SyncTargetDeleted (obj : delivered SyncTargetObject)
| APIResourceSchemaAdded (obj : ObjectMeta)
| APIResourceSchemaUpdated (old new : ObjectMeta)
| APIResourceSchemaDeleted (obj : delivered ObjectMeta)
| APIExportAdded (obj : ObjectMeta)
| APIExportUpdated (old new : ObjectMeta)
| APIExportDeleted (obj : delivered ObjectMeta).

(** The handlers registered by [NewAPIReconciler]: [AddFunc], [UpdateFunc]
    and [DeleteFunc] per informer.  The schema informer gets no
    [UpdateFunc], and [cache.ResourceEventHandlerFuncs] does nothing for a
    function that is nil. *)
Definition handle (ix : Indexers) (ev : Event) (c : Controller) : Controller :=
  match ev with
  | SyncTargetAdded obj => enqueueSyncTarget (Live obj) "" c
  | SyncTargetUpdated oldCluster newCluster =>
      if negb (Semantic_DeepEqual (SyncedResources oldCluster)
                                  (SyncedResources newCluster))
      then enqueueSyncTarget (Live newCluster) "" c
      else c
  | SyncTargetDeleted obj => enqueueSyncTarget obj "" c
  | APIResourceSchemaAdded obj => enqueueAPIResourceSchema ix (Live obj) c
  | APIResourceSchemaUpdated _ _ => c
  | APIResourceSchemaDeleted obj => enqueueAPIResourceSchema ix obj c
  | APIExportAdded obj => enqueueAPIExport ix (Live obj) "" c
  | APIExportUpdated _ obj => enqueueAPIExport ix (Live obj) "" c
  | APIExportDeleted obj => enqueueAPIExport ix obj "" c
  end.

(** [process], with the [reconcile] of the package, which is defined in
    another file, as a parameter. *)
Definition process_with
    (reconcile : string → SyncTarget → APIReconciler → result unit * APIReconciler)
    (syncTargetLister : string → result SyncTarget) (key : string)
    (r : APIReconciler) : result unit * APIReconciler :=
  match syncTargetLister key with
  | Err err =>
      if IsNotFound err then (Ok tt, removeAPIDefinitionSet key r)
      else (Err err, r)
  | Ok syncTarget =>
      match reconcile key syncTarget r with
      | (Err err, r') => (Err err, r')
      | (Ok _, r') => (Ok tt, r')
      end
  end.

Definition syncFailure (err : error) : error :=
  Errorf_w "%s: failed to sync %q, err: %w" err.

(** [processNextWorkItem] with the calls on the queue: [got] is what
    [queue.Get] returned, [None] when the queue has shut down. *)
Definition processNextWorkItem_queue
    (reconcile : string → SyncTarget → APIReconciler → result unit * APIReconciler)
    (syncTargetLister : string → result SyncTarget) (got : option string)
    (c : Controller) : bool * Controller :=
  match got with
  | None => (false, c)
  | Some key =>
      match process_with reconcile syncTargetLister key (registry c) with
      | (Err err, r) =>
          let c := mkController r (queue c) (handled c) (infos c) in
          let c := HandleError (syncFailure err) c in
          let c := call (queue_AddRateLimited key) c in
          (true, call (queue_Done key) c)
      | (Ok _, r) =>
          let c := mkController r (queue c) (handled c) (infos c) in
          let c := call (queue_Forget key) c in
          (true, call (queue_Done key) c)
      end
  end.

(** [startWorker]: work items are processed until [processNextWorkItem]
    returns false.  [gets] is what the successive calls of [queue.Get]
    return, each with the lister as it stands at that moment. *)
Fixpoint startWorker
    (reconcile : string → SyncTarget → APIReconciler → result unit * APIReconciler)
    (gets : list ((string → result SyncTarget) * option string))
    (c : Controller) : Controller :=
  match gets with
  | [] => c
  | (lister, got) :: gets' =>
      match processNextWorkItem_queue reconcile lister got c with
      | (true, c') => startWorker reconcile gets' c'
      | (false, c') => c'
      end
  end.

(** The outcome of processing each work item in turn, every item on the
    registry its predecessors left. *)
Fixpoint outcomes
    (reconcile : string → SyncTarget → APIReconciler → result unit * APIReconciler)
    (items : list ((string → result SyncTarget) * string)) (r : APIReconciler)
  : list (string * result unit) :=
  match items with
  | [] => []
  | (lister, key) :: items' =>
      let out := process_with reconcile lister key r in
      (key, out.1) :: outcomes reconcile items' out.2
  end.

(** What a worker owes the queue for a processed key: [Forget] after a
    success or [AddRateLimited] after a failure, then [Done]; and what it
    owes [runtime.HandleError]: the failure, wrapped. *)
Definition verdict (o : string * result unit) : QueueCall :=
  match o.2 with
  | Ok _ => queue_Forget o.1
  | Err _ => queue_AddRateLimited o.1
  end.

Definition workerCalls (o : string * result unit) : list QueueCall :=
  [verdict o; queue_Done o.1].

Definition reported (outs : list (string * result unit)) : list error :=
  flat_map (λ o, match o.2 with
                 | Ok _ => []
                 | Err err => [syncFailure err]
                 end) outs.

(** The keys enqueued for an API export key, and for a schema key: the
    sync targets the index holds for the export, and for every export the
    index holds for the schema. *)
Definition exportFanOut (ix : Indexers) (key : string) : list string :=
  match syncTargetIndexer ix indexSyncTargetsByExport key with
  | Err _ => []
  | Ok synctargets => map (λ t, keyOf (stMeta t)) synctargets
  end.

Definition schemaFanOut (ix : Indexers) (key : string) : list string :=
  match apiExportIndexer ix indexAPIExportsByAPIResourceSchema key with
  | Err _ => []
  | Ok apiExports => concat (map (λ e, exportFanOut ix (keyOf e)) apiExports)
  end.

(** The key handed to the indexers for a delivered export or schema. *)
Definition deliveredKey (obj : delivered ObjectMeta) : string :=
  match obj with
  | Live m => keyOf m
  | DeletedFinalStateUnknown key => key
  end.

Definition start : Controller :=
  mkController NewAPIReconciler [] [] [].

Definition isDone (q : QueueCall) : bool :=
  match q with queue_Done _ => true | _ => false end.

Definition isRetry (q : QueueCall) : bool :=
  match q with queue_AddRateLimited _ => true | _ => false end.

(** The calls a worker makes for a key: the verdict, [Forget] or
    [AddRateLimited], and [Done]. *)
Definition workerCall (key : string) (q : QueueCall) : Prop :=
  q = queue_Forget key ∨ q = queue_AddRateLimited key ∨ q = queue_Done key.

(** The message logged for every key a handler enqueues on behalf of an
    export or a schema. *)
Definition becauseOfAPIExport (key : string) : string * string :=
  (key, "queueing SyncTarget because of APIExport").

End controller.

Module ControllerExample.
Import apireconciler controller.

Definition meta (name : string) : ObjectMeta :=
  {| meta_cluster := "root:org:ws"; meta_namespace := ""; meta_name := name |}.

Definition deployments : ResourceToSync :=
  {| rs_Group := "apps"; rs_Resource := "deployments"; rs_Versions := ["v1"];
     rs_IdentityHash := ""; rs_State := "Accepted" |}.

Definition east : SyncTargetObject :=
  {| stMeta := meta "east"; stExports := ["kubernetes"]; SyncedResources := [] |}.

(** [east] after the syncer reported deployments, and after a change of
    its exports only. *)
Definition eastSynced : SyncTargetObject :=
  {| stMeta := meta "east"; stExports := ["kubernetes"];
     SyncedResources := [deployments] |}.

Definition eastExporting : SyncTargetObject :=
  {| stMeta := meta "east"; stExports := ["kubernetes"; "extras"];
     SyncedResources := [] |}.

Definition west : SyncTargetObject :=
  {| stMeta := meta "west"; stExports := ["extras"]; SyncedResources := [] |}.

(** The export [kubernetes] is used by [east] and [west], the export
    [extras] by [west]; the index cannot answer for [broken].  Both exports
    and [broken] refer to the schema [today.widgets]. *)
Definition indexers : Indexers :=
  {| syncTargetIndexer := λ _ key,
       if String.eqb key "root:org:ws|kubernetes" then Ok [east; west]
       else if String.eqb key "root:org:ws|extras" then Ok [west]
       else if String.eqb key "root:org:ws|broken" then Err (OtherError "no such index")
       else Ok [];
     apiExportIndexer := λ _ key,
       if String.eqb key "root:org:ws|today.widgets"
       then Ok [meta "kubernetes"; meta "broken"; meta "extras"]
       else Ok [] |}.

Definition unreadable (k : string) : result SyncTarget :=
  Err (OtherError "cache not synced").

End ControllerExample.
(** ** Properties of the system CRD registry *)

Lemma prefix_iff_app (a s : string) :
  String.prefix a s = true ↔ ∃ r, s = a +:+ r.
Proof.
  revert s. induction a as [|c a IH]; intros s.
  - split; [intros _; exists s; reflexivity | intros _; destruct s; reflexivity].
  - destruct s as [|d s]; simpl.
    + split; [discriminate | intros [r Hr]; discriminate].
    + destruct (ascii_dec c d) as [->|Hne].
      * rewrite IH. split; intros [r Hr]; exists r.
        -- rewrite Hr. reflexivity.
        -- cbv [String.append] in Hr. fold String.append in Hr. congruence.
      * split; [discriminate | intros [r Hr]].
        cbv [String.append] in Hr. fold String.append in Hr. congruence.
Qed.

Lemma HasPrefix_root cluster :
  logicalcluster.HasPrefix cluster tenancyv1alpha1.RootCluster = true
  ↔ descendantOfRoot cluster.
Proof. unfold logicalcluster.HasPrefix. simpl. apply prefix_iff_app. Qed.

Lemma descendant_not_root cluster :
  descendantOfRoot cluster → cluster ≠ tenancyv1alpha1.RootCluster.
Proof. intros [r Hr] ->. simpl in Hr. discriminate. Qed.

(** C6. [Keys] by cluster and workspace type: root gets root ∪ common; a
    proper descendant of root gets universal ∪ common for type Universal,
    org ∪ common for Organization or Team and nothing for any other type or
    when the workspace lookup fails (not-found or any other error); every
    other cluster gets nothing.  [Keys] always returns. *)
Theorem Keys_by_cluster_and_type (p : systemCRDProvider)
    (cluster : logicalcluster.Name) (st : State) :
  (cluster = tenancyv1alpha1.RootCluster →
     value (Keys p cluster st) = Some (rootCRDs p ∪ commonCRDs p)) ∧
  (descendantOfRoot cluster →
     (∀ w, workspaceLookup p cluster = Ok w → workspaceType w = "Universal" →
        value (Keys p cluster st) = Some (universalCRDs p ∪ commonCRDs p)) ∧
     (∀ w, workspaceLookup p cluster = Ok w →
        workspaceType w = "Organization" ∨ workspaceType w = "Team" →
        value (Keys p cluster st) = Some (orgCRDs p ∪ commonCRDs p)) ∧
     (∀ w, workspaceLookup p cluster = Ok w →
        workspaceType w ≠ "Universal" → workspaceType w ≠ "Organization" →
        workspaceType w ≠ "Team" →
        value (Keys p cluster st) = Some ∅) ∧
     (∀ e, workspaceLookup p cluster = Err e →
        value (Keys p cluster st) = Some ∅)) ∧
  (cluster ≠ tenancyv1alpha1.RootCluster → ¬ descendantOfRoot cluster →
     value (Keys p cluster st) = Some ∅).
Proof.
  split; [|split].
  - intros ->. reflexivity.
  - intros Hd.
    pose proof (descendant_not_root _ Hd) as Hne.
    apply HasPrefix_root in Hd.
    unfold Keys, workspaceLookup, workspaceType.
    rewrite bool_decide_eq_false_2 by exact Hne. rewrite Hd.
    destruct (logicalcluster.Split cluster) as [parent ws]; simpl.
    repeat split.
    + intros w -> Ht. rewrite Ht. reflexivity.
    + intros w -> Ht.
      destruct Ht as [Ht|Ht]; rewrite Ht; reflexivity.
    + intros w -> H1 H2 H3.
      apply String.eqb_neq in H1, H2, H3. rewrite H1, H2, H3. reflexivity.
    + intros e ->. unfold bind. destruct (negb (IsNotFound e)); reflexivity.
  - intros Hne Hnd. unfold Keys.
    rewrite bool_decide_eq_false_2 by exact Hne.
    destruct (logicalcluster.HasPrefix cluster tenancyv1alpha1.RootCluster) eqn:Hp.
    + apply HasPrefix_root in Hp. contradiction.
    + reflexivity.
Qed.

Lemma Keys_by_cluster_and_type_witness :
  let p := Example.provider [] in
  let keys cluster := value (Keys p (logicalcluster.New cluster) Example.state) in
  keys "root" = Some (rootCRDs p ∪ commonCRDs p)
  ∧ keys "root:org:ws" = Some (universalCRDs p ∪ commonCRDs p)
  ∧ keys "root:org" = Some (orgCRDs p ∪ commonCRDs p)
  ∧ keys "root:org:team" = Some (orgCRDs p ∪ commonCRDs p)
  ∧ keys "root:home" = Some ∅
  ∧ keys "root:broken" = Some ∅
  ∧ keys "root:gone" = Some ∅
  ∧ keys "rootless" = Some ∅.
Proof.
  intros p keys.
  pose (T := λ cluster, Keys_by_cluster_and_type p (logicalcluster.New cluster) Example.state).
  assert (D : ∀ rest, descendantOfRoot (logicalcluster.New ("root:" +:+ rest)))
    by (intros rest; exists rest; reflexivity).
  repeat apply conj.
  - apply (proj1 (T "root")). reflexivity.
  - apply (proj1 (proj1 (proj2 (T "root:org:ws")) (D "org:ws"))
             (Example.workspaceOfType "Universal")); reflexivity.
  - apply (proj1 (proj2 (proj1 (proj2 (T "root:org")) (D "org")))
             (Example.workspaceOfType "Organization")); [reflexivity | left; reflexivity].
  - apply (proj1 (proj2 (proj1 (proj2 (T "root:org:team")) (D "org:team")))
             (Example.workspaceOfType "Team")); [reflexivity | right; reflexivity].
  - apply (proj1 (proj2 (proj2 (proj1 (proj2 (T "root:home")) (D "home"))))
             (Example.workspaceOfType "Home")); [reflexivity | discriminate ..].
  - apply (proj2 (proj2 (proj2 (proj1 (proj2 (T "root:broken")) (D "broken"))))
             (OtherError "etcd unavailable")); reflexivity.
  - apply (proj2 (proj2 (proj2 (proj1 (proj2 (T "root:gone")) (D "gone"))))
             (NewNotFound "clusterworkspaces" "root#$#gone")); reflexivity.
  - apply (proj2 (proj2 (T "rootless"))).
    + discriminate.
    + intros [rest Hrest]. discriminate.
Defined.

(** ** Evaluation of the monad *)

Lemma bind_Done {A B} (m : M A) (f : A → M B) s a s' :
  m s = Done a s' → bind m f s = f a s'.
Proof. unfold bind. intros ->. reflexivity. Qed.

Lemma bind_ret {A B} (a : A) (f : A → M B) s : bind (ret a) f s = f a s.
Proof. reflexivity. Qed.

Lemma isPartialMetadataRequest_string ctx accept s :
  acceptOf ctx accept →
  isPartialMetadataRequest ctx s = Done (isPartialMetadataHeader accept) s.
Proof.
  unfold acceptOf, isPartialMetadataRequest. intros ->.
  destruct (String.eqb_spec accept "") as [->|_]; reflexivity.
Qed.

(** ** Wildcard reads *)






(** ** Transformations *)

Lemma shallowCopy_eq in_ s :
  shallowCopyCRDAndDeepCopyAnnotations in_ s =
    Done (set_Annotations (Some (fresh (dom (heap s)))) in_)
         (mkState (<[fresh (dom (heap s)) := annotationsOf s in_]> (heap s))
                  (klog s) (now s)).
Proof. reflexivity. Qed.

Lemma fresh_heap (h : gmap loc (gmap string string)) : h !! fresh (dom h) = None.
Proof. apply not_elem_of_dom, is_fresh. Qed.

Lemma overwrite_zeros newCondition n cs :
  Type' newCondition ≠ "" →
  apiextensionshelpers.overwrite newCondition
      (repeat apiextensionshelpers.zeroCondition n ++ cs) =
    option_map (app (repeat apiextensionshelpers.zeroCondition n))
               (apiextensionshelpers.overwrite newCondition cs).
Proof.
  intros Hne. induction n as [|n IH].
  - simpl. destruct (apiextensionshelpers.overwrite newCondition cs); reflexivity.
  - cbn [repeat app apiextensionshelpers.overwrite]. rewrite IH.
    destruct (Type' newCondition) eqn:E; [congruence|]. simpl.
    destruct (apiextensionshelpers.overwrite newCondition cs); reflexivity.
Qed.

Lemma decorate_not_deleting in_ identity deleteTime s :
  metav1.IsZero deleteTime = true →
  decorateCRDWithBinding in_ identity deleteTime s =
    Done (set_Annotations (Some (fresh (dom (heap s)))) in_)
         (mkState (<[fresh (dom (heap s)) :=
                       <[apisv1alpha1.AnnotationAPIIdentityKey := identity]>
                         (annotationsOf s in_)]> (heap s))
                  (klog s) (now s)).
Proof.
  intros Hz. unfold decorateCRDWithBinding.
  rewrite (bind_Done _ _ _ _ _ (shallowCopy_eq in_ s)).
  unfold bind, writeMap. simpl. rewrite Hz. unfold ret.
  rewrite lookup_insert_eq, insert_insert_eq. reflexivity.
Qed.

Lemma decorate_deleting in_ identity deleteTime s :
  metav1.IsZero deleteTime = false →
  decorateCRDWithBinding in_ identity deleteTime s =
    Done (set_Conditions (decoratedConditions (now s) (Conditions in_))
            (set_DeletionTimestamp deleteTime
               (set_Annotations (Some (fresh (dom (heap s)))) in_)))
         (mkState (<[fresh (dom (heap s)) :=
                       <[apisv1alpha1.AnnotationAPIIdentityKey := identity]>
                         (annotationsOf s in_)]> (heap s))
                  (klog s) (now s)).
Proof.
  intros Hz. unfold decorateCRDWithBinding.
  rewrite (bind_Done _ _ _ _ _ (shallowCopy_eq in_ s)).
  unfold bind, writeMap. simpl. rewrite Hz.
  rewrite lookup_insert_eq, insert_insert_eq.
  unfold apiextensionshelpers.SetCRDCondition, bind, time_Now, ret. simpl.
  change {| Type' := Terminating; Status := ConditionTrue;
            LastTransitionTime := now s; Reason := ""; Message := "" |}
    with (terminatingAt (now s)).
  rewrite overwrite_zeros by discriminate.
  unfold decoratedConditions.
  destruct (apiextensionshelpers.overwrite (terminatingAt (now s)) (Conditions in_));
    simpl; [reflexivity|].
  unfold set_Conditions. simpl. rewrite <- app_assoc. reflexivity.
Qed.

(** C3. Decoration under a deleting binding: the copy carries the identity
    annotation and the deletion timestamp, but its conditions start with as
    many zero-valued conditions as the schema has conditions, before the
    schema's own conditions and the Terminating one.  On a schema with the
    one condition Established this gives three conditions, not two. *)
Theorem decorateCRDWithBinding_deleting_conditions :
  (∀ in_ identity (t : positive) st,
     ∃ out st',
       decorateCRDWithBinding in_ identity (Some (Z.pos t)) st = Done out st'
       ∧ annotationsOf st' out !! apisv1alpha1.AnnotationAPIIdentityKey = Some identity
       ∧ DeletionTimestamp out = Some (Z.pos t)
       ∧ Conditions out =
           repeat apiextensionshelpers.zeroCondition (length (Conditions in_))
           ++ default (Conditions in_ ++ [terminatingAt (now st)])
                (apiextensionshelpers.overwrite (terminatingAt (now st)) (Conditions in_)))
  ∧ (∃ out st',
       decorateCRDWithBinding Example.shadowWidgets "identity-1" (Some 50%Z) Example.state
         = Done out st'
       ∧ Conditions out =
           [apiextensionshelpers.zeroCondition; Example.established; terminatingAt 100%Z]
       ∧ Conditions out ≠ Conditions Example.shadowWidgets ++ [terminatingAt 100%Z]).
Proof.
  split.
  - intros in_ identity t st. eexists _, _.
    split; [apply decorate_deleting; reflexivity|].
    unfold annotationsOf. simpl. rewrite lookup_insert_eq. simpl.
    rewrite lookup_insert_eq. repeat split.
  - eexists _, _. split; [apply decorate_deleting; reflexivity|].
    split; [reflexivity | discriminate].
Qed.

(** ** Totality: which calls return *)

Lemma returns_ret {A} (a : A) : returns (ret a).
Proof. intros s. eexists _, _. reflexivity. Qed.

Lemma returns_bind {A B} (m : M A) (f : A → M B) :
  returns m → (∀ a, returns (f a)) → returns (bind m f).
Proof.
  intros Hm Hf s. destruct (Hm s) as (a & s' & E).
  rewrite (bind_Done _ _ _ _ _ E). apply Hf.
Qed.

Lemma returns_log e : returns (log e).
Proof. intros s. eexists _, _. reflexivity. Qed.

Lemma returns_decorate in_ identity deleteTime :
  returns (decorateCRDWithBinding in_ identity deleteTime).
Proof.
  intros s. destruct (metav1.IsZero deleteTime) eqn:Hz.
  - rewrite decorate_not_deleting by exact Hz. eexists _, _. reflexivity.
  - rewrite decorate_deleting by exact Hz. eexists _, _. reflexivity.
Qed.

Ltac returns_step :=
  first [ apply returns_ret | apply returns_log | apply returns_decorate
        | assumption
        | apply returns_bind; [|intros ?]
        | case_match ].

Lemma returns_Keys p clusterName : returns (Keys p clusterName).
Proof. unfold Keys. repeat returns_step. Qed.

Lemma returns_getSystemCRD c clusterName name :
  returns (getSystemCRD c clusterName name).
Proof.
  pose proof (returns_Keys (systemProvider c) clusterName).
  unfold getSystemCRD. repeat returns_step.
Qed.

Lemma returns_getForIdentity c name identity :
  returns (getForIdentity c name identity).
Proof. unfold getForIdentity. repeat returns_step. Qed.

Lemma returns_get_boundResources c name group resource apiBinding rs :
  returns (get_boundResources c name group resource apiBinding rs).
Proof. induction rs as [|r rs IH]; simpl; repeat returns_step. Qed.

Lemma returns_get_bindings c name group resource objs :
  returns (get_bindings c name group resource objs).
Proof.
  induction objs as [|b objs IH]; simpl; [apply returns_ret|].
  pose proof (returns_get_boundResources c name group resource b
                (apisv1alpha1.BoundResources b)).
  repeat returns_step.
Qed.

Lemma returns_get c clusterName name : returns (get c clusterName name).
Proof.
  unfold get. destruct (crdNameToGroupResource name) as [group resource].
  destruct (apiBindingIndexer c byWorkspace (logicalcluster.String clusterName))
    as [objs|e]; [|apply returns_ret].
  pose proof (returns_get_bindings c name group resource objs).
  repeat returns_step.
Qed.

Lemma returns_Get_resolve c ctx clusterName partialMetadataRequest name :
  returns (Get_resolve c ctx clusterName partialMetadataRequest name).
Proof.
  pose proof (returns_get c clusterName name).
  pose proof (returns_getForIdentity c name (IdentityFromContext ctx)).
  unfold Get_resolve. repeat returns_step.
Qed.

Lemma Get_finish_projects clusterName name crd s :
  Get_finish clusterName true name (Ok crd) s =
    let l := fresh (dom (heap s)) in
    let projected :=
      set_Versions (map withMinimalSchema (Versions (Spec crd)))
        (set_Annotations (Some l) crd) in
    Done (Ok (if bool_decide (clusterName = logicalcluster.Wildcard)
              then set_UID (name +:+ ".wildcard.partial-metadata") projected
              else projected))
         (mkState (<[l := <[annotationKeyPartialMetadata := ""]> (annotationsOf s crd)]>
                     (heap s))
                  (klog s) (now s)).
Proof.
  unfold Get_finish. rewrite (bind_Done _ _ _ _ _ (shallowCopy_eq crd s)).
  unfold makePartialMetadataCRD, bind, writeMap, ret. simpl.
  rewrite lookup_insert_eq, insert_insert_eq. simpl.
  case_bool_decide; reflexivity.
Qed.

Lemma returns_Get_finish clusterName partialMetadataRequest name r :
  returns (Get_finish clusterName partialMetadataRequest name r).
Proof.
  intros s. destruct r as [crd|e]; [|eexists _, _; reflexivity].
  destruct partialMetadataRequest; [|eexists _, _; reflexivity].
  rewrite Get_finish_projects. eexists _, _. reflexivity.
Qed.

(** ** The Accept header and the panic of [Get] *)

(** C10, as the code has it.  With a string under the accept-header key
    [Get] always returns.  Without a value there, [Get] panics when it
    reaches the partial-metadata check, that is when the context carries a
    cluster and the system lookup did not fail with an error other than
    not-found; a context without a cluster, or such a failure of the system
    lookup, makes [Get] return that error before the check. *)
Theorem Get_panics_without_accept c ctx name st :
  (∀ accept, acceptOf ctx accept → ∃ r st', Get c ctx name st = Done r st')
  ∧ (∀ cl r st1,
       ctx_cluster ctx = Some cl →
       getSystemCRD c cl name st = Done r st1 →
       (∀ e, r = Err e → IsNotFound e = true) →
       ctx_accept ctx = None →
       ∃ msg, Get c ctx name st = Panic msg)
  ∧ (ctx_cluster ctx = None → ∃ e, Get c ctx name st = Done (Err e) st)
  ∧ (∀ cl e st1,
       ctx_cluster ctx = Some cl →
       getSystemCRD c cl name st = Done (Err e) st1 →
       IsNotFound e = false →
       Get c ctx name st = Done (Err e) st1).
Proof.
  repeat apply conj.
  - intros accept Hacc. unfold Get.
    destruct (ClusterNameFrom ctx) as [cl|e]; [|eexists _, _; reflexivity].
    destruct (returns_getSystemCRD c cl name st) as (sys & s1 & Hsys).
    rewrite (bind_Done _ _ _ _ _ Hsys).
    assert (Hfin : ∀ r0, returns (do partialMetadataRequest <- isPartialMetadataRequest ctx;
                                  Get_finish cl partialMetadataRequest name r0)).
    { intros r0 s. rewrite (bind_Done _ _ _ _ _ (isPartialMetadataRequest_string _ _ _ Hacc)).
      apply returns_Get_finish. }
    destruct sys as [crd|e]; [apply Hfin|].
    destruct (IsNotFound e); simpl; [|eexists _, _; reflexivity].
    rewrite (bind_Done _ _ _ _ _ (isPartialMetadataRequest_string _ _ _ Hacc)).
    apply returns_bind; [apply returns_Get_resolve | intros; apply returns_Get_finish].
  - intros cl r st1 Hcl Hsys Hnf Hacc. unfold Get, ClusterNameFrom. rewrite Hcl.
    rewrite (bind_Done _ _ _ _ _ Hsys).
    assert (Hp : ∀ B (f : bool → M B),
               bind (isPartialMetadataRequest ctx) f st1
               = Panic "interface conversion: interface {} is nil, not string").
    { intros B f. unfold bind, isPartialMetadataRequest. rewrite Hacc. reflexivity. }
    destruct r as [crd|e].
    + rewrite Hp. eexists. reflexivity.
    + rewrite (Hnf e eq_refl). simpl. rewrite Hp. eexists. reflexivity.
  - intros Hcl. unfold Get, ClusterNameFrom. rewrite Hcl. eexists. reflexivity.
  - intros cl e st1 Hcl Hsys Hnf. unfold Get, ClusterNameFrom. rewrite Hcl.
    rewrite (bind_Done _ _ _ _ _ Hsys), Hnf. reflexivity.
Qed.

Lemma Get_panics_without_accept_witness :
  let name := "widgets.example.io" in
  let c := Example.lister [Example.localWidgets] [] in
  let ws := logicalcluster.New "root:org:ws" in
  (∃ r st', Get c (Example.context "root:org:ws" "" "") name Example.state = Done r st')
  ∧ (∃ msg, Get c (Example.contextWithoutAccept (Some ws)) name Example.state = Panic msg)
  ∧ (∃ e, Get c (Example.contextWithoutAccept None) name Example.state
          = Done (Err e) Example.state)
  ∧ Get Example.unreadable (Example.contextWithoutAccept (Some logicalcluster.Wildcard))
        name Example.state
    = Done (Err (OtherError "store unavailable")) Example.state.
Proof.
  intros name c ws. repeat apply conj.
  - apply (proj1 (Get_panics_without_accept c (Example.context "root:org:ws" "" "")
                    name Example.state) "").
    reflexivity.
  - apply (proj1 (proj2 (Get_panics_without_accept c
                    (Example.contextWithoutAccept (Some ws)) name Example.state))
             ws (Err (NewNotFound crdResource name)) Example.state).
    + reflexivity.
    + vm_compute. reflexivity.
    + intros e [= <-]. reflexivity.
    + reflexivity.
  - apply (proj1 (proj2 (proj2 (Get_panics_without_accept c
                    (Example.contextWithoutAccept None) name Example.state)))).
    reflexivity.
  - apply (proj2 (proj2 (proj2 (Get_panics_without_accept Example.unreadable
                    (Example.contextWithoutAccept (Some logicalcluster.Wildcard))
                    name Example.state)))
             logicalcluster.Wildcard).
    + reflexivity.
    + reflexivity.
    + reflexivity.
Defined.

(** C10 as stated fails: with nothing under the accept-header key and no
    cluster in the context, [Get] returns the cluster error; it does not
    panic. *)
Lemma Get_without_accept_returns_error :
  let ctx := Example.contextWithoutAccept None in
  ctx_accept ctx = None
  ∧ Get (Example.lister [Example.localWidgets] []) ctx "widgets.example.io" Example.state
    = Done (Err (OtherError "no cluster in the request context")) Example.state.
Proof. split; reflexivity. Qed.

(** ** The normal single-cluster path *)

Lemma firstBound_None group resource objs :
  firstBound group resource objs = None ↔ noBindingMatches group resource objs.
Proof.
  unfold noBindingMatches. induction objs as [|b objs IH]; simpl.
  - split; [intros _ b r Hb; inversion Hb | reflexivity].
  - destruct (conditions.IsTrue b apisv1alpha1.InitialBindingCompleted) eqn:Hc.
    + destruct (List.find _ (apisv1alpha1.BoundResources b)) as [r|] eqn:Hf.
      * split; [discriminate|]. intros H. exfalso.
        apply find_some in Hf as [Hin Hm].
        rewrite (H b r) in Hm; [discriminate | left | exact Hc |].
        apply list_elem_of_In. exact Hin.
      * rewrite IH. split.
        -- intros H b' r [->|Hb']%elem_of_cons Hc' Hr; [|eapply H; eassumption].
           apply (find_none _ _ Hf). apply list_elem_of_In. exact Hr.
        -- intros H b' r Hb'. apply H. right. exact Hb'.
    + rewrite IH. split.
      * intros H b' r [->|Hb']%elem_of_cons Hc' Hr; [congruence|].
        eapply H; eassumption.
      * intros H b' r Hb'. apply H. right. exact Hb'.
Qed.

Lemma firstBound_Some group resource objs b r :
  firstBound group resource objs = Some (b, r) →
  b ∈ objs
  ∧ conditions.IsTrue b apisv1alpha1.InitialBindingCompleted = true
  ∧ r ∈ apisv1alpha1.BoundResources b
  ∧ matchesGroupResource group resource r = true.
Proof.
  induction objs as [|b0 objs IH]; simpl; [discriminate|].
  destruct (conditions.IsTrue b0 apisv1alpha1.InitialBindingCompleted) eqn:Hc.
  - destruct (List.find _ (apisv1alpha1.BoundResources b0)) as [r0|] eqn:Hf.
    + intros [= <- <-]. apply find_some in Hf as [Hin Hm].
      repeat apply conj; [left | exact Hc | apply list_elem_of_In; exact Hin | exact Hm].
    + intros H. destruct (IH H) as (? & ? & ? & ?).
      repeat apply conj; [right| | |]; assumption.
  - intros H. destruct (IH H) as (? & ? & ? & ?).
    repeat apply conj; [right| | |]; assumption.
Qed.

Lemma get_boundResources_find c name group resource b rs s :
  get_boundResources c name group resource b rs s =
    match List.find (matchesGroupResource group resource) rs with
    | Some r => atBound c name b r s
    | None => Done None s
    end.
Proof.
  induction rs as [|r rs IH]; simpl; [reflexivity|].
  destruct (matchesGroupResource group resource r); [reflexivity | exact IH].
Qed.

Lemma get_bindings_firstBound c name group resource objs s :
  get_bindings c name group resource objs s =
    match firstBound group resource objs with
    | Some (b, r) => atBound c name b r s
    | None => Done None s
    end.
Proof.
  induction objs as [|b objs IH]; simpl; [reflexivity|].
  destruct (conditions.IsTrue b apisv1alpha1.InitialBindingCompleted); simpl;
    [|exact IH].
  unfold bind. rewrite get_boundResources_find.
  destruct (List.find _ (apisv1alpha1.BoundResources b)) as [r|]; [|exact IH].
  unfold atBound.
  destruct (crdLister c _) as [crd|e].
  - unfold bind. destruct (decorateCRDWithBinding _ _ _ s); reflexivity.
  - destruct (IsNotFound e); reflexivity.
Qed.

Lemma get_bound c cl name objs b r s :
  apiBindingIndexer c byWorkspace (logicalcluster.String cl) = Ok objs →
  firstBound (groupOf name) (resourceOf name) objs = Some (b, r) →
  get c cl name s =
    match crdLister c (shadowKey (apisv1alpha1.UID (apisv1alpha1.Schema r))) with
    | Err err =>
        Done (Err (if IsNotFound err
                   then NewServiceUnavailable (name +:+ " is currently unavailable")
                   else err)) s
    | Ok crd =>
        bind (decorateCRDWithBinding crd
                (apisv1alpha1.IdentityHash (apisv1alpha1.Schema r))
                (apisv1alpha1.DeletionTimestamp b))
             (λ crd, ret (Ok crd)) s
    end.
Proof.
  unfold get, groupOf, resourceOf.
  destruct (crdNameToGroupResource name) as [group resource]. simpl.
  intros -> Hf. unfold bind at 1. rewrite get_bindings_firstBound, Hf.
  unfold atBound. destruct (crdLister c _) as [crd|e].
  - unfold bind. destruct (decorateCRDWithBinding _ _ _ s); reflexivity.
  - destruct (IsNotFound e); reflexivity.
Qed.

Lemma get_unbound c cl name objs s :
  apiBindingIndexer c byWorkspace (logicalcluster.String cl) = Ok objs →
  firstBound (groupOf name) (resourceOf name) objs = None →
  get c cl name s =
    Done (match crdLister c (clusters.ToClusterAwareKey cl name) with
          | Ok crd => Ok crd
          | Err err => if IsNotFound err then Err (NewNotFound crdResource name)
                       else Err err
          end) s.
Proof.
  unfold get, groupOf, resourceOf.
  destruct (crdNameToGroupResource name) as [group resource]. simpl.
  intros -> Hf. unfold bind. rewrite get_bindings_firstBound, Hf.
  destruct (crdLister c _) as [crd|e]; [reflexivity|].
  destruct (IsNotFound e); reflexivity.
Qed.

(** [Get] on the normal single-cluster path, past the system lookup. *)
Lemma Get_single_cluster c ctx cl accept name e0 st st1 :
  singleCluster ctx cl accept →
  getSystemCRD c cl name st = Done (Err e0) st1 →
  IsNotFound e0 = true →
  Get c ctx name st =
    bind (get c cl name) (Get_finish cl (isPartialMetadataHeader accept) name) st1.
Proof.
  intros (Hcl & Hw & Hid & Hacc) Hsys Hnf.
  unfold Get, ClusterNameFrom. rewrite Hcl.
  rewrite (bind_Done _ _ _ _ _ Hsys), Hnf. cbn [negb].
  rewrite (bind_Done _ _ _ _ _ (isPartialMetadataRequest_string _ _ _ Hacc)).
  unfold Get_resolve, IdentityFromContext. rewrite Hid. simpl.
  rewrite bool_decide_eq_false_2 by exact Hw. reflexivity.
Qed.

Lemma Get_finish_sameObject cl partialMetadataRequest name crd s :
  ∃ out s', Get_finish cl partialMetadataRequest name (Ok crd) s = Done (Ok out) s'
            ∧ sameObject out crd
            ∧ (partialMetadataRequest = false → out = crd ∧ s' = s)
            ∧ (∀ k, k ≠ annotationKeyPartialMetadata →
                 annotationsOf s' out !! k = annotationsOf s crd !! k).
Proof.
  destruct partialMetadataRequest.
  - rewrite Get_finish_projects. cbv zeta. eexists _, _. split; [reflexivity|].
    repeat apply conj.
    + case_bool_decide; reflexivity.
    + case_bool_decide; reflexivity.
    + discriminate.
    + intros k Hk. unfold annotationsOf at 1.
      replace (Annotations _) with (Some (fresh (dom (heap s))))
        by (case_bool_decide; reflexivity).
      simpl. rewrite lookup_insert_eq. simpl.
      rewrite lookup_insert_ne by congruence. reflexivity.
  - eexists _, _. split; [reflexivity|]. repeat apply conj; try reflexivity.
    intros _. split; reflexivity.
Qed.

Lemma decorate_spec in_ identity deleteTime s :
  ∃ out s',
    decorateCRDWithBinding in_ identity deleteTime s = Done out s'
    ∧ sameObject out in_
    ∧ Spec out = Spec in_
    ∧ UID out = UID in_
    ∧ Annotations out = Some (fresh (dom (heap s)))
    ∧ annotationsOf s' out =
        <[apisv1alpha1.AnnotationAPIIdentityKey := identity]> (annotationsOf s in_)
    ∧ heap s' = <[fresh (dom (heap s)) := annotationsOf s' out]> (heap s)
    ∧ klog s' = klog s ∧ now s' = now s.
Proof.
  destruct (metav1.IsZero deleteTime) eqn:Hz.
  - rewrite decorate_not_deleting by exact Hz. eexists _, _. split; [reflexivity|].
    unfold annotationsOf, sameObject. simpl. rewrite lookup_insert_eq.
    repeat apply conj; reflexivity.
  - rewrite decorate_deleting by exact Hz. eexists _, _. split; [reflexivity|].
    unfold annotationsOf, sameObject. simpl. rewrite lookup_insert_eq.
    repeat apply conj; reflexivity.
Qed.

(** ** The priority chain of [Get] *)

Lemma isPartialMetadataRequest_Done ctx s pm s' :
  isPartialMetadataRequest ctx s = Done pm s' → ∃ accept, acceptOf ctx accept.
Proof.
  unfold isPartialMetadataRequest, acceptOf.
  destruct (ctx_accept ctx) as [[accept|]|]; try discriminate.
  intros _. exists accept. reflexivity.
Qed.

(** A call of [Get] that gets past the system lookup returns only if the
    context carries its Accept header as a string. *)
Lemma Get_Done_accept c ctx cl name st sys st1 r st' :
  ctx_cluster ctx = Some cl →
  getSystemCRD c cl name st = Done sys st1 →
  (∀ e, sys = Err e → IsNotFound e = true) →
  Get c ctx name st = Done r st' →
  ∃ accept, acceptOf ctx accept.
Proof.
  intros Hcl Hsys Hnf. unfold Get, ClusterNameFrom. rewrite Hcl.
  rewrite (bind_Done _ _ _ _ _ Hsys).
  assert (Hb : ∀ B (f : bool → M B) (o : B) s2,
             bind (isPartialMetadataRequest ctx) f st1 = Done o s2 →
             ∃ accept, acceptOf ctx accept).
  { intros B f o s2. unfold bind.
    destruct (isPartialMetadataRequest ctx st1) as [pm s|] eqn:Hpm; [|discriminate].
    intros _. eapply isPartialMetadataRequest_Done, Hpm. }
  destruct sys as [crd|e]; [apply Hb|].
  rewrite (Hnf e eq_refl). apply Hb.
Qed.

(** C1. [Get] returns one result, and the source of a schema it returns
    follows system ≻ binding ≻ local.  Whatever the identity, the indexes
    and the rest of the store hold, a schema found by the system lookup is
    the one returned (projected for a partial-metadata request): every
    return of [Get] is that schema, and [Get] returns whenever the Accept
    header is a string.  The system lookup is a direct fetch for the
    wildcard cluster and is gated by [Keys] for any other cluster.  On the
    single-cluster path the shadow schema of the binding that declares the
    resource is returned, decorated with the binding's identity, whatever
    the workspace itself holds under the name. *)
Theorem Get_priority_chain c ctx name st cl :
  ctx_cluster ctx = Some cl →
  (∀ sys st1,
     getSystemCRD c cl name st = Done (Ok sys) st1 →
     (∀ r st', Get c ctx name st = Done r st' → ∃ out, r = Ok out ∧ sameObject out sys)
     ∧ (∀ accept, acceptOf ctx accept → ∃ out st', Get c ctx name st = Done (Ok out) st'))
  ∧ (cl = logicalcluster.Wildcard →
       getSystemCRD c cl name st = Done (crdLister c (systemKey name)) st)
  ∧ (cl ≠ logicalcluster.Wildcard →
     ∀ keys st1,
       Keys (systemProvider c) cl st = Done keys st1 →
       (systemKey name ∉ keys →
          getSystemCRD c cl name st = Done (Err (NewNotFound crdResource name)) st1)
       ∧ (systemKey name ∈ keys →
          getSystemCRD c cl name st = Done (crdLister c (systemKey name)) st1))
  ∧ (cl ≠ logicalcluster.Wildcard →
     ctx_identity ctx = "" →
     ∀ e0 st1 objs b r shadow,
       getSystemCRD c cl name st = Done (Err e0) st1 →
       IsNotFound e0 = true →
       apiBindingIndexer c byWorkspace (logicalcluster.String cl) = Ok objs →
       firstBound (groupOf name) (resourceOf name) objs = Some (b, r) →
       crdLister c (shadowKey (apisv1alpha1.UID (apisv1alpha1.Schema r))) = Ok shadow →
       (∀ res st', Get c ctx name st = Done res st' →
          ∃ out, res = Ok out
                 ∧ sameObject out shadow
                 ∧ annotationsOf st' out !! apisv1alpha1.AnnotationAPIIdentityKey
                   = Some (apisv1alpha1.IdentityHash (apisv1alpha1.Schema r)))
       ∧ (∀ accept, acceptOf ctx accept →
            ∃ out st', Get c ctx name st = Done (Ok out) st')).
Proof.
  intros Hcl.
  assert (Hsystem : ∀ sys st1 accept,
            getSystemCRD c cl name st = Done (Ok sys) st1 → acceptOf ctx accept →
            ∃ out st', Get c ctx name st = Done (Ok out) st' ∧ sameObject out sys).
  { intros sys st1 accept Hsys Hacc. unfold Get, ClusterNameFrom. rewrite Hcl.
    rewrite (bind_Done _ _ _ _ _ Hsys).
    rewrite (bind_Done _ _ _ _ _ (isPartialMetadataRequest_string _ _ _ Hacc)).
    destruct (Get_finish_sameObject cl (isPartialMetadataHeader accept) name sys st1)
      as (out & st' & HG & Hsame & _).
    exists out, st'. split; assumption. }
  assert (Hbound : ∀ accept e0 st1 objs b r shadow,
            cl ≠ logicalcluster.Wildcard → ctx_identity ctx = "" →
            acceptOf ctx accept →
            getSystemCRD c cl name st = Done (Err e0) st1 →
            IsNotFound e0 = true →
            apiBindingIndexer c byWorkspace (logicalcluster.String cl) = Ok objs →
            firstBound (groupOf name) (resourceOf name) objs = Some (b, r) →
            crdLister c (shadowKey (apisv1alpha1.UID (apisv1alpha1.Schema r))) = Ok shadow →
            ∃ out st',
              Get c ctx name st = Done (Ok out) st'
              ∧ sameObject out shadow
              ∧ annotationsOf st' out !! apisv1alpha1.AnnotationAPIIdentityKey
                = Some (apisv1alpha1.IdentityHash (apisv1alpha1.Schema r))).
  { intros accept e0 st1 objs b r shadow Hw Hid Hacc Hsys Hnf Hidx Hfirst Hshadow.
    rewrite (Get_single_cluster c ctx cl accept name e0 st st1
               (conj Hcl (conj Hw (conj Hid Hacc))) Hsys Hnf).
    unfold bind at 1. rewrite (get_bound c cl name objs b r st1 Hidx Hfirst), Hshadow.
    destruct (decorate_spec shadow (apisv1alpha1.IdentityHash (apisv1alpha1.Schema r))
                (apisv1alpha1.DeletionTimestamp b) st1)
      as (d & s2 & Hd & Hsame & _ & _ & _ & Hann & _).
    rewrite (bind_Done _ _ _ _ _ Hd). unfold ret.
    destruct (Get_finish_sameObject cl (isPartialMetadataHeader accept) name d s2)
      as (out & st' & HG & Hsame' & _ & Hkeep).
    exists out, st'. rewrite HG. split; [reflexivity|]. split.
    + destruct Hsame, Hsame'. split; congruence.
    + rewrite Hkeep by discriminate. rewrite Hann. apply lookup_insert_eq. }
  repeat apply conj.
  - intros sys st1 Hsys. split.
    + intros r st' HG.
      destruct (Get_Done_accept c ctx cl name st (Ok sys) st1 r st' Hcl Hsys
                  ltac:(discriminate) HG) as [accept Hacc].
      destruct (Hsystem sys st1 accept Hsys Hacc) as (out & st'' & HG' & Hsame).
      rewrite HG in HG'. injection HG' as -> _. exists out. split; [reflexivity | exact Hsame].
    + intros accept Hacc.
      destruct (Hsystem sys st1 accept Hsys Hacc) as (out & st' & HG & _). eauto.
  - intros ->. unfold getSystemCRD.
    rewrite bool_decide_eq_true_2 by reflexivity. reflexivity.
  - intros Hw keys st1 HK. unfold getSystemCRD.
    rewrite bool_decide_eq_false_2 by exact Hw.
    rewrite (bind_Done _ _ _ _ _ HK). unfold sets.Has. split; intros Hin.
    + rewrite bool_decide_eq_false_2 by exact Hin. reflexivity.
    + rewrite bool_decide_eq_true_2 by exact Hin. reflexivity.
  - intros Hw Hid e0 st1 objs b r shadow Hsys Hnf Hidx Hfirst Hshadow. split.
    + intros res st' HG.
      destruct (Get_Done_accept c ctx cl name st (Err e0) st1 res st' Hcl Hsys
                  ltac:(intros e [= <-]; exact Hnf) HG) as [accept Hacc].
      destruct (Hbound accept e0 st1 objs b r shadow Hw Hid Hacc Hsys Hnf Hidx
                  Hfirst Hshadow) as (out & st'' & HG' & Hsame & Hann).
      rewrite HG in HG'. injection HG' as -> ->. exists out.
      split; [reflexivity|]. split; assumption.
    + intros accept Hacc.
      destruct (Hbound accept e0 st1 objs b r shadow Hw Hid Hacc Hsys Hnf Hidx
                  Hfirst Hshadow) as (out & st' & HG & _). eauto.
Qed.

Lemma Get_priority_chain_witness :
  let workspaces := "clusterworkspaces.tenancy.kcp.dev" in
  let widgets := "widgets.example.io" in
  (∃ out st',
     Get Example.bound (Example.context "root:org:ws" "identity-1" "") workspaces
         Example.state = Done (Ok out) st'
     ∧ sameObject out Example.systemWorkspaces)
  ∧ getSystemCRD Example.bound logicalcluster.Wildcard workspaces Example.state
    = Done (crdLister Example.bound (systemKey workspaces)) Example.state
  ∧ getSystemCRD Example.bound Example.ws widgets Example.state
    = Done (Err (NewNotFound crdResource widgets)) Example.state
  ∧ getSystemCRD Example.bound Example.ws workspaces Example.state
    = Done (crdLister Example.bound (systemKey workspaces)) Example.state
  ∧ (∃ out st',
       Get Example.bound (Example.context "root:org:ws" "" "") widgets Example.state
         = Done (Ok out) st'
       ∧ sameObject out Example.shadowWidgets
       ∧ annotationsOf st' out !! apisv1alpha1.AnnotationAPIIdentityKey
         = Some "identity-1").
Proof.
  intros workspaces widgets.
  pose (keys := universalCRDs (Example.provider Example.crds)
                ∪ commonCRDs (Example.provider Example.crds)).
  repeat apply conj.
  - destruct (proj1 (Get_priority_chain Example.bound
                      (Example.context "root:org:ws" "identity-1" "") workspaces
                      Example.state Example.ws eq_refl)
                Example.systemWorkspaces Example.state
                ltac:(vm_compute; reflexivity)) as [Hsource Hreturns].
    destruct (Hreturns "" eq_refl) as (out & st' & HG).
    exists out, st'. split; [exact HG|].
    destruct (Hsource _ _ HG) as (out' & [= <-] & Hsame). exact Hsame.
  - apply (proj1 (proj2 (Get_priority_chain Example.bound
                    (Example.context "*" "" "") workspaces
                    Example.state logicalcluster.Wildcard eq_refl))).
    reflexivity.
  - apply (proj1 (proj1 (proj2 (proj2 (Get_priority_chain Example.bound
                    (Example.context "root:org:ws" "" "") widgets
                    Example.state Example.ws eq_refl)))
             ltac:(discriminate) keys Example.state eq_refl)).
    apply (bool_decide_eq_false_1 _). vm_compute. reflexivity.
  - apply (proj2 (proj1 (proj2 (proj2 (Get_priority_chain Example.bound
                    (Example.context "root:org:ws" "" "") workspaces
                    Example.state Example.ws eq_refl)))
             ltac:(discriminate) keys Example.state eq_refl)).
    apply (bool_decide_eq_true_1 _). vm_compute. reflexivity.
  - destruct (proj2 (proj2 (proj2 (Get_priority_chain Example.bound
                      (Example.context "root:org:ws" "" "") widgets
                      Example.state Example.ws eq_refl)))
                ltac:(discriminate) eq_refl
                (NewNotFound crdResource widgets) Example.state
                [Example.binding [Example.boundWidgets "schema-uid-widgets"] None]
                (Example.binding [Example.boundWidgets "schema-uid-widgets"] None)
                (Example.boundWidgets "schema-uid-widgets")
                Example.shadowWidgets
                ltac:(vm_compute; reflexivity) eq_refl ltac:(vm_compute; reflexivity)
                eq_refl ltac:(vm_compute; reflexivity)) as [Hsource Hreturns].
    destruct (Hreturns "" eq_refl) as (out & st' & HG).
    exists out, st'. split; [exact HG|].
    destruct (Hsource _ _ HG) as (out' & [= <-] & Hsame & Hann).
    split; assumption.
Defined.

(** C8. On the normal single-cluster path, for a name the system registry
    does not serve: when the walk over the completed bindings of the
    cluster stops at a bound resource of the requested group and resource
    whose shadow schema is not found, [Get] returns service-unavailable and
    leaves the state alone; when no completed binding declares the group
    and resource, [Get] returns the schema stored under the cluster and the
    name, or not-found when there is none. *)
Theorem Get_binding_unavailable_or_local c ctx cl accept name e0 objs st st1 :
  singleCluster ctx cl accept →
  getSystemCRD c cl name st = Done (Err e0) st1 →
  IsNotFound e0 = true →
  apiBindingIndexer c byWorkspace (logicalcluster.String cl) = Ok objs →
  (∀ b r e,
     firstBound (groupOf name) (resourceOf name) objs = Some (b, r) →
     crdLister c (shadowKey (apisv1alpha1.UID (apisv1alpha1.Schema r))) = Err e →
     IsNotFound e = true →
     ∃ e', Get c ctx name st = Done (Err e') st1 ∧ IsServiceUnavailable e' = true)
  ∧ (noBindingMatches (groupOf name) (resourceOf name) objs →
     (∀ local,
        crdLister c (clusters.ToClusterAwareKey cl name) = Ok local →
        ∃ out st', Get c ctx name st = Done (Ok out) st'
                   ∧ sameObject out local
                   ∧ (isPartialMetadataHeader accept = false → out = local ∧ st' = st1))
     ∧ (∀ e,
          crdLister c (clusters.ToClusterAwareKey cl name) = Err e →
          IsNotFound e = true →
          ∃ e', Get c ctx name st = Done (Err e') st1 ∧ IsNotFound e' = true)).
Proof.
  intros Hsc Hsys Hnf Hidx.
  rewrite (Get_single_cluster c ctx cl accept name e0 st st1 Hsc Hsys Hnf).
  split.
  - intros b r e Hfirst Hshadow He. unfold bind.
    rewrite (get_bound c cl name objs b r st1 Hidx Hfirst), Hshadow, He.
    eexists. split; reflexivity.
  - intros Hnone%firstBound_None. unfold bind.
    rewrite (get_unbound c cl name objs st1 Hidx Hnone). split.
    + intros local ->.
      destruct (Get_finish_sameObject cl (isPartialMetadataHeader accept) name local st1)
        as (out & st' & HG & Hsame & Hfull & _).
      exists out, st'. split; [exact HG|]. split; [exact Hsame | exact Hfull].
    + intros e -> ->. eexists. split; reflexivity.
Qed.

Lemma Get_binding_unavailable_or_local_witness :
  let widgets := "widgets.example.io" in
  let ctx := Example.context "root:org:ws" "" "" in
  (∃ e', Get Example.broken ctx widgets Example.state = Done (Err e') Example.state
         ∧ IsServiceUnavailable e' = true)
  ∧ (∃ out st', Get Example.unbound ctx widgets Example.state = Done (Ok out) st'
                ∧ sameObject out Example.localWidgets
                ∧ (isPartialMetadataHeader "" = false
                   → out = Example.localWidgets ∧ st' = Example.state))
  ∧ (∃ e', Get Example.unbound ctx "gadgets.example.io" Example.state
           = Done (Err e') Example.state
           ∧ IsNotFound e' = true).
Proof.
  intros widgets ctx.
  assert (Hsc : singleCluster ctx Example.ws "").
  { repeat apply conj; [reflexivity | discriminate | reflexivity | reflexivity]. }
  assert (Hnone : ∀ name, noBindingMatches (groupOf name) (resourceOf name) []).
  { intros name b r Hb. inversion Hb. }
  repeat apply conj.
  - apply (proj1 (Get_binding_unavailable_or_local Example.broken ctx Example.ws ""
                    widgets (NewNotFound crdResource widgets)
                    [Example.binding [Example.boundWidgets "schema-uid-widgets"] None]
                    Example.state Example.state Hsc
                    ltac:(vm_compute; reflexivity) eq_refl eq_refl)
             (Example.binding [Example.boundWidgets "schema-uid-widgets"] None)
             (Example.boundWidgets "schema-uid-widgets")
             (NewNotFound crdResource (shadowKey "schema-uid-widgets")));
      reflexivity.
  - apply (proj1 (proj2 (Get_binding_unavailable_or_local Example.unbound ctx Example.ws ""
                    widgets (NewNotFound crdResource widgets) []
                    Example.state Example.state Hsc
                    ltac:(vm_compute; reflexivity) eq_refl eq_refl) (Hnone widgets))).
    reflexivity.
  - apply (proj2 (proj2 (Get_binding_unavailable_or_local Example.unbound ctx Example.ws ""
                    "gadgets.example.io" (NewNotFound crdResource "gadgets.example.io") []
                    Example.state Example.state Hsc
                    ltac:(vm_compute; reflexivity) eq_refl eq_refl)
                    (Hnone "gadgets.example.io"))
             (NewNotFound crdResource
                (clusters.ToClusterAwareKey Example.ws "gadgets.example.io")));
      reflexivity.
Defined.

(** ** Refresh *)

Lemma annotationsOf_alloc s crd m klog' now' :
  allocated s crd →
  annotationsOf (mkState (<[fresh (dom (heap s)) := m]> (heap s)) klog' now') crd
  = annotationsOf s crd.
Proof.
  intros Hal. unfold annotationsOf. destruct (Annotations crd) as [l|] eqn:E;
    [|reflexivity].
  simpl. rewrite lookup_insert_ne; [reflexivity|].
  intros <-. apply (is_fresh (dom (heap s))), Hal. exact E.
Qed.

Lemma Refresh_eq c crd updated s :
  crdLister c (crdKeyOf crd) = Ok updated →
  allocated s crd →
  Refresh c crd s =
    let l := fresh (dom (heap s)) in
    let A := annotationsOf s crd in
    let copy := set_Annotations (Some l) updated in
    Done (Ok (match A !! annotationKeyPartialMetadata with
              | Some _ =>
                  let projected :=
                    set_Versions (map withMinimalSchema (Versions (Spec updated))) copy in
                  if strings.HasSuffix (UID crd) wildcardSuffix
                  then set_UID (UID crd) projected else projected
              | None => copy
              end))
         (mkState (<[l := refreshedAnnotations A (annotationsOf s updated)]> (heap s))
                  (klog s) (now s)).
Proof.
  intros Hget Hal. unfold Refresh. fold (crdKeyOf crd). rewrite Hget.
  rewrite (bind_Done _ _ _ _ _ (shallowCopy_eq updated s)).
  set (l := fresh (dom (heap s))).
  set (s1 := mkState _ _ _).
  assert (HA : readMap (Annotations crd) s1 = Done (annotationsOf s crd) s1).
  { unfold readMap. f_equal.
    change (annotationsOf s1 crd = annotationsOf s crd).
    apply annotationsOf_alloc. exact Hal. }
  rewrite (bind_Done _ _ _ _ _ HA). cbv zeta.
  unfold refreshedAnnotations.
  set (A := annotationsOf s crd).
  set (identity := default "" (A !! apisv1alpha1.AnnotationAPIIdentityKey)).
  destruct (negb (String.eqb identity "")).
  - unfold bind at 1. unfold writeMap. simpl.
    rewrite lookup_insert_eq, insert_insert_eq. simpl.
    destruct (A !! annotationKeyPartialMetadata).
    + unfold makePartialMetadataCRD, bind, writeMap, ret. simpl.
      rewrite lookup_insert_eq, insert_insert_eq. simpl.
      destruct (strings.HasSuffix (UID crd) _); reflexivity.
    + reflexivity.
  - rewrite bind_ret.
    destruct (A !! annotationKeyPartialMetadata).
    + unfold makePartialMetadataCRD, bind, writeMap, ret. simpl.
      rewrite lookup_insert_eq, insert_insert_eq. simpl.
      destruct (strings.HasSuffix (UID crd) _); reflexivity.
    + reflexivity.
Qed.

(** C9, as the code has it.  [Refresh] returns the error of the store when
    the fetch by owning workspace and name fails.  When it succeeds, the
    refreshed copy is the store copy with: the identity annotation of the
    argument when that is non-empty; the marker annotation and the minimal
    version schemas when the argument carries the marker; the UID of the
    argument when the argument carries the marker and its UID has the
    wildcard suffix, the UID of the store copy otherwise.  In particular
    refreshing a schema decorated with a non-empty identity gives a copy
    carrying that identity whatever the annotations of the store copy. *)
Theorem Refresh_preserves c crd st :
  allocated st crd →
  (∀ e, crdLister c (crdKeyOf crd) = Err e → Refresh c crd st = Done (Err e) st)
  ∧ (∀ updated,
       crdLister c (crdKeyOf crd) = Ok updated →
       ∃ out st',
         Refresh c crd st = Done (Ok out) st'
         ∧ sameObject out updated
         ∧ (∀ id, annotationsOf st crd !! apisv1alpha1.AnnotationAPIIdentityKey = Some id →
                  id ≠ "" →
                  annotationsOf st' out !! apisv1alpha1.AnnotationAPIIdentityKey = Some id)
         ∧ (is_Some (annotationsOf st crd !! annotationKeyPartialMetadata) →
              annotationsOf st' out !! annotationKeyPartialMetadata = Some ""
              ∧ Versions (Spec out) = map withMinimalSchema (Versions (Spec updated))
              ∧ (strings.HasSuffix (UID crd) wildcardSuffix = true → UID out = UID crd)
              ∧ (strings.HasSuffix (UID crd) wildcardSuffix = false →
                   UID out = UID updated))
         ∧ (annotationsOf st crd !! annotationKeyPartialMetadata = None →
              UID out = UID updated ∧ Spec out = Spec updated))
  ∧ (∀ S identity deleteTime st0 updated,
       decorateCRDWithBinding S identity deleteTime st0 = Done crd st →
       identity ≠ "" →
       crdLister c (crdKeyOf S) = Ok updated →
       ∃ out st',
         Refresh c crd st = Done (Ok out) st'
         ∧ annotationsOf st' out !! apisv1alpha1.AnnotationAPIIdentityKey = Some identity
         ∧ (is_Some (annotationsOf st0 S !! annotationKeyPartialMetadata) →
              annotationsOf st' out !! annotationKeyPartialMetadata = Some "")).
Proof.
  intros Hal.
  assert (Hok : ∀ updated,
       crdLister c (crdKeyOf crd) = Ok updated →
       ∃ out st',
         Refresh c crd st = Done (Ok out) st'
         ∧ sameObject out updated
         ∧ annotationsOf st' out
           = refreshedAnnotations (annotationsOf st crd) (annotationsOf st updated)
         ∧ (is_Some (annotationsOf st crd !! annotationKeyPartialMetadata) →
              Versions (Spec out) = map withMinimalSchema (Versions (Spec updated))
              ∧ (strings.HasSuffix (UID crd) wildcardSuffix = true → UID out = UID crd)
              ∧ (strings.HasSuffix (UID crd) wildcardSuffix = false →
                   UID out = UID updated))
         ∧ (annotationsOf st crd !! annotationKeyPartialMetadata = None →
              UID out = UID updated ∧ Spec out = Spec updated)).
  { intros updated Hget. rewrite (Refresh_eq c crd updated st Hget Hal). cbv zeta.
    eexists _, _. split; [reflexivity|].
    destruct (annotationsOf st crd !! annotationKeyPartialMetadata) as [v|] eqn:Hpm.
    - destruct (strings.HasSuffix (UID crd) wildcardSuffix) eqn:Hsuf;
        (repeat apply conj;
         [ reflexivity | reflexivity
         | unfold annotationsOf at 1; simpl; rewrite lookup_insert_eq; reflexivity
         | intros _; repeat apply conj; try reflexivity; try discriminate
         | discriminate ]).
    - repeat apply conj;
        [ reflexivity | reflexivity
        | unfold annotationsOf at 1; simpl; rewrite lookup_insert_eq; reflexivity
        | intros [? [=]]
        | intros _; split; reflexivity ]. }
  assert (Hid : ∀ A U id,
             A !! apisv1alpha1.AnnotationAPIIdentityKey = Some id → id ≠ "" →
             refreshedAnnotations A U !! apisv1alpha1.AnnotationAPIIdentityKey = Some id).
  { intros A U id HA Hne. unfold refreshedAnnotations. rewrite HA. simpl.
    apply String.eqb_neq in Hne. rewrite Hne. simpl.
    destruct (A !! annotationKeyPartialMetadata).
    - rewrite lookup_insert_ne by discriminate. apply lookup_insert_eq.
    - apply lookup_insert_eq. }
  assert (Hpm : ∀ A U, is_Some (A !! annotationKeyPartialMetadata) →
             refreshedAnnotations A U !! annotationKeyPartialMetadata = Some "").
  { intros A U [v HA]. unfold refreshedAnnotations. rewrite HA.
    apply lookup_insert_eq. }
  repeat apply conj.
  - intros e Hget. unfold Refresh. fold (crdKeyOf crd). rewrite Hget. reflexivity.
  - intros updated Hget.
    destruct (Hok updated Hget) as (out & st' & HR & Hsame & Hann & Hproj & Hplain).
    exists out, st'.
    split; [exact HR|]. split; [exact Hsame|]. split; [|split; [|exact Hplain]].
    + intros id HA Hne. rewrite Hann. apply Hid; assumption.
    + intros Hm. split; [rewrite Hann; apply Hpm; exact Hm | apply Hproj; exact Hm].
  - intros S identity deleteTime st0 updated Hdec Hne Hget.
    destruct (decorate_spec S identity deleteTime st0)
      as (d & s' & Hd & [HN HC] & _ & _ & _ & HA & _).
    rewrite Hdec in Hd. injection Hd as <- <-.
    assert (Hkey : crdKeyOf crd = crdKeyOf S).
    { unfold crdKeyOf, From. rewrite HN, HC. reflexivity. }
    rewrite <- Hkey in Hget.
    destruct (Hok updated Hget) as (out & st' & HR & _ & Hann & _).
    exists out, st'. split; [exact HR|]. rewrite Hann, HA. split.
    + apply Hid; [apply lookup_insert_eq | exact Hne].
    + intros Hm. apply Hpm. rewrite lookup_insert_ne by discriminate. exact Hm.
Qed.

Ltac allocated_here :=
  let E := fresh "E" in
  intros ? E; vm_compute in E; injection E as <-; vm_compute; reflexivity.

Lemma Refresh_preserves_witness :
  Refresh Example.broken Example.shadowWidgets Example.state
    = Done (Err (NewNotFound crdResource (crdKeyOf Example.shadowWidgets))) Example.state
  ∧ (∃ out st',
       Refresh Example.bound Example.served Example.servedState = Done (Ok out) st'
       ∧ sameObject out Example.shadowWidgets
       ∧ annotationsOf st' out !! apisv1alpha1.AnnotationAPIIdentityKey = Some "identity-1"
       ∧ annotationsOf st' out !! annotationKeyPartialMetadata = Some ""
       ∧ Versions (Spec out) = map withMinimalSchema (Versions Example.widgetsSpec)
       ∧ UID out = UID Example.served)
  ∧ (∃ out st',
       Refresh Example.bound Example.localWidgets Example.state = Done (Ok out) st'
       ∧ UID out = UID Example.localWidgets
       ∧ Spec out = Spec Example.localWidgets)
  ∧ (∃ out st',
       Refresh Example.bound (Example.decorated "identity-1" Example.state).1
               (Example.decorated "identity-1" Example.state).2 = Done (Ok out) st'
       ∧ annotationsOf st' out !! apisv1alpha1.AnnotationAPIIdentityKey
         = Some "identity-1").
Proof.
  repeat apply conj.
  - apply (proj1 (Refresh_preserves Example.broken Example.shadowWidgets Example.state
                    ltac:(allocated_here))).
    reflexivity.
  - destruct (proj1 (proj2 (Refresh_preserves Example.bound Example.served
                      Example.servedState
                      ltac:(allocated_here)))
                Example.shadowWidgets ltac:(vm_compute; reflexivity))
      as (out & st' & HR & Hsame & Hid & Hpm & _).
    exists out, st'. split; [exact HR|]. split; [exact Hsame|].
    split; [apply Hid; [reflexivity | discriminate]|].
    destruct (Hpm ltac:(eexists; reflexivity)) as (H1 & H2 & H3 & _).
    split; [exact H1|]. split; [exact H2|]. apply H3. reflexivity.
  - destruct (proj1 (proj2 (Refresh_preserves Example.bound Example.localWidgets
                      Example.state
                      ltac:(allocated_here)))
                Example.localWidgets ltac:(vm_compute; reflexivity))
      as (out & st' & HR & _ & _ & _ & Hplain).
    exists out, st'. split; [exact HR|]. apply Hplain. reflexivity.
  - destruct (proj2 (proj2 (Refresh_preserves Example.bound
                      (Example.decorated "identity-1" Example.state).1
                      (Example.decorated "identity-1" Example.state).2
                      ltac:(allocated_here)))
                Example.shadowWidgets "identity-1" None Example.state
                Example.shadowWidgets ltac:(vm_compute; reflexivity) ltac:(discriminate)
                ltac:(vm_compute; reflexivity))
      as (out & st' & HR & Hid & _).
    exists out, st'. split; [exact HR | exact Hid].
Defined.

(** C9 as stated fails in three ways.  A UID with the wildcard suffix is
    not kept when the argument does not carry the marker annotation; after
    a decoration with the empty identity the refreshed copy carries the
    identity annotation of the store copy; and when the store copy is gone
    [Refresh] returns the error of the store, whatever the argument
    carries. *)
Lemma Refresh_does_not_preserve :
  (let S := set_UID ("widgets.example.io" +:+ wildcardSuffix) Example.localWidgets in
   strings.HasSuffix (UID S) wildcardSuffix = true
   ∧ ∃ out st', Refresh Example.unbound S Example.state = Done (Ok out) st'
                ∧ UID out = "uid-local" ∧ UID out ≠ UID S)
  ∧ (let d := Example.decorated "" Example.staleState in
     annotationsOf d.2 d.1 !! apisv1alpha1.AnnotationAPIIdentityKey = Some ""
     ∧ ∃ out st', Refresh Example.bound d.1 d.2 = Done (Ok out) st'
                  ∧ annotationsOf st' out !! apisv1alpha1.AnnotationAPIIdentityKey
                    = Some "identity-0")
  ∧ (let d := Example.decorated "identity-1" Example.state in
     annotationsOf d.2 d.1 !! apisv1alpha1.AnnotationAPIIdentityKey = Some "identity-1"
     ∧ ∃ e, Refresh Example.broken d.1 d.2 = Done (Err e) d.2 ∧ IsNotFound e = true).
Proof.
  repeat apply conj.
  - reflexivity.
  - eexists _, _. split; [vm_compute; reflexivity|]. split; [reflexivity | discriminate].
  - reflexivity.
  - eexists _, _. split; [vm_compute; reflexivity|]. reflexivity.
  - reflexivity.
  - eexists. split; [vm_compute; reflexivity | reflexivity].
Qed.

(** ** The API reconciler *)

(** C2.  Removing the API-definition set of a vanished sync target only
    deletes the map entry: no [TearDown] is called, and the shutdown
    teardown no longer finds the definitions.  The definition created for
    the sync target [east] is held by the registry after the first work
    item; once the sync target is deleted and its key processed it is held
    no more, and after the controller stops it has been torn down zero
    times.  Had the sync target stayed, stopping would have torn it down
    once. *)
Theorem removed_set_is_never_torn_down :
  (∀ key r,
     apireconciler.tearDowns (apireconciler.removeAPIDefinitionSet key r)
     = apireconciler.tearDowns r
     ∧ apireconciler.apiSets (apireconciler.removeAPIDefinitionSet key r) !! key = None)
  ∧ (let r1 := apireconciler.processNextWorkItem
                 (ReconcilerExample.present, ReconcilerExample.key)
                 apireconciler.NewAPIReconciler in
     apireconciler.held r1 = [1%positive])
  ∧ (let r := apireconciler.Start ReconcilerExample.createdThenDeleted
                apireconciler.NewAPIReconciler in
     apireconciler.held r = []
     ∧ count_occ Pos.eq_dec (apireconciler.tearDowns r) 1%positive = 0)
  ∧ (let r := apireconciler.Start ReconcilerExample.createdOnly
                apireconciler.NewAPIReconciler in
     count_occ Pos.eq_dec (apireconciler.tearDowns r) 1%positive = 1).
Proof.
  split; [intros key r; split; [reflexivity | apply lookup_delete_eq]|].
  repeat apply conj; vm_compute; reflexivity.
Qed.

(** ** Computations on similar states *)

Lemma sim_refl L s : L ⊆ dom (heap s) → sim L s s.
Proof.
  intros H. split; [reflexivity|]. split; [exact H|].
  split; [intros; reflexivity | reflexivity].
Qed.

Lemma sim_heap s1 s2 : sim ∅ s1 s2 → heap s1 = heap s2.
Proof. intros (_ & _ & H & _). apply map_eq. intros l. apply H. set_solver. Qed.

Lemma sim_annotationsOf L s1 s2 crd :
  sim L s1 s2 → avoids L crd → annotationsOf s1 crd = annotationsOf s2 crd.
Proof.
  intros (_ & _ & H & _) Hav. unfold annotationsOf.
  destruct (Annotations crd) as [l|] eqn:E; [|reflexivity].
  rewrite (H l (Hav l E)). reflexivity.
Qed.

Lemma related_ret {A} L (P : A → Prop) a : P a → related L P (ret a) (ret a).
Proof.
  intros HP s1 s2 Hs. simpl. split; [reflexivity|]. split; [exact HP | exact Hs].
Qed.

Lemma related_bind {A B} L (P : A → Prop) (Q : B → Prop) m1 m2 f1 f2 :
  related L P m1 m2 →
  (∀ a, P a → related L Q (f1 a) (f2 a)) →
  related L Q (bind m1 f1) (bind m2 f2).
Proof.
  intros Hm Hf s1 s2 Hs. specialize (Hm s1 s2 Hs). unfold bind.
  destruct (m1 s1) as [a1 t1|], (m2 s2) as [a2 t2|]; try contradiction; [|exact I].
  destruct Hm as (<- & HP & Ht). apply Hf; assumption.
Qed.

Lemma related_weaken {A} L (P Q : A → Prop) m1 m2 :
  (∀ a, P a → Q a) → related L P m1 m2 → related L Q m1 m2.
Proof.
  intros HPQ Hm s1 s2 Hs. specialize (Hm s1 s2 Hs).
  destruct (m1 s1), (m2 s2); try exact Hm.
  destruct Hm as (? & ? & ?). split; [assumption|]. split; [auto | assumption].
Qed.

Lemma sim_log_l L e s1 s2 :
  sim L s1 s2 → sim L (mkState (heap s1) (klog s1 ++ [e]) (now s1)) s2.
Proof. intros H. exact H. Qed.

Lemma sim_log_r L e s1 s2 :
  sim L s1 s2 → sim L s1 (mkState (heap s2) (klog s2 ++ [e]) (now s2)).
Proof. intros H. exact H. Qed.

Lemma related_log L e1 e2 : related L (λ _, True) (log e1) (log e2).
Proof.
  intros s1 s2 Hs. simpl. split; [reflexivity|]. split; [exact I | exact Hs].
Qed.

(** A log entry on one side only does not matter. *)
Lemma related_log_l {A} L (P : A → Prop) e m1 m2 :
  related L P m1 m2 → related L P (bind (log e) (λ _, m1)) m2.
Proof.
  intros Hm s1 s2 Hs. unfold bind, log.
  apply (Hm (mkState (heap s1) (klog s1 ++ [e]) (now s1)) s2). exact Hs.
Qed.

Lemma related_panic {A} L (P : A → Prop) msg1 msg2 :
  related L P (panic msg1) (panic msg2).
Proof. intros s1 s2 _. exact I. Qed.

Lemma respects_shallowCopy L crd :
  avoids L crd → respects L (avoids L) (shallowCopyCRDAndDeepCopyAnnotations crd).
Proof.
  intros Hav s1 s2 Hs. rewrite !shallowCopy_eq.
  pose proof (sim_annotationsOf L s1 s2 crd Hs Hav) as HA.
  destruct Hs as (Hdom & HL & Hag & Hnow). rewrite <- Hdom, HA.
  split; [reflexivity|]. split.
  - intros l [= <-]. intros Hin. apply (is_fresh (dom (heap s1))), HL, Hin.
  - repeat split; simpl.
    + rewrite !dom_insert_L, Hdom. reflexivity.
    + rewrite dom_insert_L. intros x Hx. apply elem_of_union. right. apply HL, Hx.
    + intros l Hl. destruct (decide (l = fresh (dom (heap s1)))) as [->|Hne].
      * rewrite !lookup_insert_eq. reflexivity.
      * rewrite !lookup_insert_ne by congruence. apply Hag, Hl.
    + exact Hnow.
Qed.

Lemma respects_writeMap L a k v :
  (∀ l, a = Some l → l ∉ L) → respects L (λ _, True) (writeMap a k v).
Proof.
  intros Hav. destruct a as [l|]; [|apply related_panic].
  intros s1 s2 (Hdom & HL & Hag & Hnow). unfold writeMap.
  rewrite (Hag l (Hav l eq_refl)).
  repeat split; simpl.
  - rewrite !dom_insert_L, Hdom. reflexivity.
  - rewrite dom_insert_L. intros x Hx. apply elem_of_union. right. apply HL, Hx.
  - intros l' Hl'. destruct (decide (l' = l)) as [->|Hne].
    + rewrite !lookup_insert_eq. reflexivity.
    + rewrite !lookup_insert_ne by congruence. apply Hag, Hl'.
  - exact Hnow.
Qed.

Lemma respects_SetCRDCondition L crd newCondition :
  avoids L crd →
  respects L (avoids L) (apiextensionshelpers.SetCRDCondition crd newCondition).
Proof.
  intros Hav s1 s2 Hs. unfold apiextensionshelpers.SetCRDCondition, bind, time_Now.
  destruct Hs as (Hdom & HL & Hag & Hnow). rewrite <- Hnow.
  destruct (apiextensionshelpers.overwrite _ (Conditions crd));
    (split; [reflexivity|]; split; [exact Hav | repeat split; assumption]).
Qed.

Lemma respects_decorate L in_ identity deleteTime :
  avoids L in_ →
  respects L (avoids L) (decorateCRDWithBinding in_ identity deleteTime).
Proof.
  intros Hav. unfold decorateCRDWithBinding.
  eapply related_bind; [apply respects_shallowCopy, Hav|].
  intros out Hout.
  eapply related_bind; [apply respects_writeMap, Hout|].
  intros _ _. destruct (metav1.IsZero deleteTime).
  - apply related_ret, Hout.
  - apply respects_SetCRDCondition. exact Hout.
Qed.

Lemma respects_makePartialMetadataCRD L crd :
  avoids L crd → respects L (avoids L) (makePartialMetadataCRD crd).
Proof.
  intros Hav. unfold makePartialMetadataCRD.
  eapply related_bind; [apply respects_writeMap, Hav|].
  intros _ _. apply related_ret. exact Hav.
Qed.

(** ** List: failures of the binding pass *)

Lemma returns_List_boundResources c cl selector b rs acc :
  returns (List_boundResources c cl selector b rs acc).
Proof.
  revert acc. induction rs as [|r rs IH]; intros acc; simpl; [apply returns_ret|].
  pose proof (IH acc).
  repeat first [ apply IH | returns_step ].
Qed.

Lemma returns_List_bindings c cl selector objs acc :
  returns (List_bindings c cl selector objs acc).
Proof.
  revert acc. induction objs as [|b objs IH]; intros acc; simpl; [apply returns_ret|].
  case_match; [apply IH|].
  apply returns_bind; [apply returns_List_boundResources | intros acc'; apply IH].
Qed.

Lemma returns_List_local cl selector seen objs acc :
  returns (List_local cl selector seen objs acc).
Proof.
  revert acc. induction objs as [|crd objs IH]; intros acc; simpl; [apply returns_ret|].
  pose proof (IH acc).
  repeat first [ apply IH | returns_step ].
Qed.

(** The binding pass over a binding and over the same binding without its
    failing resources: same accumulator, similar states. *)
Lemma related_List_boundResources c cl selector b b' rs acc :
  apisv1alpha1.DeletionTimestamp b' = apisv1alpha1.DeletionTimestamp b →
  related ∅ (λ _, True)
    (List_boundResources c cl selector b rs acc)
    (List_boundResources (pruned c) cl selector b' (List.filter (fetches c) rs) acc).
Proof.
  intros Hdt. revert acc. induction rs as [|r rs IH]; intros acc; simpl.
  - apply related_ret. exact I.
  - unfold fetches at 1. fold (boundKey r).
    destruct (crdLister c (boundKey r)) as [crd|e] eqn:Hget.
    + simpl. fold (boundKey r). rewrite Hget, Hdt.
      destruct (negb (selector (Labels crd))); [apply IH|].
      destruct (sets.Has acc.2 (crdName crd)).
      * eapply related_bind; [apply related_log | intros _ _; apply IH].
      * eapply related_bind; [apply respects_decorate; intros l _; set_solver|].
        intros d _. apply IH.
    + apply related_log_l, IH.
Qed.

Lemma related_List_bindings c cl selector objs acc :
  related ∅ (λ _, True)
    (List_bindings c cl selector objs acc)
    (List_bindings (pruned c) cl selector (map (withoutFailing c) objs) acc).
Proof.
  revert acc. induction objs as [|b objs IH]; intros acc; simpl.
  - apply related_ret. exact I.
  - change (conditions.IsTrue (withoutFailing c b) apisv1alpha1.InitialBindingCompleted)
      with (conditions.IsTrue b apisv1alpha1.InitialBindingCompleted).
    destruct (negb (conditions.IsTrue b apisv1alpha1.InitialBindingCompleted));
      [apply IH|].
    eapply related_bind; [apply related_List_boundResources; reflexivity|].
    intros acc' _. apply IH.
Qed.

Lemma respects_List_local cl selector seen objs acc :
  respects ∅ (λ _, True) (List_local cl selector seen objs acc).
Proof.
  revert acc. induction objs as [|crd objs IH]; intros acc; simpl.
  - apply related_ret. exact I.
  - destruct (negb (selector (Labels crd))); [apply IH|].
    destruct (sets.Has seen (crdName crd)); [|apply IH].
    eapply related_bind; [apply related_log | intros _ _; apply IH].
Qed.

Lemma logExtends_refl s : logExtends s s.
Proof. exists []. symmetry. apply app_nil_r. Qed.

Lemma logExtends_trans s1 s2 s3 : logExtends s1 s2 → logExtends s2 s3 → logExtends s1 s3.
Proof.
  intros [m1 H1] [m2 H2]. exists (m1 ++ m2). rewrite H2, H1. symmetry. apply app_assoc.
Qed.

Lemma logExtends_elem s s' e : logExtends s s' → e ∈ klog s → e ∈ klog s'.
Proof. intros [m ->] H. apply elem_of_app. left. exact H. Qed.

Lemma List_boundResources_log c cl selector b rs acc s acc' s' :
  List_boundResources c cl selector b rs acc s = Done acc' s' →
  logExtends s s'
  ∧ ∀ r e, r ∈ rs → crdLister c (boundKey r) = Err e → fetchFailure r e ∈ klog s'.
Proof.
  revert acc s. induction rs as [|r rs IH]; intros acc s; simpl.
  - intros [= <- <-]. split; [apply logExtends_refl | intros r e Hr; inversion Hr].
  - fold (boundKey r). destruct (crdLister c (boundKey r)) as [crd|e] eqn:Hget.
    + assert (Hstep : ∀ acc0 s0, logExtends s s0 →
                List_boundResources c cl selector b rs acc0 s0 = Done acc' s' →
                logExtends s s'
                ∧ ∀ r0 e0, r0 ∈ r :: rs → crdLister c (boundKey r0) = Err e0 →
                           fetchFailure r0 e0 ∈ klog s').
      { intros acc0 s0 Hext Hrun. destruct (IH _ _ Hrun) as [Hext' Hlog].
        split; [eapply logExtends_trans; eassumption|].
        intros r0 e0 [->|Hr0]%elem_of_cons Hfail; [congruence | eauto]. }
      destruct (negb (selector (Labels crd))); [apply Hstep, logExtends_refl|].
      destruct (sets.Has acc.2 (crdName crd)).
      * unfold bind, log. apply Hstep. eexists. reflexivity.
      * unfold bind.
        destruct (decorate_spec crd
                    (apisv1alpha1.IdentityHash (apisv1alpha1.Schema r))
                    (apisv1alpha1.DeletionTimestamp b) s)
          as (d & s0 & -> & _ & _ & _ & _ & _ & _ & Hlog & _).
        apply Hstep. exists []. rewrite Hlog. symmetry. apply app_nil_r.
    + unfold bind, log. intros Hrun. destruct (IH _ _ Hrun) as [Hext Hlog].
      split; [eapply logExtends_trans; [|exact Hext]; eexists; reflexivity|].
      intros r0 e0 [->|Hr0]%elem_of_cons Hfail; [|eauto].
      apply (logExtends_elem _ _ _ Hext). simpl.
      rewrite Hget in Hfail. injection Hfail as <-.
      apply elem_of_app. right. left.
Qed.

Lemma List_bindings_log c cl selector objs acc s acc' s' :
  List_bindings c cl selector objs acc s = Done acc' s' →
  logExtends s s'
  ∧ ∀ b r e, b ∈ objs →
      conditions.IsTrue b apisv1alpha1.InitialBindingCompleted = true →
      r ∈ apisv1alpha1.BoundResources b →
      crdLister c (boundKey r) = Err e → fetchFailure r e ∈ klog s'.
Proof.
  revert acc s. induction objs as [|b objs IH]; intros acc s; simpl.
  - intros [= <- <-]. split; [apply logExtends_refl | intros b r e Hb; inversion Hb].
  - destruct (conditions.IsTrue b apisv1alpha1.InitialBindingCompleted) eqn:Hc; simpl.
    + unfold bind.
      destruct (List_boundResources c cl selector b (apisv1alpha1.BoundResources b) acc s)
        as [acc0 s0|] eqn:Hin; [|discriminate].
      intros Hrun. destruct (List_boundResources_log _ _ _ _ _ _ _ _ _ Hin) as [He0 Hl0].
      destruct (IH _ _ Hrun) as [Hext Hlog].
      split; [eapply logExtends_trans; eassumption|].
      intros b0 r e [->|Hb0]%elem_of_cons Hc0 Hr Hfail; [|eauto].
      apply (logExtends_elem _ _ _ Hext). eauto.
    + intros Hrun. destruct (IH _ _ Hrun) as [Hext Hlog]. split; [exact Hext|].
      intros b0 r e [->|Hb0]%elem_of_cons Hc0 Hr Hfail; [congruence | eauto].
Qed.

Lemma List_local_log cl selector seen objs acc s all s' :
  List_local cl selector seen objs acc s = Done all s' → logExtends s s'.
Proof.
  revert acc s. induction objs as [|crd objs IH]; intros acc s; simpl.
  - intros [= <- <-]. apply logExtends_refl.
  - destruct (negb (selector (Labels crd))); [apply IH|].
    destruct (sets.Has seen (crdName crd)); [|apply IH].
    unfold bind, log. intros Hrun. apply IH in Hrun.
    eapply logExtends_trans; [|exact Hrun]. eexists. reflexivity.
Qed.

Lemma decorate_keeps_fields in_ identity deleteTime s d s' :
  decorateCRDWithBinding in_ identity deleteTime s = Done d s' →
  Labels d = Labels in_ ∧ Spec d = Spec in_ ∧ Name d = Name in_
  ∧ ClusterName d = ClusterName in_ ∧ UID d = UID in_.
Proof.
  destruct (metav1.IsZero deleteTime) eqn:Hz.
  - rewrite decorate_not_deleting by exact Hz. intros [= <- <-].
    repeat split; reflexivity.
  - rewrite decorate_deleting by exact Hz. intros [= <- <-].
    repeat split; reflexivity.
Qed.

Lemma seen_of_system sys n :
  n ∈ foldl (λ seen crd, sets.Insert seen (crdName crd)) (sets.NewString []) sys
  ↔ n ∈ names sys.
Proof.
  assert (H : ∀ seen0,
            n ∈ foldl (λ seen crd, sets.Insert seen (crdName crd)) seen0 sys
            ↔ n ∈ seen0 ∨ n ∈ names sys).
  { induction sys as [|crd sys IH]; intros seen0; simpl.
    - split; [left; assumption | intros [?|H]; [assumption | inversion H]].
    - rewrite IH. unfold sets.Insert. rewrite elem_of_union, elem_of_singleton.
      unfold names. simpl. rewrite elem_of_cons. tauto. }
  rewrite H. unfold sets.NewString. simpl. rewrite elem_of_empty. tauto.
Qed.

Lemma List_local_filter cl selector seen objs acc s all s' :
  List_local cl selector seen objs acc s = Done all s' →
  all = acc ++ List.filter (λ crd, selector (Labels crd)
                                   && negb (sets.Has seen (crdName crd))) objs.
Proof.
  revert acc s. induction objs as [|crd objs IH]; intros acc s; simpl.
  - intros [= <- <-]. rewrite app_nil_r. reflexivity.
  - destruct (selector (Labels crd)) eqn:Hsel; simpl; [|apply IH].
    destruct (sets.Has seen (crdName crd)) eqn:Hseen; simpl.
    + unfold bind, log. apply IH.
    + intros Hrun. rewrite (IH _ _ Hrun), <- app_assoc. reflexivity.
Qed.

Lemma List_boundResources_served c cl selector b rs acc s acc' s' :
  List_boundResources c cl selector b rs acc s = Done acc' s' →
  ∃ more,
    acc'.1 = acc.1 ++ more
    ∧ (∀ n, n ∈ acc'.2 ↔ n ∈ acc.2 ∨ n ∈ names more)
    ∧ (∀ r shadow,
         r ∈ rs → crdLister c (boundKey r) = Ok shadow →
         selector (Labels shadow) = true → crdName shadow ∈ acc'.2)
    ∧ (∀ out, out ∈ more →
         ∃ r shadow,
           r ∈ rs ∧ crdLister c (boundKey r) = Ok shadow
           ∧ selector (Labels shadow) = true ∧ decoratedCopy out shadow).
Proof.
  revert acc s. induction rs as [|r rs IH]; intros acc s; simpl.
  - intros [= <- <-]. exists []. rewrite app_nil_r. repeat apply conj.
    + reflexivity.
    + intros n. unfold names. simpl. rewrite elem_of_nil. tauto.
    + intros r shadow Hr. apply elem_of_nil in Hr. contradiction.
    + intros out Hout. apply elem_of_nil in Hout. contradiction.
  - assert (Hskip : ∀ s0,
              (∀ shadow, crdLister c (boundKey r) = Ok shadow →
                         selector (Labels shadow) = true → crdName shadow ∈ acc.2) →
              List_boundResources c cl selector b rs acc s0 = Done acc' s' →
              ∃ more,
                acc'.1 = acc.1 ++ more
                ∧ (∀ n, n ∈ acc'.2 ↔ n ∈ acc.2 ∨ n ∈ names more)
                ∧ (∀ r0 shadow,
                     r0 ∈ r :: rs → crdLister c (boundKey r0) = Ok shadow →
                     selector (Labels shadow) = true → crdName shadow ∈ acc'.2)
                ∧ (∀ out, out ∈ more →
                     ∃ r0 shadow,
                       r0 ∈ r :: rs ∧ crdLister c (boundKey r0) = Ok shadow
                       ∧ selector (Labels shadow) = true ∧ decoratedCopy out shadow)).
    { intros s0 Hhere Hrun.
      destruct (IH _ _ Hrun) as (more & Hret & Hseen & Hall & Hmore).
      exists more. split; [exact Hret|]. split; [exact Hseen|]. split.
      - intros r0 shadow [->|Hr0]%elem_of_cons Hf Hsel; [|eauto].
        apply Hseen. left. eauto.
      - intros out Hout. destruct (Hmore out Hout) as (r0 & shadow & Hr0 & Hrest).
        exists r0, shadow. split; [right; exact Hr0 | exact Hrest]. }
    unfold boundKey in Hskip.
    destruct (crdLister c (shadowKey _)) as [crd|e] eqn:Hfetch.
    + destruct (selector (Labels crd)) eqn:Hsel; simpl.
      2:{ apply Hskip. intros shadow [= <-] Hs. congruence. }
      destruct (sets.Has acc.2 (crdName crd)) eqn:Hhas.
      * unfold bind, log. apply Hskip. intros shadow [= <-] _.
        apply bool_decide_eq_true in Hhas. exact Hhas.
      * unfold bind.
        destruct (decorateCRDWithBinding crd _ _ s) as [d s0|] eqn:Hd; [|discriminate].
        intros Hrun.
        destruct (IH _ _ Hrun) as (more & Hret & Hseen & Hall & Hmore).
        destruct (decorate_keeps_fields _ _ _ _ _ _ Hd) as (HL & HS & HN & HC & HU).
        assert (Hn : crdName d = crdName crd) by (unfold crdName; rewrite HS; reflexivity).
        simpl in Hret, Hseen.
        exists (d :: more). repeat apply conj.
        -- rewrite Hret, <- app_assoc. reflexivity.
        -- intros n. rewrite Hseen. unfold sets.Insert, names. simpl.
           rewrite elem_of_union, elem_of_singleton, elem_of_cons. tauto.
        -- intros r0 shadow [->|Hr0]%elem_of_cons Hf Hs; [|eauto].
           unfold boundKey in Hf. rewrite Hfetch in Hf. injection Hf as <-.
           apply Hseen. left. unfold sets.Insert.
           rewrite elem_of_union, elem_of_singleton. right. symmetry. exact Hn.
        -- intros out [->|Hout]%elem_of_cons.
           ++ exists r, crd. split; [left|]. split; [exact Hfetch|].
              split; [exact Hsel|]. repeat apply conj; assumption.
           ++ destruct (Hmore out Hout) as (r0 & shadow & Hr0 & Hrest).
              exists r0, shadow. split; [right; exact Hr0 | exact Hrest].
    + unfold bind, log. apply Hskip. intros shadow [=].
Qed.

Lemma List_bindings_served c cl selector objs acc s acc' s' :
  List_bindings c cl selector objs acc s = Done acc' s' →
  ∃ more,
    acc'.1 = acc.1 ++ more
    ∧ (∀ n, n ∈ acc'.2 ↔ n ∈ acc.2 ∨ n ∈ names more)
    ∧ (∀ b r shadow,
         b ∈ objs →
         conditions.IsTrue b apisv1alpha1.InitialBindingCompleted = true →
         r ∈ apisv1alpha1.BoundResources b →
         crdLister c (boundKey r) = Ok shadow →
         selector (Labels shadow) = true → crdName shadow ∈ acc'.2)
    ∧ (∀ out, out ∈ more →
         ∃ b r shadow,
           b ∈ objs
           ∧ conditions.IsTrue b apisv1alpha1.InitialBindingCompleted = true
           ∧ r ∈ apisv1alpha1.BoundResources b
           ∧ crdLister c (boundKey r) = Ok shadow
           ∧ selector (Labels shadow) = true ∧ decoratedCopy out shadow).
Proof.
  revert acc s. induction objs as [|b objs IH]; intros acc s; simpl.
  - intros [= <- <-]. exists []. rewrite app_nil_r. repeat apply conj.
    + reflexivity.
    + intros n. unfold names. simpl. rewrite elem_of_nil. tauto.
    + intros b r shadow Hb. apply elem_of_nil in Hb. contradiction.
    + intros out Hout. apply elem_of_nil in Hout. contradiction.
  - destruct (conditions.IsTrue b apisv1alpha1.InitialBindingCompleted) eqn:Hc; simpl.
    + unfold bind.
      destruct (List_boundResources c cl selector b _ acc s) as [acc0 s0|] eqn:Hin;
        [|discriminate].
      intros Hrun.
      destruct (List_boundResources_served _ _ _ _ _ _ _ _ _ Hin)
        as (more0 & Hret0 & Hseen0 & Hall0 & Hmore0).
      destruct (IH _ _ Hrun) as (more & Hret & Hseen & Hall & Hmore).
      exists (more0 ++ more). repeat apply conj.
      * rewrite Hret, Hret0, <- app_assoc. reflexivity.
      * intros n. rewrite Hseen, Hseen0. unfold names. rewrite map_app, elem_of_app.
        tauto.
      * intros b0 r shadow [->|Hb0]%elem_of_cons Hc0 Hr Hf Hs; [|eauto].
        apply Hseen. left. eauto.
      * intros out [Hout|Hout]%elem_of_app.
        -- destruct (Hmore0 out Hout) as (r & shadow & Hr & Hf & Hs & Hcopy).
           exists b, r, shadow. split; [left|]. split; [exact Hc|].
           split; [exact Hr|]. split; [exact Hf|]. split; [exact Hs | exact Hcopy].
        -- destruct (Hmore out Hout) as (b0 & r & shadow & Hb0 & Hrest).
           exists b0, r, shadow. split; [right; exact Hb0 | exact Hrest].
    + intros Hrun. destruct (IH _ _ Hrun) as (more & Hret & Hseen & Hall & Hmore).
      exists more. split; [exact Hret|]. split; [exact Hseen|]. split.
      * intros b0 r shadow [->|Hb0]%elem_of_cons Hc0 Hr Hf Hs; [congruence | eauto].
      * intros out Hout. destruct (Hmore out Hout) as (b0 & r & shadow & Hb0 & Hrest).
        exists b0, r, shadow. split; [right; exact Hb0 | exact Hrest].
Qed.

(** C7. In [List], an error of the system-registry pass or of the lookup of
    the workspace's own CRDs fails the call.  A bound schema that cannot be
    fetched never does: when the system pass and the two index lookups
    succeed [List] returns a list, the same list (over the same heap) as
    when the bindings did not declare the failing resources at all, and
    the log holds an entry for every failed fetch of a completed
    binding.  The list is the system CRDs, then decorated copies of bound
    schemas that were fetched and match the selector, then every CRD of
    the workspace itself that matches the selector and whose name no
    schema before it bears; every bound schema of a completed binding that
    can be fetched and matches the selector is served by name. *)
Theorem List_skips_failing_bindings c ctx selector st cl :
  ctx_cluster ctx = Some cl →
  (∀ e st1,
     systemCRDProvider_List (systemProvider c) cl st = Done (Err e) st1 →
     ∃ e', List c ctx selector st = Done (Err e') st1)
  ∧ (∀ sys st1 objs e,
       systemCRDProvider_List (systemProvider c) cl st = Done (Ok sys) st1 →
       apiBindingIndexer c byWorkspace (logicalcluster.String cl) = Ok objs →
       crdIndexer c byWorkspace (logicalcluster.String cl) = Err e →
       ∃ st', List c ctx selector st = Done (Err e) st')
  ∧ (∀ sys st1 objs locals,
       systemCRDProvider_List (systemProvider c) cl st = Done (Ok sys) st1 →
       apiBindingIndexer c byWorkspace (logicalcluster.String cl) = Ok objs →
       crdIndexer c byWorkspace (logicalcluster.String cl) = Ok locals →
       ∃ all st' st'',
         List c ctx selector st = Done (Ok all) st'
         ∧ List (pruned c) ctx selector st = Done (Ok all) st''
         ∧ heap st'' = heap st'
         ∧ (∀ b r e,
              b ∈ objs →
              conditions.IsTrue b apisv1alpha1.InitialBindingCompleted = true →
              r ∈ apisv1alpha1.BoundResources b →
              crdLister c (boundKey r) = Err e →
              fetchFailure r e ∈ klog st')
         ∧ ∃ bound,
             all = sys ++ bound
                   ++ List.filter (unshadowed selector (sys ++ bound)) locals
             ∧ (∀ b r shadow,
                  b ∈ objs →
                  conditions.IsTrue b apisv1alpha1.InitialBindingCompleted = true →
                  r ∈ apisv1alpha1.BoundResources b →
                  crdLister c (boundKey r) = Ok shadow →
                  selector (Labels shadow) = true →
                  crdName shadow ∈ names (sys ++ bound))
             ∧ (∀ out, out ∈ bound →
                  ∃ b r shadow,
                    b ∈ objs
                    ∧ conditions.IsTrue b apisv1alpha1.InitialBindingCompleted = true
                    ∧ r ∈ apisv1alpha1.BoundResources b
                    ∧ crdLister c (boundKey r) = Ok shadow
                    ∧ selector (Labels shadow) = true
                    ∧ decoratedCopy out shadow)).
Proof.
  intros Hcl. repeat apply conj.
  - intros e st1 Hsys. unfold List, ClusterNameFrom. rewrite Hcl.
    rewrite (bind_Done _ _ _ _ _ Hsys). eexists. reflexivity.
  - intros sys st1 objs e Hsys Hb Hl. unfold List, ClusterNameFrom. rewrite Hcl.
    rewrite (bind_Done _ _ _ _ _ Hsys), Hb.
    set (seen := foldl _ _ sys).
    destruct (returns_List_bindings c cl selector objs (sys, seen) st1)
      as (acc & s2 & Hrun).
    rewrite (bind_Done _ _ _ _ _ Hrun), Hl. eexists. reflexivity.
  - intros sys st1 objs locals Hsys Hb Hl.
    unfold List, ClusterNameFrom. rewrite Hcl. simpl.
    rewrite !(bind_Done _ _ _ _ _ Hsys), Hb.
    set (seen := foldl _ _ sys).
    destruct (returns_List_bindings c cl selector objs (sys, seen) st1)
      as (acc & s2 & Hrun).
    pose proof (related_List_bindings c cl selector objs (sys, seen) st1 st1
                  (sim_refl ∅ st1 (empty_subseteq _))) as Hrel.
    rewrite Hrun in Hrel.
    destruct (List_bindings (pruned c) cl selector _ (sys, seen) st1)
      as [acc2 s2'|] eqn:Hrun2; [|contradiction].
    destruct Hrel as (<- & _ & Hs2).
    rewrite (bind_Done _ _ _ _ _ Hrun), Hl.
    destruct (returns_List_local cl selector acc.2 locals acc.1 s2)
      as (all & st' & Hloc).
    pose proof (respects_List_local cl selector acc.2 locals acc.1 s2 s2' Hs2) as Hrel.
    rewrite Hloc in Hrel.
    destruct (List_local cl selector acc.2 locals acc.1 s2')
      as [all2 st''|] eqn:Hloc2; [|contradiction].
    destruct Hrel as (<- & _ & Hs3).
    rewrite (bind_Done _ _ _ _ _ Hloc).
    exists all, st', st''. split; [reflexivity|]. split.
    { rewrite (bind_Done _ _ _ _ _ Hrun2), (bind_Done _ _ _ _ _ Hloc2). reflexivity. }
    split; [symmetry; apply sim_heap, Hs3|].
    split.
    { intros b r e Hin Hc Hr Hfail.
      destruct (List_bindings_log _ _ _ _ _ _ _ _ Hrun) as [_ Hlog].
      apply (logExtends_elem s2 st'); [eapply List_local_log; exact Hloc|].
      eapply Hlog; eassumption. }
    destruct (List_bindings_served _ _ _ _ _ _ _ _ Hrun)
      as (bound & Hret & Hseen & Hall & Hbound).
    simpl in Hret, Hseen.
    assert (Hnames : ∀ n, n ∈ acc.2 ↔ n ∈ names (sys ++ bound)).
    { intros n. rewrite Hseen. unfold seen. rewrite seen_of_system.
      unfold names. rewrite map_app, elem_of_app. reflexivity. }
    exists bound. split; [|split].
    + rewrite (List_local_filter _ _ _ _ _ _ _ _ Hloc), Hret, <- app_assoc.
      do 2 f_equal. apply filter_ext. intros crd. unfold unshadowed, sets.Has.
      do 2 f_equal. apply bool_decide_ext, Hnames.
    + intros b r shadow Hin Hc Hr Hf Hs. apply Hnames. eauto.
    + exact Hbound.
Qed.

Lemma List_skips_failing_bindings_witness :
  (∃ e' st1, List (Example.lister [] []) (Example.context "root:org:ws" "" "")
                  Example.everything Example.state = Done (Err e') st1)
  ∧ (∃ st', List Example.noLocalIndex (Example.context "root:home" "" "")
                 Example.everything Example.state
            = Done (Err (OtherError "Index with name does not exist")) st')
  ∧ (∃ all st' st'',
       List Example.homeLister (Example.context "root:home" "" "")
            Example.everything Example.state = Done (Ok all) st'
       ∧ List (pruned Example.homeLister) (Example.context "root:home" "" "")
              Example.everything Example.state = Done (Ok all) st''
       ∧ heap st'' = heap st'
       ∧ fetchFailure (Example.boundWidgets "schema-uid-lost")
           (NewNotFound crdResource (shadowKey "schema-uid-lost")) ∈ klog st')
  ∧ (∃ out st',
       List MoreExamples.homeWithGadgets (Example.context "root:home" "" "")
            Example.everything Example.state
       = Done (Ok [out; MoreExamples.localGadgets]) st'
       ∧ decoratedCopy out Example.shadowWidgets
       ∧ fetchFailure (Example.boundWidgets "schema-uid-lost")
           (NewNotFound crdResource (shadowKey "schema-uid-lost")) ∈ klog st').
Proof.
  split; [|split; [|split]].
  - destruct (proj1 (List_skips_failing_bindings (Example.lister [] [])
                      (Example.context "root:org:ws" "" "") Example.everything
                      Example.state Example.ws eq_refl)
                (Errorf_w "error getting system CRD %q: %w"
                   (NewNotFound crdResource
                      (systemKey "apibindings.apis.kcp.dev")))
                (mkState (heap Example.state)
                   [klog_Errorf "Failed to get CRD %s for %s: %v"
                      [ArgString (systemKey "apibindings.apis.kcp.dev");
                       ArgString "root:org:ws";
                       ArgError (NewNotFound crdResource
                                   (systemKey "apibindings.apis.kcp.dev"))]]
                   (now Example.state))
                ltac:(vm_compute; reflexivity)) as [e' He'].
    exists e'. eexists. exact He'.
  - apply (proj1 (proj2 (List_skips_failing_bindings Example.noLocalIndex
                    (Example.context "root:home" "" "") Example.everything
                    Example.state Example.home eq_refl))
             [] Example.state [Example.homeBinding]).
    + vm_compute. reflexivity.
    + reflexivity.
    + reflexivity.
  - destruct (proj2 (proj2 (List_skips_failing_bindings Example.homeLister
                      (Example.context "root:home" "" "") Example.everything
                      Example.state Example.home eq_refl))
                [] Example.state [Example.homeBinding]
                [Example.divergingWidgets]
                ltac:(vm_compute; reflexivity) eq_refl eq_refl)
      as (all & st' & st'' & H1 & H2 & H3 & Hlog & _).
    exists all, st', st''. repeat (split; [assumption|]).
    apply (Hlog Example.homeBinding).
    + left.
    + reflexivity.
    + left.
    + reflexivity.
  - destruct (proj2 (proj2 (List_skips_failing_bindings MoreExamples.homeWithGadgets
                      (Example.context "root:home" "" "") Example.everything
                      Example.state Example.home eq_refl))
                [] Example.state [Example.homeBinding]
                [Example.divergingWidgets; MoreExamples.localGadgets]
                ltac:(vm_compute; reflexivity) eq_refl eq_refl)
      as (all & st' & st'' & H1 & _ & _ & Hlog & _).
    assert (Hall : ∃ out, all = [out; MoreExamples.localGadgets]
                          ∧ decoratedCopy out Example.shadowWidgets).
    { vm_compute in H1. injection H1 as <- _. eexists. split; [reflexivity|].
      repeat apply conj; reflexivity. }
    destruct Hall as (out & -> & Hcopy).
    exists out, st'. split; [exact H1|]. split; [exact Hcopy|].
    apply (Hlog Example.homeBinding).
    + left.
    + reflexivity.
    + left.
    + reflexivity.
Defined.

(** ** Get on similar states *)

Lemma avoids_cached L c crd : cacheAvoids L c → cached c crd → avoids L crd.
Proof. intros H. apply H. Qed.

Lemma resultAvoids_lister L c key :
  cacheAvoids L c → resultAvoids L (crdLister c key).
Proof. intros Hc crd Hget. apply Hc. left. exists key. exact Hget. Qed.

Lemma resultAvoids_Err L e : resultAvoids L (Err e).
Proof. intros crd [=]. Qed.

Lemma resultAvoids_Ok L crd : avoids L crd → resultAvoids L (Ok crd).
Proof. intros H crd' [= <-]. exact H. Qed.

Lemma respects_Keys L p cl : respects L (λ _, True) (Keys p cl).
Proof.
  unfold respects, Keys.
  repeat first [ apply related_ret; exact I
               | eapply related_bind; [first [apply related_log | apply related_ret; exact I]
                                      | intros ? ?]
               | case_match ].
Qed.

Lemma respects_getSystemCRD L c cl name :
  cacheAvoids L c → respects L (resultAvoids L) (getSystemCRD c cl name).
Proof.
  intros Hc. unfold respects, getSystemCRD. case_match.
  - apply related_ret, resultAvoids_lister, Hc.
  - eapply related_bind; [apply respects_Keys|]. intros keys _. case_match.
    + apply related_ret, resultAvoids_Err.
    + apply related_ret, resultAvoids_lister, Hc.
Qed.

Lemma respects_decorated L c key crd identity deleteTime :
  cacheAvoids L c → crdLister c key = Ok crd →
  respects L (resultAvoids L)
    (do crd <- decorateCRDWithBinding crd identity deleteTime; ret (Ok crd)).
Proof.
  intros Hc Hget.
  eapply related_bind; [apply respects_decorate, Hc; left; exists key; exact Hget|].
  intros d Hd. apply related_ret, resultAvoids_Ok, Hd.
Qed.

Lemma respects_getForIdentity L c name identity :
  cacheAvoids L c → respects L (resultAvoids L) (getForIdentity c name identity).
Proof.
  intros Hc. unfold respects, getForIdentity.
  repeat case_match;
    first [ apply related_ret, resultAvoids_Err
          | eapply respects_decorated; eassumption ].
Qed.

Lemma respects_get_boundResources L c name group resource b rs :
  cacheAvoids L c →
  respects L (optionAvoids L) (get_boundResources c name group resource b rs).
Proof.
  intros Hc. induction rs as [|r rs IH]; simpl.
  - apply related_ret. intros r [=].
  - case_match; [|exact IH].
    destruct (crdLister c _) as [crd|e] eqn:Hget.
    + eapply related_bind;
        [apply respects_decorate, Hc; left; eexists; exact Hget|].
      intros d Hd. apply related_ret. intros r0 [= <-]. apply resultAvoids_Ok, Hd.
    + case_match; apply related_ret; intros r0 [= <-]; apply resultAvoids_Err.
Qed.

Lemma respects_get_bindings L c name group resource objs :
  cacheAvoids L c →
  respects L (optionAvoids L) (get_bindings c name group resource objs).
Proof.
  intros Hc. induction objs as [|b objs IH]; simpl.
  - apply related_ret. intros r [=].
  - case_match; [exact IH|].
    eapply related_bind; [apply respects_get_boundResources, Hc|].
    intros [r|] Hr; [|exact IH].
    apply related_ret. exact Hr.
Qed.

Lemma respects_get L c cl name :
  cacheAvoids L c → respects L (resultAvoids L) (get c cl name).
Proof.
  intros Hc. unfold respects, get.
  destruct (crdNameToGroupResource name) as [group resource].
  case_match; [|apply related_ret, resultAvoids_Err].
  eapply related_bind; [apply respects_get_bindings, Hc|].
  intros [r|] Hr.
  - apply related_ret, Hr. reflexivity.
  - destruct (crdLister c _) as [crd|e] eqn:Hget.
    + apply related_ret, resultAvoids_Ok, Hc. left. eexists. exact Hget.
    + case_match; apply related_ret, resultAvoids_Err.
Qed.

Lemma fullDataWildcard_loop_elem found objs r :
  fullDataWildcard_loop found objs = Ok (Some r) →
  found = Some r ∨ r ∈ objs.
Proof.
  revert found. induction objs as [|crd objs IH]; intros found; simpl.
  - intros [= ->]. left. reflexivity.
  - destruct found as [f|].
    + destruct (negb _); [discriminate|]. intros Hl.
      destruct (IH _ Hl) as [?|?]; [left; assumption | right; right; assumption].
    + intros Hl. destruct (IH _ Hl) as [[= ->]|?]; right; [left | right; assumption].
Qed.

Lemma resultAvoids_wildcard L c name :
  cacheAvoids L c →
  resultAvoids L (getForFullDataWildcard c name)
  ∧ resultAvoids L (getForWildcardPartialMetadata c name).
Proof.
  intros Hc. split; intros crd;
    unfold getForFullDataWildcard, getForWildcardPartialMetadata;
    destruct (crdIndexer c byGroupResourceName name) as [objs|e] eqn:Hidx;
    try discriminate.
  - destruct (fullDataWildcard_loop None objs) as [[f|]|e] eqn:Hloop; try discriminate.
    intros [= <-]. apply fullDataWildcard_loop_elem in Hloop as [[=]|Hin].
    apply Hc. right. eexists _, _, _. split; [exact Hidx | exact Hin].
  - destruct objs as [|f objs]; [discriminate|]. intros [= <-].
    apply Hc. right. eexists _, _, _. split; [exact Hidx | left].
Qed.

Lemma respects_Get_resolve L c ctx cl partialMetadataRequest name :
  cacheAvoids L c →
  respects L (resultAvoids L) (Get_resolve c ctx cl partialMetadataRequest name).
Proof.
  intros Hc. unfold respects, Get_resolve.
  destruct (resultAvoids_wildcard L c name Hc) as [Hfull Hpm].
  repeat case_match;
    first [ apply related_ret; assumption
          | apply respects_getForIdentity, Hc
          | apply respects_get, Hc ].
Qed.

Lemma avoids_set_UID L u crd : avoids L crd → avoids L (set_UID u crd).
Proof. intros H. exact H. Qed.

Lemma respects_Get_finish L cl partialMetadataRequest name r :
  resultAvoids L r →
  respects L (resultAvoids L) (Get_finish cl partialMetadataRequest name r).
Proof.
  intros Hr. unfold respects, Get_finish.
  destruct r as [crd|e]; [|apply related_ret, resultAvoids_Err].
  destruct partialMetadataRequest; [|apply related_ret, Hr].
  eapply related_bind; [apply respects_shallowCopy, Hr; reflexivity|].
  intros copy Hcopy.
  eapply related_bind; [apply respects_makePartialMetadataCRD, Hcopy|].
  intros projected Hp.
  case_match; apply related_ret, resultAvoids_Ok; exact Hp.
Qed.

Lemma respects_isPartialMetadataRequest L ctx :
  respects L (λ _, True) (isPartialMetadataRequest ctx).
Proof.
  unfold respects, isPartialMetadataRequest.
  repeat case_match; first [apply related_ret; exact I | apply related_panic].
Qed.

Lemma respects_Get L c ctx name :
  cacheAvoids L c → respects L (resultAvoids L) (Get c ctx name).
Proof.
  intros Hc. unfold respects, Get.
  destruct (ClusterNameFrom ctx) as [cl|e]; [|apply related_ret, resultAvoids_Err].
  eapply related_bind; [apply respects_getSystemCRD, Hc|].
  intros [crd|e] Hsys.
  - eapply related_bind; [apply respects_isPartialMetadataRequest|].
    intros pm _. apply respects_Get_finish, Hsys.
  - case_match; [apply related_ret, resultAvoids_Err|].
    eapply related_bind; [apply respects_isPartialMetadataRequest|].
    intros pm _.
    eapply related_bind; [apply respects_Get_resolve, Hc|].
    intros r Hr. apply respects_Get_finish, Hr.
Qed.

(** ** Where the annotations of a returned schema live *)

Lemma Keys_heap p cl s keys s' : Keys p cl s = Done keys s' → heap s' = heap s.
Proof.
  unfold Keys. repeat case_match; unfold bind, log, ret;
    intros [= <- <-]; reflexivity.
Qed.

Lemma getSystemCRD_heap c cl name s r s' :
  getSystemCRD c cl name s = Done r s' → heap s' = heap s.
Proof.
  unfold getSystemCRD. case_match; [intros [= <- <-]; reflexivity|].
  unfold bind. destruct (Keys _ cl s) as [keys s0|] eqn:HK; [|discriminate].
  apply Keys_heap in HK. case_match; intros [= <- <-]; exact HK.
Qed.

Lemma decorate_fresh in_ identity deleteTime s d s' :
  decorateCRDWithBinding in_ identity deleteTime s = Done d s' →
  Annotations d = Some (fresh (dom (heap s))) ∧ dom (heap s) ⊆ dom (heap s').
Proof.
  intros Hd. destruct (decorate_spec in_ identity deleteTime s)
    as (d0 & s0 & Hd0 & _ & _ & _ & Hl & _ & Hh & _).
  rewrite Hd in Hd0. injection Hd0 as <- <-. split; [exact Hl|].
  rewrite Hh, dom_insert_L. apply union_subseteq_r.
Qed.

Lemma decorated_fresh crd0 identity deleteTime s (r : result CRD) s' :
  (do crd <- decorateCRDWithBinding crd0 identity deleteTime; ret (Ok crd)) s = Done r s' →
  dom (heap s) ⊆ dom (heap s')
  ∧ ∀ crd, r = Ok crd → Annotations crd = Some (fresh (dom (heap s))).
Proof.
  unfold bind. destruct (decorateCRDWithBinding crd0 identity deleteTime s)
    as [d s0|] eqn:Hd; [|discriminate].
  intros [= <- <-]. destruct (decorate_fresh _ _ _ _ _ _ Hd) as [Hl Hsub].
  split; [exact Hsub | intros crd [= <-]; exact Hl].
Qed.

Lemma getForIdentity_fresh c name identity s r s' :
  getForIdentity c name identity s = Done r s' →
  dom (heap s) ⊆ dom (heap s')
  ∧ ∀ crd, r = Ok crd → Annotations crd = Some (fresh (dom (heap s))).
Proof.
  unfold getForIdentity.
  repeat case_match;
    first [ apply decorated_fresh
          | intros [= <- <-]; split; [reflexivity | intros crd [=]] ].
Qed.

Lemma get_fresh c cl name s r s' :
  get c cl name s = Done r s' →
  dom (heap s) ⊆ dom (heap s')
  ∧ ∀ objs b br crd,
      apiBindingIndexer c byWorkspace (logicalcluster.String cl) = Ok objs →
      firstBound (groupOf name) (resourceOf name) objs = Some (b, br) →
      r = Ok crd → Annotations crd = Some (fresh (dom (heap s))).
Proof.
  destruct (apiBindingIndexer c byWorkspace (logicalcluster.String cl))
    as [objs|e] eqn:Hidx.
  - destruct (firstBound (groupOf name) (resourceOf name) objs) as [[b br]|] eqn:Hf.
    + rewrite (get_bound c cl name objs b br s Hidx Hf).
      destruct (crdLister c _) as [crd0|e].
      * intros Hrun. destruct (decorated_fresh _ _ _ _ _ _ Hrun) as [Hsub Hl].
        split; [exact Hsub|]. intros objs' b' br' crd _ _. apply Hl.
      * intros [= <- <-]. split; [reflexivity|]. intros ? ? ? ? _ _ [=].
    + rewrite (get_unbound c cl name objs s Hidx Hf). intros [= <- <-].
      split; [reflexivity|]. intros objs' b' br' crd [= <-]. congruence.
  - unfold get. destruct (crdNameToGroupResource name). rewrite Hidx.
    intros [= <- <-]. split; [reflexivity|]. intros ? ? ? ? [=].
Qed.

Lemma Get_resolve_grows c ctx cl partialMetadataRequest name s r s' :
  Get_resolve c ctx cl partialMetadataRequest name s = Done r s' →
  dom (heap s) ⊆ dom (heap s').
Proof.
  unfold Get_resolve. repeat case_match.
  - intros Hr. apply getForIdentity_fresh in Hr as [Hr _]. exact Hr.
  - intros [= <- <-]. reflexivity.
  - intros [= <- <-]. reflexivity.
  - intros Hr. apply get_fresh in Hr as [Hr _]. exact Hr.
Qed.

Lemma Get_finish_fresh cl name r s out s' :
  Get_finish cl true name r s = Done (Ok out) s' →
  Annotations out = Some (fresh (dom (heap s))).
Proof.
  destruct r as [crd|e]; [|discriminate].
  rewrite Get_finish_projects. cbv zeta. intros [= <- <-].
  case_bool_decide; reflexivity.
Qed.

Lemma fresh_not_in (h h0 : gmap loc (gmap string string)) :
  dom h0 ⊆ dom h → fresh (dom h) ∉ dom h0.
Proof. intros Hsub Hin. apply (is_fresh (dom h)), Hsub, Hin. Qed.

(** On the calls that copy, the annotations of the returned schema are a
    map allocated by the call. *)
Lemma Get_copies_fresh c ctx name st out st1 :
  Get c ctx name st = Done (Ok out) st1 →
  copies c ctx name st →
  ∃ l, Annotations out = Some l ∧ l ∉ dom (heap st).
Proof.
  unfold Get. destruct (ClusterNameFrom ctx) as [cl|e] eqn:Hcl; [|discriminate].
  unfold bind at 1.
  destruct (getSystemCRD c cl name st) as [sys s0|] eqn:Hsys; [|discriminate].
  pose proof (getSystemCRD_heap _ _ _ _ _ _ Hsys) as Hh0.
  destruct sys as [crd|e].
  - (* the system schema: only a partial-metadata request copies *)
    unfold bind.
    destruct (isPartialMetadataRequest ctx s0) as [pm s0'|] eqn:Hpm; [|discriminate].
    intros Hfin [(accept & Hacc & Hpmh)|(cl' & e0 & st0 & Hcl' & Hsys' & _)].
    + pose proof (isPartialMetadataRequest_string ctx accept s0 Hacc) as E.
      rewrite Hpm, Hpmh in E. injection E as -> ->.
      eexists. split; [eapply Get_finish_fresh; exact Hfin|].
      apply fresh_not_in. rewrite Hh0. reflexivity.
    + unfold ClusterNameFrom in Hcl. rewrite Hcl' in Hcl. injection Hcl as ->.
      rewrite Hsys in Hsys'. discriminate.
  - destruct (IsNotFound e) eqn:Hnf; simpl; [|discriminate].
    unfold bind.
    destruct (isPartialMetadataRequest ctx s0) as [pm s0'|] eqn:Hpm; [|discriminate].
    assert (s0' = s0) as ->.
    { unfold isPartialMetadataRequest in Hpm.
      repeat case_match; try discriminate; injection Hpm as _ <-; reflexivity. }
    destruct (Get_resolve c ctx cl pm name s0) as [r s2|] eqn:Hres; [|discriminate].
    pose proof (Get_resolve_grows _ _ _ _ _ _ _ _ Hres) as Hgrow.
    intros Hfin Hcopies. destruct pm.
    + eexists. split; [eapply Get_finish_fresh; exact Hfin|].
      apply fresh_not_in. rewrite <- Hh0. exact Hgrow.
    + destruct Hcopies as [(accept & Hacc & Hpmh)|(cl' & e0 & st0 & Hcl' & _ & _ & Hpath)].
      { pose proof (isPartialMetadataRequest_string ctx accept s0 Hacc) as E.
        rewrite Hpm, Hpmh in E. discriminate. }
      unfold ClusterNameFrom in Hcl. rewrite Hcl' in Hcl. injection Hcl as ->.
      destruct r as [crd|e']; [|discriminate]. injection Hfin as <- <-.
      exists (fresh (dom (heap s0))).
      split; [|apply fresh_not_in; rewrite Hh0; reflexivity].
      unfold Get_resolve, IdentityFromContext in Hres.
      destruct (String.eqb_spec (ctx_identity ctx) "") as [Hid|Hid]; simpl in Hres.
      * destruct Hpath as [Hne|(Hw & objs & b & br & Hidx & Hfirst)]; [congruence|].
        rewrite bool_decide_eq_false_2 in Hres by exact Hw. simpl in Hres.
        apply get_fresh in Hres as [_ Hl]. eapply Hl; eauto.
      * apply getForIdentity_fresh in Hres as [_ Hl]. apply Hl. reflexivity.
Qed.

Lemma sim_mutate l m k v s :
  heap s !! l = Some m →
  sim {[l]} (mkState (<[l := <[k := v]> m]> (heap s)) (klog s) (now s)) s.
Proof.
  intros Hl. assert (Hin : l ∈ dom (heap s)) by (apply elem_of_dom; eauto).
  split; [|split; [|split]]; simpl.
  - rewrite dom_insert_L. apply subseteq_union_1_L, singleton_subseteq_l, Hin.
  - rewrite dom_insert_L. apply union_subseteq_l.
  - intros l' Hl'. apply lookup_insert_ne. intros <-. apply Hl', elem_of_singleton.
    reflexivity.
  - reflexivity.
Qed.

Lemma related_view L (m : M (result CRD)) s1 s2 :
  respects L (resultAvoids L) m → sim L s1 s2 → view (m s1) = view (m s2).
Proof.
  intros Hm Hs. specialize (Hm s1 s2 Hs).
  destruct (m s1) as [r1 t1|], (m s2) as [r2 t2|]; try contradiction; [|reflexivity].
  destruct Hm as (<- & Hav & Ht). destruct r1 as [crd|e]; [|reflexivity].
  simpl. rewrite (sim_annotationsOf L t1 t2 crd Ht (Hav crd eq_refl)). reflexivity.
Qed.

(** C5, as the code has it.  When [Get] copies (for a partial-metadata
    request, and for a name resolved by identity or through a binding) the
    annotations of the schema it returns are a map allocated by the call,
    and writing to that map changes the result of no later [Get]. *)
Theorem Get_copy_is_private c ctx name st out st1 :
  cacheIn c st →
  Get c ctx name st = Done (Ok out) st1 →
  copies c ctx name st →
  (∃ l, Annotations out = Some l ∧ l ∉ dom (heap st))
  ∧ ∀ k v ctx' name',
      view (Get c ctx' name' (mutateAnnotations out k v st1))
      = view (Get c ctx' name' st1).
Proof.
  intros Hcache HG Hcopies.
  destruct (Get_copies_fresh c ctx name st out st1 HG Hcopies) as (l & Hl & Hfresh).
  split; [exists l; split; assumption|].
  intros k v ctx' name'. unfold mutateAnnotations. rewrite Hl.
  destruct (heap st1 !! l) as [m|] eqn:Hm; [|reflexivity].
  apply (related_view {[l]}); [|apply sim_mutate, Hm].
  apply respects_Get. intros crd Hc l' Hl' Hin.
  apply elem_of_singleton in Hin as ->.
  apply Hfresh, (Hcache crd Hc), Hl'.
Qed.

Lemma memoryLister_cached crds bindings p crd :
  cached (memoryLister crds bindings p) crd → crd ∈ crds.
Proof.
  intros [(key & Hget)|(index & v & objs & Hidx & Hin)]; simpl in *.
  - destruct (List.find _ crds) as [found|] eqn:Hf; [|discriminate].
    injection Hget as <-. apply find_some in Hf as [Hf _].
    apply list_elem_of_In, Hf.
  - repeat case_match; try discriminate; injection Hidx as <-;
      apply list_elem_of_In, filter_In in Hin as [Hin _];
      apply list_elem_of_In, Hin.
Qed.

Ltac cache_here :=
  let Hc := fresh "Hc" in
  intros ? Hc; apply memoryLister_cached in Hc; cbv [Example.crds] in Hc;
  repeat match goal with
         | H : _ ∈ _ :: _ |- _ => apply elem_of_cons in H as [->|H]
         | H : _ ∈ [] |- _ => inversion H
         end;
  (let E := fresh "E" in
   intros ? E; vm_compute in E;
   first [ discriminate E
         | injection E as <-; vm_compute; reflexivity ]).

Lemma Get_copy_is_private_witness :
  let ctx := Example.context "root:org:ws" "" "" in
  let widgets := "widgets.example.io" in
  let r := Example.returned (Get Example.bound ctx widgets Example.state) in
  Get Example.bound ctx widgets Example.state = Done (Ok r.1) r.2
  ∧ (∃ l, Annotations r.1 = Some l ∧ l ∉ dom (heap Example.state))
  ∧ ∀ k v ctx' name',
      view (Get Example.bound ctx' name' (mutateAnnotations r.1 k v r.2))
      = view (Get Example.bound ctx' name' r.2).
Proof.
  intros ctx widgets r.
  assert (HG : Get Example.bound ctx widgets Example.state = Done (Ok r.1) r.2)
    by (vm_compute; reflexivity).
  split; [exact HG|].
  apply (Get_copy_is_private Example.bound ctx widgets Example.state r.1 r.2).
  - cache_here.
  - exact HG.
  - right. exists Example.ws, (NewNotFound crdResource widgets), Example.state.
    split; [reflexivity|]. split; [vm_compute; reflexivity|]. split; [reflexivity|].
    right. split; [discriminate|].
    exists [Example.binding [Example.boundWidgets "schema-uid-widgets"] None],
           (Example.binding [Example.boundWidgets "schema-uid-widgets"] None),
           (Example.boundWidgets "schema-uid-widgets").
    split; reflexivity.
Defined.

(** C5 as stated fails where [Get] does not copy.  The schema of the
    workspace itself, and the schema a full-data wildcard read settles on,
    are returned with the annotations map of the cached object: after the
    caller writes to it, the same [Get] returns other annotations. *)
Lemma Get_returns_the_cached_map :
  (let ctx := Example.context "root:org:ws" "" "" in
   let r := Example.returned (Get Example.unbound ctx "widgets.example.io" Example.state) in
   Get Example.unbound ctx "widgets.example.io" Example.state = Done (Ok r.1) r.2
   ∧ view (Get Example.unbound ctx "widgets.example.io"
             (mutateAnnotations r.1 "team" "b" r.2))
     ≠ view (Get Example.unbound ctx "widgets.example.io" r.2))
  ∧ (let ctx := Example.context "*" "" "" in
     let c := Example.lister [Example.localWidgets; Example.otherWidgets] [] in
     let r := Example.returned (Get c ctx "widgets.example.io" Example.state) in
     Get c ctx "widgets.example.io" Example.state = Done (Ok r.1) r.2
     ∧ view (Get c ctx "widgets.example.io" (mutateAnnotations r.1 "team" "b" r.2))
       ≠ view (Get c ctx "widgets.example.io" r.2)).
Proof.
  pose (team := λ o : option (result (CRD * gmap string string)),
          match o with
          | Some (Ok (_, annotations)) => annotations !! "team"
          | _ => None
          end).
  split; (split; [vm_compute; reflexivity|]);
    intros H; apply (f_equal team) in H; vm_compute in H; discriminate H.
Qed.

(** ** What the lister never writes *)

Lemma advances_refl s : advances s s.
Proof.
  split; [intros l m H; exact H|]. split; [apply logExtends_refl | reflexivity].
Qed.

Lemma advances_trans s1 s2 s3 : advances s1 s2 → advances s2 s3 → advances s1 s3.
Proof.
  intros (H1 & L1 & N1) (H2 & L2 & N2). split; [|split].
  - intros l m H. apply H2, H1, H.
  - eapply logExtends_trans; eassumption.
  - congruence.
Qed.

Lemma advances_alloc s m :
  advances s (mkState (<[fresh (dom (heap s)) := m]> (heap s)) (klog s) (now s)).
Proof.
  split; [|split; [exists []; symmetry; apply app_nil_r | reflexivity]].
  intros l m' H. simpl. rewrite lookup_insert_ne; [exact H|].
  intros <-. rewrite fresh_heap in H. discriminate.
Qed.

Lemma advancing_ret {A} (a : A) : advancing (ret a).
Proof. intros s a' s' [= <- <-]. apply advances_refl. Qed.

Lemma advancing_bind {A B} (m : M A) (f : A → M B) :
  advancing m → (∀ a, advancing (f a)) → advancing (bind m f).
Proof.
  intros Hm Hf s b s'. unfold bind. destruct (m s) as [a s0|] eqn:E; [|discriminate].
  intros Hrun. eapply advances_trans; [eapply Hm, E | eapply Hf, Hrun].
Qed.

Lemma advancing_log e : advancing (log e).
Proof.
  intros s a s' [= <- <-]. split; [intros l m H; exact H|].
  split; [eexists; reflexivity | reflexivity].
Qed.

Lemma advancing_panic {A} msg : advancing (@panic A msg).
Proof. intros s a s' [=]. Qed.

Lemma advancing_decorate in_ identity deleteTime :
  advancing (decorateCRDWithBinding in_ identity deleteTime).
Proof.
  intros s d s' Hd.
  destruct (decorate_spec in_ identity deleteTime s)
    as (d0 & s0 & Hd0 & _ & _ & _ & _ & _ & Hh & Hl & Hn).
  rewrite Hd in Hd0. injection Hd0 as <- <-.
  split; [|split; [exists []; rewrite Hl; symmetry; apply app_nil_r | exact Hn]].
  intros l m H. rewrite Hh. rewrite lookup_insert_ne; [exact H|].
  intros <-. rewrite fresh_heap in H. discriminate.
Qed.

Lemma advancing_Get_finish cl partialMetadataRequest name r :
  advancing (Get_finish cl partialMetadataRequest name r).
Proof.
  destruct r as [crd|e]; [|apply advancing_ret].
  destruct partialMetadataRequest; [|apply advancing_ret].
  intros s a s'. rewrite Get_finish_projects. cbv zeta.
  intros [= <- <-]. apply advances_alloc.
Qed.

Lemma advancing_isPartialMetadataRequest ctx : advancing (isPartialMetadataRequest ctx).
Proof.
  unfold isPartialMetadataRequest.
  repeat case_match; first [apply advancing_ret | apply advancing_panic].
Qed.

Ltac advancing_step :=
  first [ apply advancing_ret | apply advancing_log | apply advancing_decorate
        | apply advancing_Get_finish | apply advancing_isPartialMetadataRequest
        | assumption
        | apply advancing_bind; [|intros ?]
        | case_match ].

Lemma advancing_Keys p cl : advancing (Keys p cl).
Proof. unfold Keys. repeat advancing_step. Qed.

Lemma advancing_getSystemCRD c cl name : advancing (getSystemCRD c cl name).
Proof.
  pose proof (advancing_Keys (systemProvider c) cl).
  unfold getSystemCRD. repeat advancing_step.
Qed.

Lemma advancing_getForIdentity c name identity :
  advancing (getForIdentity c name identity).
Proof. unfold getForIdentity. repeat advancing_step. Qed.

Lemma advancing_get_boundResources c name group resource b rs :
  advancing (get_boundResources c name group resource b rs).
Proof. induction rs as [|r rs IH]; simpl; repeat advancing_step. Qed.

Lemma advancing_get_bindings c name group resource objs :
  advancing (get_bindings c name group resource objs).
Proof.
  induction objs as [|b objs IH]; simpl; [apply advancing_ret|].
  pose proof (advancing_get_boundResources c name group resource b
                (apisv1alpha1.BoundResources b)).
  repeat advancing_step.
Qed.

Lemma advancing_get c cl name : advancing (get c cl name).
Proof.
  unfold get. destruct (crdNameToGroupResource name) as [group resource].
  destruct (apiBindingIndexer c byWorkspace (logicalcluster.String cl))
    as [objs|e]; [|apply advancing_ret].
  pose proof (advancing_get_bindings c name group resource objs).
  repeat advancing_step.
Qed.

Lemma advancing_Get_resolve c ctx cl partialMetadataRequest name :
  advancing (Get_resolve c ctx cl partialMetadataRequest name).
Proof.
  pose proof (advancing_get c cl name).
  pose proof (advancing_getForIdentity c name (IdentityFromContext ctx)).
  unfold Get_resolve. repeat advancing_step.
Qed.

Lemma advancing_Get c ctx name : advancing (Get c ctx name).
Proof.
  unfold Get. destruct (ClusterNameFrom ctx) as [cl|e]; [|apply advancing_ret].
  pose proof (advancing_getSystemCRD c cl name).
  pose proof (λ pm, advancing_Get_resolve c ctx cl pm name).
  repeat first [ advancing_step | match goal with H : ∀ pm, advancing _ |- _ => apply H end ].
Qed.

Lemma writeMap_fresh s m k v :
  writeMap (Some (fresh (dom (heap s)))) k v
    (mkState (<[fresh (dom (heap s)) := m]> (heap s)) (klog s) (now s))
  = Done tt (mkState (<[fresh (dom (heap s)) := <[k := v]> m]> (heap s))
                     (klog s) (now s)).
Proof.
  unfold writeMap. simpl. rewrite lookup_insert_eq, insert_insert_eq. reflexivity.
Qed.

(** The state [Refresh] ends in: the state it started from, with one more
    map in the heap when the store had the schema. *)
Lemma Refresh_state c crd s a s' :
  Refresh c crd s = Done a s' →
  s' = s
  ∨ ∃ m, s' = mkState (<[fresh (dom (heap s)) := m]> (heap s)) (klog s) (now s).
Proof.
  unfold Refresh.
  destruct (crdLister c _) as [updated|e]; [|intros [= <- <-]; left; reflexivity].
  rewrite (bind_Done _ _ _ _ _ (shallowCopy_eq updated s)).
  unfold bind at 1. unfold readMap at 1.
  set (annotations := match Annotations crd with Some l => _ | None => _ end).
  assert (Hend : ∀ m (r : result CRD),
            Done r (mkState (<[fresh (dom (heap s)) := m]> (heap s)) (klog s) (now s))
            = Done a s' →
            s' = s
            ∨ ∃ m, s' = mkState (<[fresh (dom (heap s)) := m]> (heap s)) (klog s) (now s)).
  { intros m r [= <- <-]. right. exists m. reflexivity. }
  assert (Hmarker : ∀ m,
            (match annotations !! annotationKeyPartialMetadata with
             | Some _ =>
                 do refreshed <- makePartialMetadataCRD
                                   (set_Annotations (Some (fresh (dom (heap s)))) updated);
                 if strings.HasSuffix (UID crd) ".wildcard.partial-metadata"
                 then ret (Ok (set_UID (UID crd) refreshed))
                 else ret (Ok refreshed)
             | None => ret (Ok (set_Annotations (Some (fresh (dom (heap s)))) updated))
             end) (mkState (<[fresh (dom (heap s)) := m]> (heap s)) (klog s) (now s))
            = Done a s' →
            s' = s
            ∨ ∃ m, s' = mkState (<[fresh (dom (heap s)) := m]> (heap s)) (klog s) (now s)).
  { intros m. destruct (annotations !! annotationKeyPartialMetadata).
    - unfold makePartialMetadataCRD. unfold bind at 1. unfold bind at 1.
      simpl Annotations. rewrite writeMap_fresh.
      destruct (strings.HasSuffix _ _); apply Hend.
    - apply Hend. }
  destruct (negb (String.eqb _ "")).
  - unfold bind at 1. simpl Annotations. rewrite writeMap_fresh. apply Hmarker.
  - rewrite bind_ret. apply Hmarker.
Qed.

Lemma advancing_Refresh c crd : advancing (Refresh c crd).
Proof.
  intros s a s' [->|[m ->]]%Refresh_state; [apply advances_refl | apply advances_alloc].
Qed.

Lemma advancing_systemList_loop p cl keys acc :
  advancing (systemList_loop p cl keys acc).
Proof.
  revert acc. induction keys as [|key keys IH]; intros acc; simpl;
    [apply advancing_ret|].
  destruct (getCRD p key); [apply IH|]. repeat advancing_step.
Qed.

Lemma advancing_systemCRDProvider_List p cl : advancing (systemCRDProvider_List p cl).
Proof.
  unfold systemCRDProvider_List.
  apply advancing_bind; [apply advancing_Keys | intros keys; apply advancing_systemList_loop].
Qed.

Lemma advancing_List_boundResources c cl selector b rs acc :
  advancing (List_boundResources c cl selector b rs acc).
Proof.
  revert acc. induction rs as [|r rs IH]; intros acc; simpl; [apply advancing_ret|].
  repeat first [ apply IH | advancing_step ].
Qed.

Lemma advancing_List_bindings c cl selector objs acc :
  advancing (List_bindings c cl selector objs acc).
Proof.
  revert acc. induction objs as [|b objs IH]; intros acc; simpl; [apply advancing_ret|].
  case_match; [apply IH|].
  apply advancing_bind; [apply advancing_List_boundResources | intros acc'; apply IH].
Qed.

Lemma advancing_List_local cl selector seen objs acc :
  advancing (List_local cl selector seen objs acc).
Proof.
  revert acc. induction objs as [|crd objs IH]; intros acc; simpl; [apply advancing_ret|].
  repeat first [ apply IH | advancing_step ].
Qed.

Lemma advancing_List c ctx selector : advancing (List c ctx selector).
Proof.
  unfold List. destruct (ClusterNameFrom ctx) as [cl|e]; [|apply advancing_ret].
  apply advancing_bind; [apply advancing_systemCRDProvider_List|].
  intros [sys|e]; [|apply advancing_ret].
  destruct (apiBindingIndexer c _ _) as [objs|e]; [|apply advancing_ret].
  apply advancing_bind; [apply advancing_List_bindings|].
  intros acc. destruct (crdIndexer c _ _) as [locals|e]; [|apply advancing_ret].
  apply advancing_bind; [apply advancing_List_local | intros all; apply advancing_ret].
Qed.

Lemma advances_annotationsOf s s' crd :
  advances s s' → allocated s crd → annotationsOf s' crd = annotationsOf s crd.
Proof.
  intros (Hk & _) Hal. unfold annotationsOf.
  destruct (Annotations crd) as [l|] eqn:E; [|reflexivity].
  destruct (heap s !! l) as [m|] eqn:Hl.
  - rewrite (Hk l m Hl). reflexivity.
  - exfalso. apply not_elem_of_dom in Hl. apply Hl, Hal, E.
Qed.

(** X1. [Get] writes to no map that exists when it is called: whatever it
    returns, every schema value whose annotations map is in the heap reads
    the same annotations afterwards (the cached objects among them); the
    log is only appended to and the clock is not touched. *)
Theorem Get_leaves_existing_maps c ctx name st r st' :
  Get c ctx name st = Done r st' →
  (∀ crd, allocated st crd → annotationsOf st' crd = annotationsOf st crd)
  ∧ logExtends st st'
  ∧ dom (heap st) ⊆ dom (heap st').
Proof.
  intros HG. pose proof (advancing_Get c ctx name st r st' HG) as Hadv.
  split; [intros crd; apply advances_annotationsOf, Hadv|].
  split; [apply Hadv|].
  intros l [m Hl]%elem_of_dom. apply elem_of_dom. exists m. apply Hadv, Hl.
Qed.

Lemma Get_leaves_existing_maps_witness :
  ∃ r st',
    Get Example.bound (Example.context "*" "identity-1" "application/json;as=PartialObjectMetadata")
        "widgets.example.io" Example.state = Done r st'
    ∧ annotationsOf st' Example.shadowWidgets
      = annotationsOf Example.state Example.shadowWidgets
    ∧ fresh (dom (heap Example.state)) ∈ dom (heap st').
Proof.
  assert (HG : ∃ r st',
             Get Example.bound
               (Example.context "*" "identity-1" "application/json;as=PartialObjectMetadata")
               "widgets.example.io" Example.state = Done r st'
             ∧ fresh (dom (heap Example.state)) ∈ dom (heap st')).
  { eexists _, _. split; vm_compute; reflexivity. }
  destruct HG as (r & st' & HG & Hne). exists r, st'.
  split; [exact HG|]. split; [|exact Hne].
  apply (proj1 (Get_leaves_existing_maps _ _ _ _ _ _ HG)). allocated_here.
Defined.

(** X2. [List] writes to no map that exists when it is called, and only
    appends to the log. *)
Theorem List_leaves_existing_maps c ctx selector st r st' :
  List c ctx selector st = Done r st' →
  (∀ crd, allocated st crd → annotationsOf st' crd = annotationsOf st crd)
  ∧ logExtends st st'
  ∧ dom (heap st) ⊆ dom (heap st').
Proof.
  intros HL. pose proof (advancing_List c ctx selector st r st' HL) as Hadv.
  split; [intros crd; apply advances_annotationsOf, Hadv|].
  split; [apply Hadv|].
  intros l [m Hl]%elem_of_dom. apply elem_of_dom. exists m. apply Hadv, Hl.
Qed.

Lemma List_leaves_existing_maps_witness :
  ∃ r st',
    List Example.homeLister (Example.context "root:home" "" "") Example.everything
         Example.state = Done r st'
    ∧ annotationsOf st' Example.shadowWidgets
      = annotationsOf Example.state Example.shadowWidgets
    ∧ fresh (dom (heap Example.state)) ∈ dom (heap st').
Proof.
  assert (HL : ∃ r st',
             List Example.homeLister (Example.context "root:home" "" "")
                  Example.everything Example.state = Done r st'
             ∧ fresh (dom (heap Example.state)) ∈ dom (heap st')).
  { eexists _, _. split; vm_compute; reflexivity. }
  destruct HL as (r & st' & HL & Hne). exists r, st'.
  split; [exact HL|]. split; [|exact Hne].
  apply (proj1 (List_leaves_existing_maps _ _ _ _ _ _ HL)). allocated_here.
Defined.

(** X3. [Refresh] writes neither to the annotations of its argument nor to
    those of the store copy, nor to any other map that exists when it is
    called; it logs nothing. *)
Theorem Refresh_leaves_existing_maps c crd st r st' :
  Refresh c crd st = Done r st' →
  (∀ other, allocated st other → annotationsOf st' other = annotationsOf st other)
  ∧ klog st' = klog st
  ∧ dom (heap st) ⊆ dom (heap st').
Proof.
  intros HR.
  assert (Hlog : klog st' = klog st).
  { destruct (Refresh_state _ _ _ _ _ HR) as [->|[m ->]]; reflexivity. }
  pose proof (advancing_Refresh c crd st r st' HR) as Hadv.
  split; [intros other; apply advances_annotationsOf, Hadv|].
  split; [exact Hlog|].
  intros l [m Hl]%elem_of_dom. apply elem_of_dom. exists m. apply Hadv, Hl.
Qed.

Lemma Refresh_leaves_existing_maps_witness :
  ∃ r st',
    Refresh Example.bound Example.served Example.servedState = Done r st'
    ∧ annotationsOf st' Example.served = annotationsOf Example.servedState Example.served
    ∧ annotationsOf st' Example.shadowWidgets
      = annotationsOf Example.servedState Example.shadowWidgets
    ∧ klog st' = klog Example.servedState.
Proof.
  assert (HR : ∃ r st',
             Refresh Example.bound Example.served Example.servedState = Done r st')
    by (eexists _, _; vm_compute; reflexivity).
  destruct HR as (r & st' & HR). exists r, st'.
  destruct (Refresh_leaves_existing_maps _ _ _ _ _ HR) as (Hmaps & Hlog & _).
  split; [exact HR|]. split; [apply Hmaps; allocated_here|].
  split; [apply Hmaps; allocated_here | exact Hlog].
Defined.

(** ** The shape of a listing *)

Lemma List_boundResources_inv c cl selector sys b rs acc s acc' s' :
  List_boundResources c cl selector b rs acc s = Done acc' s' →
  bindingPassInv selector sys acc → bindingPassInv selector sys acc'.
Proof.
  revert acc s. induction rs as [|r rs IH]; intros acc s; simpl.
  - intros [= <- <-] H. exact H.
  - destruct (crdLister c _) as [crd|e].
    + destruct (selector (Labels crd)) eqn:Hsel; simpl; [|apply IH].
      destruct (sets.Has acc.2 (crdName crd)) eqn:Hseen.
      * unfold bind, log. apply IH.
      * unfold bind.
        destruct (decorateCRDWithBinding crd _ _ s) as [d s0|] eqn:Hd; [|discriminate].
        intros Hrun Hinv. apply (IH _ _ Hrun). clear Hrun IH.
        destruct (decorate_keeps_fields _ _ _ _ _ _ Hd) as (HL & HS & _).
        assert (Hn : crdName d = crdName crd) by (unfold crdName; rewrite HS; reflexivity).
        destruct Hinv as (bound & Hret & Hseenset & Hnd & Hall).
        apply bool_decide_eq_false in Hseen. rewrite Hseenset in Hseen.
        unfold names in Hseen. rewrite map_app, elem_of_app in Hseen.
        exists (bound ++ [d]). simpl. repeat apply conj.
        -- rewrite Hret, app_assoc. reflexivity.
        -- intros n. unfold sets.Insert. rewrite elem_of_union, elem_of_singleton.
           rewrite Hseenset. unfold names. rewrite !map_app, !elem_of_app. simpl.
           rewrite list_elem_of_singleton, Hn. tauto.
        -- unfold names. rewrite map_app. apply NoDup_app. split; [exact Hnd|].
           split; [|apply NoDup_singleton].
           intros n Hin [->|H]%elem_of_cons; [|inversion H].
           rewrite Hn in Hin. apply Hseen. right. exact Hin.
        -- intros x [Hx|[->|Hx]%elem_of_cons]%elem_of_app; [apply Hall, Hx | | inversion Hx].
           rewrite HL, Hn. split; [exact Hsel|]. intros Hin. apply Hseen. left. exact Hin.
    + unfold bind, log. apply IH.
Qed.

Lemma List_bindings_inv c cl selector sys objs acc s acc' s' :
  List_bindings c cl selector objs acc s = Done acc' s' →
  bindingPassInv selector sys acc → bindingPassInv selector sys acc'.
Proof.
  revert acc s. induction objs as [|b objs IH]; intros acc s; simpl.
  - intros [= <- <-] H. exact H.
  - destruct (negb _); [apply IH|]. unfold bind.
    destruct (List_boundResources c cl selector b _ acc s) as [acc0 s0|] eqn:Hin;
      [|discriminate].
    intros Hrun Hinv. apply (IH _ _ Hrun).
    eapply List_boundResources_inv; eassumption.
Qed.

Lemma List_local_inv cl selector seen objs acc s all s' :
  List_local cl selector seen objs acc s = Done all s' →
  ∃ locals,
    all = acc ++ locals
    ∧ sublist locals objs
    ∧ ∀ crd, crd ∈ locals → selector (Labels crd) = true ∧ crdName crd ∉ seen.
Proof.
  revert acc s. induction objs as [|crd objs IH]; intros acc s; simpl.
  - intros [= <- <-]. exists []. rewrite app_nil_r.
    split; [reflexivity|]. split; [constructor | intros crd H; inversion H].
  - assert (Hskip : ∀ s0, List_local cl selector seen objs acc s0 = Done all s' →
              ∃ locals, all = acc ++ locals ∧ sublist locals (crd :: objs)
                ∧ ∀ x, x ∈ locals → selector (Labels x) = true ∧ crdName x ∉ seen).
    { intros s0 Hrun. destruct (IH _ _ Hrun) as (locals & Hall & Hsub & Hl).
      exists locals. split; [exact Hall|]. split; [apply sublist_cons, Hsub | exact Hl]. }
    destruct (selector (Labels crd)) eqn:Hsel; simpl; [|apply Hskip].
    destruct (sets.Has seen (crdName crd)) eqn:Hseen.
    + unfold bind, log. apply Hskip.
    + intros Hrun. destruct (IH _ _ Hrun) as (locals & Hall & Hsub & Hl).
      exists (crd :: locals). split; [rewrite Hall, <- app_assoc; reflexivity|].
      split; [apply sublist_skip, Hsub|].
      intros x [->|Hx]%elem_of_cons; [|apply Hl, Hx].
      split; [exact Hsel | apply bool_decide_eq_false in Hseen; exact Hseen].
Qed.

(** X4. The shape of what [List] returns: all the system CRDs of the
    cluster first, whatever the selector says of them; then bound schemas
    that match the selector, with pairwise different names that no system
    CRD has; then CRDs of the workspace itself, in index order, that match
    the selector and bear the name of no system CRD and of no bound schema
    listed before them. *)
Theorem List_priority_union c ctx selector cl st sys st1 locals all st' :
  ctx_cluster ctx = Some cl →
  systemCRDProvider_List (systemProvider c) cl st = Done (Ok sys) st1 →
  crdIndexer c byWorkspace (logicalcluster.String cl) = Ok locals →
  List c ctx selector st = Done (Ok all) st' →
  ∃ bound own,
    all = sys ++ bound ++ own
    ∧ NoDup (names bound)
    ∧ (∀ crd, crd ∈ bound → selector (Labels crd) = true ∧ crdName crd ∉ names sys)
    ∧ sublist own locals
    ∧ (∀ crd, crd ∈ own →
         selector (Labels crd) = true ∧ crdName crd ∉ names (sys ++ bound)).
Proof.
  intros Hcl Hsys Hloc. unfold List, ClusterNameFrom. rewrite Hcl.
  rewrite (bind_Done _ _ _ _ _ Hsys).
  destruct (apiBindingIndexer c _ _) as [objs|e]; [|discriminate].
  unfold bind at 1.
  set (seen := foldl _ _ sys).
  destruct (List_bindings c cl selector objs (sys, seen) st1) as [acc s2|] eqn:Hb;
    [|discriminate].
  rewrite Hloc. unfold bind.
  destruct (List_local cl selector acc.2 locals acc.1 s2) as [all0 s3|] eqn:Hl;
    [|discriminate].
  intros [= <- <-].
  assert (Hinv0 : bindingPassInv selector sys (sys, seen)).
  { exists []. simpl. rewrite app_nil_r. repeat apply conj.
    - reflexivity.
    - intros n. apply seen_of_system.
    - constructor.
    - intros crd H. inversion H. }
  destruct (List_bindings_inv _ _ _ _ _ _ _ _ _ Hb Hinv0)
    as (bound & Hret & Hseen & Hnd & Hbound).
  destruct (List_local_inv _ _ _ _ _ _ _ _ Hl) as (own & Hall & Hsub & Hown).
  exists bound, own. repeat apply conj; try assumption.
  - rewrite Hall, Hret, app_assoc. reflexivity.
  - intros crd Hin. destruct (Hown crd Hin) as [Hs Hn]. split; [exact Hs|].
    rewrite <- Hseen. exact Hn.
Qed.

Lemma List_priority_union_witness :
  ∃ all st' bound own,
    List Example.homeLister (Example.context "root:home" "" "") Example.everything
         Example.state = Done (Ok all) st'
    ∧ all = [] ++ bound ++ own
    ∧ NoDup (names bound)
    ∧ (∀ crd, crd ∈ bound →
         Example.everything (Labels crd) = true ∧ crdName crd ∉ names [])
    ∧ sublist own [Example.divergingWidgets]
    ∧ (∀ crd, crd ∈ own →
         Example.everything (Labels crd) = true ∧ crdName crd ∉ names ([] ++ bound)).
Proof.
  assert (HL : ∃ all st',
             List Example.homeLister (Example.context "root:home" "" "")
                  Example.everything Example.state = Done (Ok all) st')
    by (eexists _, _; vm_compute; reflexivity).
  destruct HL as (all & st' & HL).
  destruct (List_priority_union Example.homeLister (Example.context "root:home" "" "")
              Example.everything Example.home Example.state [] Example.state
              [Example.divergingWidgets] all st' eq_refl
              ltac:(vm_compute; reflexivity) eq_refl HL)
    as (bound & own & H).
  exists all, st', bound, own. split; [exact HL | exact H].
Defined.

Lemma returns_systemList_loop p cl keys acc : returns (systemList_loop p cl keys acc).
Proof.
  revert acc. induction keys as [|key keys IH]; intros acc; simpl; [apply returns_ret|].
  destruct (getCRD p key); [apply IH|]. repeat returns_step.
Qed.

(** X5. [List] never panics: for every lister, selector, state and context
    (with or without an Accept header) it returns, and without a cluster in
    the context what it returns is an error, with the state as it was. *)
Theorem List_always_returns c ctx selector st :
  (∃ r st', List c ctx selector st = Done r st')
  ∧ (ctx_cluster ctx = None → ∃ e, List c ctx selector st = Done (Err e) st).
Proof.
  split.
  - unfold List. destruct (ClusterNameFrom ctx) as [cl|e]; [|eexists _, _; reflexivity].
    refine (returns_bind _ _ _ _ st).
    { unfold systemCRDProvider_List. apply returns_bind; [apply returns_Keys|].
      intros keys. apply returns_systemList_loop. }
    intros [sys|e]; [|apply returns_ret]. cbv zeta.
    destruct (apiBindingIndexer c _ _) as [objs|e]; [|apply returns_ret].
    apply returns_bind; [apply returns_List_bindings|]. intros acc.
    destruct (crdIndexer c _ _) as [locals|e]; [|apply returns_ret].
    apply returns_bind; [apply returns_List_local | intros all; apply returns_ret].
  - intros Hcl. unfold List, ClusterNameFrom. rewrite Hcl. eexists. reflexivity.
Qed.

Lemma List_always_returns_witness :
  ∃ e, List Example.homeLister (Example.contextWithoutAccept None) Example.everything
            Example.state = Done (Err e) Example.state.
Proof.
  apply (proj2 (List_always_returns Example.homeLister
                  (Example.contextWithoutAccept None) Example.everything Example.state)).
  reflexivity.
Defined.

(** ** Resolution by identity *)

Lemma getForIdentity_eq c name identity s :
  getForIdentity c name identity s =
    match apiBindingIndexer c apibinding.IndexAPIBindingsByIdentityGroupResource
            (identityIndexKey name identity) with
    | Err err => Done (Err err) s
    | Ok [] => Done (Err (NewNotFound crdResource name)) s
    | Ok (apiBinding :: _) =>
        match List.find (matchesIdentity (groupOf name) (resourceOf name) identity)
                        (apisv1alpha1.BoundResources apiBinding) with
        | None => Done (Err (NewNotFound crdResource name)) s
        | Some r =>
            if String.eqb (apisv1alpha1.UID (apisv1alpha1.Schema r)) ""
            then Done (Err (NewNotFound crdResource name)) s
            else
              match crdLister c (boundKey r) with
              | Err err => Done (Err err) s
              | Ok crd =>
                  (do crd <- decorateCRDWithBinding crd identity
                               (apisv1alpha1.DeletionTimestamp apiBinding);
                   ret (Ok crd)) s
              end
        end
    end.
Proof.
  unfold getForIdentity, identityIndexKey, groupOf, resourceOf, boundKey.
  destruct (crdNameToGroupResource name) as [group resource]. simpl.
  destruct (apiBindingIndexer c _ _) as [[|b rest]|e]; try reflexivity.
  destruct (List.find _ _) as [r|]; [|reflexivity].
  destruct (String.eqb _ ""); [reflexivity|].
  destruct (crdLister c _); reflexivity.
Qed.

(** X6. Resolution by identity.  Without a binding under the identity,
    group and resource the schema is not found.  Otherwise only the first
    binding of the index is looked at: when none of its bound resources
    has the group, resource and identity, the schema is not found whatever
    the other bindings declare; when one has, a failed fetch of its shadow
    schema is returned as the store's own error (a missing schema is
    not-found here, not service-unavailable), and a fetched schema is
    returned decorated with the requested identity. *)
Theorem getForIdentity_first_binding c name identity st objs :
  apiBindingIndexer c apibinding.IndexAPIBindingsByIdentityGroupResource
    (identityIndexKey name identity) = Ok objs →
  (objs = [] →
     getForIdentity c name identity st = Done (Err (NewNotFound crdResource name)) st)
  ∧ (∀ b rest,
       objs = b :: rest →
       (Forall (λ r, matchesIdentity (groupOf name) (resourceOf name) identity r = false)
               (apisv1alpha1.BoundResources b) →
          getForIdentity c name identity st
          = Done (Err (NewNotFound crdResource name)) st)
       ∧ (∀ r,
            List.find (matchesIdentity (groupOf name) (resourceOf name) identity)
                      (apisv1alpha1.BoundResources b) = Some r →
            apisv1alpha1.UID (apisv1alpha1.Schema r) ≠ "" →
            (∀ e, crdLister c (boundKey r) = Err e →
                  getForIdentity c name identity st = Done (Err e) st)
            ∧ (∀ shadow,
                 crdLister c (boundKey r) = Ok shadow →
                 ∃ out st',
                   getForIdentity c name identity st = Done (Ok out) st'
                   ∧ sameObject out shadow
                   ∧ annotationsOf st' out
                     = <[apisv1alpha1.AnnotationAPIIdentityKey := identity]>
                         (annotationsOf st shadow)))).
Proof.
  intros Hidx. rewrite getForIdentity_eq, Hidx. split; [intros ->; reflexivity|].
  intros b rest ->. split.
  - intros Hnone. destruct (List.find _ _) as [r|] eqn:Hf; [|reflexivity].
    apply find_some in Hf as [Hin Hm]. rewrite Forall_forall in Hnone.
    rewrite (Hnone r) in Hm; [discriminate | apply list_elem_of_In, Hin].
  - intros r -> Huid. apply String.eqb_neq in Huid. rewrite Huid. split.
    + intros e ->. reflexivity.
    + intros shadow ->.
      destruct (decorate_spec shadow identity (apisv1alpha1.DeletionTimestamp b) st)
        as (d & s' & Hd & Hsame & _ & _ & _ & Hann & _).
      rewrite (bind_Done _ _ _ _ _ Hd). exists d, s'.
      split; [reflexivity|]. split; assumption.
Qed.

Lemma getForIdentity_first_binding_witness :
  let widgets := "widgets.example.io" in
  getForIdentity (MoreExamples.indexed []) widgets "identity-1" Example.state
    = Done (Err (NewNotFound crdResource widgets)) Example.state
  ∧ getForIdentity
      (MoreExamples.indexed [MoreExamples.emptyBinding; MoreExamples.widgetsBinding])
      widgets "identity-1" Example.state
    = Done (Err (NewNotFound crdResource widgets)) Example.state
  ∧ getForIdentity (MoreExamples.indexed [MoreExamples.lostBinding])
      widgets "identity-1" Example.state
    = Done (Err (NewNotFound crdResource (shadowKey "schema-uid-lost"))) Example.state
  ∧ (∃ out st',
       getForIdentity (MoreExamples.indexed [MoreExamples.widgetsBinding])
         widgets "identity-1" Example.state = Done (Ok out) st'
       ∧ sameObject out Example.shadowWidgets
       ∧ annotationsOf st' out
         = <[apisv1alpha1.AnnotationAPIIdentityKey := "identity-1"]>
             (annotationsOf Example.state Example.shadowWidgets)).
Proof.
  intros widgets.
  pose (T := λ objs, getForIdentity_first_binding (MoreExamples.indexed objs) widgets
                       "identity-1" Example.state objs eq_refl).
  repeat apply conj.
  - apply (proj1 (T [])). reflexivity.
  - apply (proj1 (proj2 (T [MoreExamples.emptyBinding; MoreExamples.widgetsBinding])
                    MoreExamples.emptyBinding [MoreExamples.widgetsBinding] eq_refl)).
    repeat constructor.
  - apply (proj1 (proj2 (proj2 (T [MoreExamples.lostBinding])
                    MoreExamples.lostBinding [] eq_refl)
                    (Example.boundWidgets "schema-uid-lost") eq_refl
                    ltac:(discriminate))).
    vm_compute. reflexivity.
  - apply (proj2 (proj2 (proj2 (T [MoreExamples.widgetsBinding])
                    MoreExamples.widgetsBinding [] eq_refl)
                    (Example.boundWidgets "schema-uid-widgets") eq_refl
                    ltac:(discriminate))).
    vm_compute. reflexivity.
Defined.

(** ** Partial metadata *)

Lemma withMinimalSchema_minimal vs :
  Forall (λ v, Schema v = Some minimalSchema) (map withMinimalSchema vs).
Proof. apply Forall_forall. intros v (v0 & -> & _)%list_elem_of_fmap. reflexivity. Qed.

(** X7. A wildcard partial-metadata [Get] of a name the system workspace
    does not serve answers from the first schema of that name in the
    by-group-resource-name index, without comparing it with the others:
    not-found when there is none; otherwise a projected copy of the first
    one (minimal version schemas, marker annotation added to its
    annotations) whose UID is the name followed by the wildcard suffix. *)
Theorem Get_wildcard_partial_metadata c ctx name objs st :
  wildcardPartialMetadata ctx →
  notSystemCRD c name →
  crdIndexer c byGroupResourceName name = Ok objs →
  (objs = [] →
     Get c ctx name st = Done (Err (NewNotFound crdResource name)) st)
  ∧ (∀ first rest,
       objs = first :: rest →
       ∃ out st',
         Get c ctx name st = Done (Ok out) st'
         ∧ sameObject out first
         ∧ UID out = name +:+ wildcardSuffix
         ∧ Versions (Spec out) = map withMinimalSchema (Versions (Spec first))
         ∧ annotationsOf st' out
           = <[annotationKeyPartialMetadata := ""]> (annotationsOf st first)).
Proof.
  intros (Hcl & Hid & accept & Hacc & Hpm) (e0 & Hsys & Hnf) Hidx.
  assert (HG : Get c ctx name st =
               Get_finish logicalcluster.Wildcard true name
                 (getForWildcardPartialMetadata c name) st).
  { unfold Get, ClusterNameFrom. rewrite Hcl.
    unfold getSystemCRD. rewrite bool_decide_eq_true_2 by reflexivity.
    rewrite bind_ret, Hsys, Hnf. cbn [negb].
    rewrite (bind_Done _ _ _ _ _ (isPartialMetadataRequest_string _ _ _ Hacc)).
    rewrite Hpm. unfold Get_resolve, IdentityFromContext. rewrite Hid. simpl.
    rewrite bind_ret. reflexivity. }
  rewrite HG. unfold getForWildcardPartialMetadata. rewrite Hidx.
  split; [intros ->; reflexivity|].
  intros first rest ->. rewrite Get_finish_projects. cbv zeta.
  rewrite bool_decide_eq_true_2 by reflexivity.
  eexists _, _. split; [reflexivity|].
  unfold annotationsOf at 1, sameObject. simpl. rewrite lookup_insert_eq.
  repeat apply conj; reflexivity.
Qed.

Lemma Get_wildcard_partial_metadata_witness :
  let ctx := Example.context "*" "" MoreExamples.partialAccept in
  let widgets := "widgets.example.io" in
  Get (Example.lister [] []) ctx widgets Example.state
    = Done (Err (NewNotFound crdResource widgets)) Example.state
  ∧ (∃ out st',
       Get (Example.lister [Example.localWidgets; Example.divergingWidgets] [])
           ctx widgets Example.state = Done (Ok out) st'
       ∧ sameObject out Example.localWidgets
       ∧ UID out = "widgets.example.io.wildcard.partial-metadata"
       ∧ Versions (Spec out)
         = map withMinimalSchema (Versions (Spec Example.localWidgets))
       ∧ annotationsOf st' out
         = <[annotationKeyPartialMetadata := ""]>
             (annotationsOf Example.state Example.localWidgets)).
Proof.
  intros ctx widgets.
  assert (Hctx : wildcardPartialMetadata ctx).
  { repeat apply conj; [reflexivity | reflexivity |].
    exists MoreExamples.partialAccept. split; [reflexivity | vm_compute; reflexivity]. }
  assert (Hsys : ∀ crds, crdLister (Example.lister crds []) (systemKey widgets)
                         = Err (NewNotFound crdResource (systemKey widgets)) →
                 notSystemCRD (Example.lister crds []) widgets).
  { intros crds H. exists (NewNotFound crdResource (systemKey widgets)).
    split; [exact H | reflexivity]. }
  split.
  - apply (proj1 (Get_wildcard_partial_metadata (Example.lister [] []) ctx widgets []
                    Example.state Hctx (Hsys [] eq_refl) eq_refl)).
    reflexivity.
  - apply (proj2 (Get_wildcard_partial_metadata
                    (Example.lister [Example.localWidgets; Example.divergingWidgets] [])
                    ctx widgets [Example.localWidgets; Example.divergingWidgets]
                    Example.state Hctx
                    (Hsys [Example.localWidgets; Example.divergingWidgets] eq_refl)
                    eq_refl)
             Example.localWidgets [Example.divergingWidgets] eq_refl).
Defined.

(** X8. Whatever path resolves the name, the schema [Get] returns for a
    partial-metadata request carries the marker annotation in a map
    allocated by the call, has the minimal schema in every version, and,
    for the wildcard cluster, has the name followed by the wildcard suffix
    as UID. *)
Theorem Get_partial_metadata_projected c ctx name accept st out st' :
  acceptOf ctx accept →
  isPartialMetadataHeader accept = true →
  Get c ctx name st = Done (Ok out) st' →
  annotationsOf st' out !! annotationKeyPartialMetadata = Some ""
  ∧ minimalVersions out
  ∧ (∃ l, Annotations out = Some l ∧ l ∉ dom (heap st))
  ∧ (ctx_cluster ctx = Some logicalcluster.Wildcard →
       UID out = name +:+ wildcardSuffix).
Proof.
  intros Hacc Hpm HG.
  assert (Hfresh : ∃ l, Annotations out = Some l ∧ l ∉ dom (heap st)).
  { eapply Get_copies_fresh; [exact HG|]. left. exists accept. split; assumption. }
  assert (Hfin : ∃ cl r s2,
             ctx_cluster ctx = Some cl
             ∧ Get_finish cl true name r s2 = Done (Ok out) st').
  { revert HG. unfold Get, ClusterNameFrom.
    destruct (ctx_cluster ctx) as [cl|]; [|discriminate].
    unfold bind at 1. destruct (getSystemCRD c cl name st) as [sys s0|]; [|discriminate].
    assert (Hp : ∀ s, isPartialMetadataRequest ctx s = Done true s).
    { intros s. rewrite (isPartialMetadataRequest_string ctx accept s Hacc), Hpm.
      reflexivity. }
    destruct sys as [crd|e].
    - rewrite (bind_Done _ _ _ _ _ (Hp s0)). intros HG. eauto.
    - destruct (negb (IsNotFound e)); [discriminate|].
      rewrite (bind_Done _ _ _ _ _ (Hp s0)). unfold bind.
      destruct (Get_resolve c ctx cl true name s0) as [r s2|]; [|discriminate].
      intros HG. eauto. }
  destruct Hfin as (cl & r & s2 & Hcl & Hfin).
  destruct r as [crd|e]; [|discriminate].
  rewrite Get_finish_projects in Hfin. cbv zeta in Hfin. injection Hfin as <- <-.
  split; [|split; [|split; [exact Hfresh|]]].
  - unfold annotationsOf.
    replace (Annotations _) with (Some (fresh (dom (heap s2))))
      by (case_bool_decide; reflexivity).
    simpl. rewrite lookup_insert_eq. simpl. apply lookup_insert_eq.
  - unfold minimalVersions.
    replace (Versions _) with (map withMinimalSchema (Versions (Spec crd)))
      by (case_bool_decide; reflexivity).
    apply withMinimalSchema_minimal.
  - rewrite Hcl. intros [= ->]. rewrite bool_decide_eq_true_2 by reflexivity.
    reflexivity.
Qed.

Lemma Get_partial_metadata_projected_witness :
  ∃ out st',
    Get Example.bound (Example.context "*" "identity-1" MoreExamples.partialAccept)
        "widgets.example.io" Example.state = Done (Ok out) st'
    ∧ annotationsOf st' out !! annotationKeyPartialMetadata = Some ""
    ∧ minimalVersions out
    ∧ UID out = "widgets.example.io" +:+ wildcardSuffix.
Proof.
  assert (HG : ∃ out st',
             Get Example.bound
                 (Example.context "*" "identity-1" MoreExamples.partialAccept)
                 "widgets.example.io" Example.state = Done (Ok out) st')
    by (eexists _, _; vm_compute; reflexivity).
  destruct HG as (out & st' & HG). exists out, st'.
  destruct (Get_partial_metadata_projected Example.bound
              (Example.context "*" "identity-1" MoreExamples.partialAccept)
              "widgets.example.io" MoreExamples.partialAccept Example.state out st'
              eq_refl ltac:(vm_compute; reflexivity) HG) as (H1 & H2 & _ & H3).
  split; [exact HG|]. split; [exact H1|]. split; [exact H2|]. apply H3. reflexivity.
Defined.

Lemma withMinimalSchema_idempotent v :
  withMinimalSchema (withMinimalSchema v) = withMinimalSchema v.
Proof. reflexivity. Qed.

(** X9. [makePartialMetadataCRD] panics on a schema whose annotations map
    is nil.  On a schema with a map it returns, keeps the number, names and
    flags of the versions, and is idempotent: projecting the result again
    changes neither the schema nor the state. *)
Theorem makePartialMetadataCRD_idempotent crd st :
  (Annotations crd = None → ∃ msg, makePartialMetadataCRD crd st = Panic msg)
  ∧ (∀ l, Annotations crd = Some l →
       ∃ out st',
         makePartialMetadataCRD crd st = Done out st'
         ∧ makePartialMetadataCRD out st' = Done out st'
         ∧ minimalVersions out
         ∧ map Version_Name (Versions (Spec out))
           = map Version_Name (Versions (Spec crd))
         ∧ map Served (Versions (Spec out)) = map Served (Versions (Spec crd))
         ∧ map Storage (Versions (Spec out)) = map Storage (Versions (Spec crd))
         ∧ annotationsOf st' out
           = <[annotationKeyPartialMetadata := ""]> (annotationsOf st crd)).
Proof.
  split.
  - intros Hnil. unfold makePartialMetadataCRD, bind, writeMap. rewrite Hnil.
    eexists. reflexivity.
  - intros l Hl. unfold makePartialMetadataCRD, bind, writeMap, ret. rewrite Hl.
    eexists _, _. split; [reflexivity|]. simpl. rewrite Hl. simpl.
    rewrite lookup_insert_eq, insert_insert_eq. simpl. rewrite insert_insert_eq.
    rewrite map_map. unfold annotationsOf. simpl. rewrite Hl, lookup_insert_eq.
    repeat apply conj; try reflexivity.
    + apply withMinimalSchema_minimal.
    + rewrite map_map. reflexivity.
    + rewrite map_map. reflexivity.
    + rewrite map_map. reflexivity.
Qed.

Lemma makePartialMetadataCRD_idempotent_witness :
  (∃ msg, makePartialMetadataCRD Example.otherWidgets Example.state = Panic msg)
  ∧ (∃ out st',
       makePartialMetadataCRD Example.localWidgets Example.state = Done out st'
       ∧ makePartialMetadataCRD out st' = Done out st'
       ∧ minimalVersions out).
Proof.
  split.
  - apply (proj1 (makePartialMetadataCRD_idempotent Example.otherWidgets Example.state)).
    reflexivity.
  - destruct (proj2 (makePartialMetadataCRD_idempotent Example.localWidgets Example.state)
                1%positive eq_refl) as (out & st' & H1 & H2 & H3 & _).
    exists out, st'. repeat (split; [assumption|]). exact H3.
Defined.

(** ** Names *)

Lemma SplitN2_no_sep sep s :
  contains sep s = false → strings.SplitN2 sep s = (s, None).
Proof.
  induction s as [|ch s IH]; simpl; [reflexivity|].
  intros [Hc Hs]%orb_false_iff. rewrite Hc, (IH Hs). reflexivity.
Qed.

Lemma SplitN2_first_sep sep s rest :
  contains sep s = false →
  strings.SplitN2 sep (s +:+ String.String sep rest) = (s, Some rest).
Proof.
  induction s as [|ch s IH]; simpl.
  - intros _. rewrite Ascii.eqb_refl. reflexivity.
  - intros [Hc Hs]%orb_false_iff. rewrite Hc, (IH Hs). reflexivity.
Qed.

Lemma SplitN2_left_no_sep sep s : contains sep (strings.SplitN2 sep s).1 = false.
Proof.
  induction s as [|ch s IH]; simpl; [reflexivity|].
  destruct (Ascii.eqb ch sep) eqn:Hc; [reflexivity|].
  destruct (strings.SplitN2 sep s) as [a b]. simpl in *. rewrite Hc, IH. reflexivity.
Qed.

(** X10. A schema name splits at its first dot: a resource without a dot
    followed by a dot and a group gives that resource and that group, the
    group [core] becoming the empty group; a name without a dot is a
    resource of the empty group.  In all cases the resource has no dot, the
    group is never [core], and the name of a CRD whose plural has no dot
    and whose group is not [core] splits back into its group and plural. *)
Theorem crdNameToGroupResource_splits :
  (∀ resource group,
     contains "."%char resource = false →
     crdNameToGroupResource (resource +:+ "." +:+ group)
     = (if String.eqb group "core" then "" else group, resource))
  ∧ (∀ name,
       contains "."%char name = false → crdNameToGroupResource name = ("", name))
  ∧ (∀ name,
       contains "."%char (resourceOf name) = false ∧ groupOf name ≠ "core")
  ∧ (∀ crd,
       contains "."%char (Plural (Names (Spec crd))) = false →
       Group (Spec crd) ≠ "core" →
       crdNameToGroupResource (crdName crd)
       = (Group (Spec crd), Plural (Names (Spec crd)))).
Proof.
  assert (H1 : ∀ resource group,
     contains "."%char resource = false →
     crdNameToGroupResource (resource +:+ "." +:+ group)
     = (if String.eqb group "core" then "" else group, resource)).
  { intros resource group Hr. unfold crdNameToGroupResource.
    change (resource +:+ "." +:+ group)
      with (resource +:+ String.String "."%char group).
    rewrite (SplitN2_first_sep _ _ _ Hr). reflexivity. }
  repeat apply conj.
  - exact H1.
  - intros name Hn. unfold crdNameToGroupResource. rewrite (SplitN2_no_sep _ _ Hn).
    reflexivity.
  - intros name. unfold resourceOf, groupOf, crdNameToGroupResource.
    pose proof (SplitN2_left_no_sep "."%char name) as Hl.
    destruct (strings.SplitN2 "."%char name) as [resource rest]. simpl in *.
    split; [exact Hl|].
    destruct (String.eqb_spec (match rest with Some g => g | None => "" end) "core")
      as [_|Hne]; [discriminate | exact Hne].
  - intros crd Hp Hg. unfold crdName. rewrite (H1 _ _ Hp).
    apply String.eqb_neq in Hg. rewrite Hg. reflexivity.
Qed.

Lemma crdNameToGroupResource_splits_witness :
  crdNameToGroupResource "pods.core" = ("", "pods")
  ∧ crdNameToGroupResource "pods" = ("", "pods")
  ∧ crdNameToGroupResource "clusterworkspaces.tenancy.kcp.dev"
    = ("tenancy.kcp.dev", "clusterworkspaces")
  ∧ crdNameToGroupResource (crdName Example.localWidgets) = ("example.io", "widgets").
Proof.
  destruct crdNameToGroupResource_splits as (H1 & H2 & _ & H4).
  repeat apply conj.
  - apply (H1 "pods" "core"). reflexivity.
  - apply (H2 "pods"). reflexivity.
  - apply (H1 "clusterworkspaces" "tenancy.kcp.dev"). reflexivity.
  - apply (H4 Example.localWidgets); [reflexivity | discriminate].
Defined.

(** ** What a refresh takes from the store *)

Lemma sameStatus_projected crd a vs u :
  map Version_Name vs = map Version_Name (Versions (Spec crd)) →
  sameStatus (set_UID u (set_Versions vs (set_Annotations a crd))) crd
  ∧ sameStatus (set_Versions vs (set_Annotations a crd)) crd
  ∧ sameStatus (set_Annotations a crd) crd.
Proof. intros Hvs. repeat apply conj; try reflexivity; exact Hvs. Qed.

(** X11. What [Refresh] returns is the store copy in everything but the
    annotations, the version schemas and the UID: labels, deletion
    timestamp, status conditions, group, names, scope and version names are
    those of the schema stored under the owning workspace and name of the
    argument, whatever the argument carries (the deletion timestamp and the
    Terminating condition of a decoration are not carried over). *)
Theorem Refresh_takes_store_copy c crd st out st' :
  Refresh c crd st = Done (Ok out) st' →
  ∃ updated,
    crdLister c (crdKeyOf crd) = Ok updated
    ∧ sameObject out updated
    ∧ sameStatus out updated.
Proof.
  unfold Refresh. fold (crdKeyOf crd).
  destruct (crdLister c (crdKeyOf crd)) as [updated|e]; [|discriminate].
  intros HR. exists updated. split; [reflexivity|]. revert HR.
  rewrite (bind_Done _ _ _ _ _ (shallowCopy_eq updated st)).
  unfold bind at 1. unfold readMap at 1.
  set (annotations := match Annotations crd with Some l => _ | None => _ end).
  set (copy := set_Annotations (Some (fresh (dom (heap st)))) updated).
  destruct (sameStatus_projected updated (Some (fresh (dom (heap st))))
              (map withMinimalSchema (Versions (Spec updated))) (UID crd))
    as (Huid & Hproj & Hcopy).
  { rewrite map_map. reflexivity. }
  assert (Hmarker : ∀ s,
            (match annotations !! annotationKeyPartialMetadata with
             | Some _ =>
                 do refreshed <- makePartialMetadataCRD copy;
                 if strings.HasSuffix (UID crd) ".wildcard.partial-metadata"
                 then ret (Ok (set_UID (UID crd) refreshed))
                 else ret (Ok refreshed)
             | None => ret (Ok copy)
             end) s = Done (Ok out) st' →
            sameObject out updated ∧ sameStatus out updated).
  { intros s. destruct (annotations !! annotationKeyPartialMetadata).
    - unfold makePartialMetadataCRD, bind, writeMap, ret. simpl.
      destruct (strings.HasSuffix _ _); intros [= <- <-];
        (split; [split; reflexivity | assumption]).
    - intros [= <- <-]. split; [split; reflexivity | assumption]. }
  destruct (negb (String.eqb _ "")).
  - unfold bind at 1. unfold writeMap, copy. simpl Annotations. cbv iota beta.
    apply Hmarker.
  - rewrite bind_ret. apply Hmarker.
Qed.

Lemma Refresh_takes_store_copy_witness :
  let deleting :=
    Example.returned
      ((do d <- decorateCRDWithBinding Example.shadowWidgets "identity-1" (Some 50%Z);
        ret (Ok d)) Example.state) in
  DeletionTimestamp deleting.1 = Some 50%Z
  ∧ ∃ out st',
      Refresh Example.bound deleting.1 deleting.2 = Done (Ok out) st'
      ∧ DeletionTimestamp out = None
      ∧ Conditions out = [Example.established].
Proof.
  intros deleting. split; [reflexivity|].
  assert (HR : ∃ out st', Refresh Example.bound deleting.1 deleting.2 = Done (Ok out) st')
    by (eexists _, _; vm_compute; reflexivity).
  destruct HR as (out & st' & HR). exists out, st'. split; [exact HR|].
  destruct (Refresh_takes_store_copy _ _ _ _ _ HR)
    as (updated & Hget & _ & _ & Hdt & Hcs & _).
  assert (updated = Example.shadowWidgets) as ->.
  { vm_compute in Hget. injection Hget as <-. reflexivity. }
  split; [exact Hdt | exact Hcs].
Defined.

(** ** The system registry: gates, failures and listing *)

(** X12. At construction each feature gate puts its key into the root, the
    org and the universal set together, and into none of them when it is
    off; the root and org sets hold nothing else, the common set always
    holds its four keys and never a gated one. *)
Theorem newSystemCRDProvider_gates gates getWorkspace getCRD' :
  let p := newSystemCRDProvider gates getWorkspace getCRD' in
  sets.Has (rootCRDs p) locationsKey = LocationAPI gates
  ∧ sets.Has (orgCRDs p) locationsKey = LocationAPI gates
  ∧ sets.Has (universalCRDs p) locationsKey = LocationAPI gates
  ∧ sets.Has (rootCRDs p) placementsKey = PlacementAPI gates
  ∧ sets.Has (orgCRDs p) placementsKey = PlacementAPI gates
  ∧ sets.Has (universalCRDs p) placementsKey = PlacementAPI gates
  ∧ rootCRDs p = orgCRDs p
  ∧ (∀ k, k ∈ rootCRDs p → k = locationsKey ∨ k = placementsKey)
  ∧ size (commonCRDs p) = 4
  ∧ sets.Has (commonCRDs p) locationsKey = false
  ∧ sets.Has (commonCRDs p) placementsKey = false.
Proof.
  intros p. subst p.
  assert (Hroot : ∀ k,
            k ∈ rootCRDs (newSystemCRDProvider gates getWorkspace getCRD') →
            k = locationsKey ∨ k = placementsKey).
  { intros k. destruct gates as [[|] [|]]; simpl; unfold sets.Insert, sets.NewString;
      simpl; rewrite ?elem_of_union, ?elem_of_singleton, ?elem_of_empty; tauto. }
  assert (Hcommon : ∀ k, k = locationsKey ∨ k = placementsKey →
            sets.Has (commonCRDs (newSystemCRDProvider gates getWorkspace getCRD')) k
            = false)
    by (intros k [-> | ->]; vm_compute; reflexivity).
  repeat apply conj;
    [ .. | reflexivity | exact Hroot | vm_compute; reflexivity
    | apply Hcommon; left; reflexivity | apply Hcommon; right; reflexivity ];
    destruct gates as [[|] [|]]; vm_compute; reflexivity.
Qed.

(** X13. [Keys] leaves the heap and the clock alone and logs only the
    failure to read a workspace: for a descendant of root whose workspace
    lookup fails with an error other than not-found it appends one entry to
    the log; in every other case, a not-found workspace included, it logs
    nothing. *)
Theorem Keys_logs_unexpected_errors p cluster st :
  ∃ keys st',
    Keys p cluster st = Done keys st'
    ∧ heap st' = heap st
    ∧ now st' = now st
    ∧ (∀ e, descendantOfRoot cluster →
            workspaceLookup p cluster = Err e → IsNotFound e = false →
            klog st' = klog st ++ [workspaceFailure cluster e])
    ∧ (∀ e, workspaceLookup p cluster = Err e → IsNotFound e = true →
            klog st' = klog st)
    ∧ (∀ w, workspaceLookup p cluster = Ok w → klog st' = klog st)
    ∧ (¬ descendantOfRoot cluster → klog st' = klog st).
Proof.
  unfold Keys, workspaceLookup, workspaceFailure.
  case_bool_decide as Hroot.
  - eexists _, _. split; [reflexivity|]. repeat apply conj; try reflexivity.
    intros e Hd. apply descendant_not_root in Hd. contradiction.
  - destruct (logicalcluster.HasPrefix cluster tenancyv1alpha1.RootCluster) eqn:Hp.
    + assert (Hd : ¬ ¬ descendantOfRoot cluster)
        by (intros Hnd; apply Hnd, HasPrefix_root, Hp).
      destruct (logicalcluster.Split cluster) as [parent ws]. simpl.
      destruct (getClusterWorkspace p _) as [w|e].
      * repeat case_match; (eexists _, _; split; [reflexivity|]);
          repeat apply conj; try reflexivity; try discriminate;
          intros Hnd; contradiction.
      * unfold bind. destruct (IsNotFound e) eqn:Hnf; simpl;
          (eexists _, _; split; [reflexivity|]);
          repeat apply conj; try reflexivity; try discriminate;
          first [ intros Hnd; contradiction
                | intros e' ? [= <-] ?; first [reflexivity | congruence]
                | intros e' [= <-] ?; first [reflexivity | congruence] ].
    + eexists _, _. split; [reflexivity|]. repeat apply conj; try reflexivity.
      intros e Hd. apply HasPrefix_root in Hd. congruence.
Qed.

Lemma Keys_logs_unexpected_errors_witness :
  let cluster := logicalcluster.New "root:broken" in
  ∃ keys st',
    Keys (Example.provider []) cluster Example.state = Done keys st'
    ∧ klog st' = klog Example.state
                 ++ [workspaceFailure cluster (OtherError "etcd unavailable")].
Proof.
  intros cluster.
  destruct (Keys_logs_unexpected_errors (Example.provider []) cluster Example.state)
    as (keys & st' & HK & _ & _ & Hlog & _).
  exists keys, st'. split; [exact HK|].
  apply Hlog; [exists "broken"; reflexivity | reflexivity | reflexivity].
Defined.

Lemma sets_List_elem (s : gset string) k : k ∈ sets.List s ↔ k ∈ s.
Proof.
  unfold sets.List. rewrite (merge_sort_Permutation sets.string_le (elements s)).
  apply elem_of_elements.
Qed.

Lemma sets_List_NoDup (s : gset string) : NoDup (sets.List s).
Proof.
  unfold sets.List. rewrite (merge_sort_Permutation sets.string_le (elements s)).
  apply NoDup_elements.
Qed.

Lemma systemList_loop_ok p cluster keys crds acc st :
  map (getCRD p) keys = map Ok crds →
  systemList_loop p cluster keys acc st = Done (Ok (acc ++ crds)) st.
Proof.
  revert crds acc. induction keys as [|k keys IH]; intros [|crd crds] acc Hm;
    try discriminate.
  - simpl. rewrite app_nil_r. reflexivity.
  - simpl in Hm. injection Hm as Hk Hm. simpl. rewrite Hk.
    rewrite (IH crds (acc ++ [crd]) Hm), <- app_assoc. reflexivity.
Qed.

Lemma systemList_loop_err p cluster pre crds k post e acc st :
  map (getCRD p) pre = map Ok crds → getCRD p k = Err e →
  systemList_loop p cluster (pre ++ k :: post) acc st
  = Done (Err (systemError e))
         (mkState (heap st) (klog st ++ [systemFailure cluster k e]) (now st)).
Proof.
  revert crds acc. induction pre as [|k' pre IH]; intros [|crd crds] acc Hm Hk;
    try discriminate.
  - simpl. rewrite Hk. reflexivity.
  - simpl in Hm. injection Hm as Hk' Hm. simpl. rewrite Hk'.
    apply (IH crds); assumption.
Qed.

(** X14. [systemCRDProvider.List] is all or nothing over the sorted keys of
    the cluster: the keys are visited once each in ascending order; when
    every key can be fetched the result is the fetched CRDs in that order
    and nothing is logged; otherwise the first key that fails ends the call
    with that key's error wrapped, one entry logged, and no CRD returned.
    The wrapping keeps a not-found error recognisable. *)
Theorem systemCRDProvider_List_all_or_nothing p cluster st keys st1 :
  Keys p cluster st = Done keys st1 →
  let sorted := sets.List keys in
  (∀ k, k ∈ sorted ↔ k ∈ keys)
  ∧ NoDup sorted
  ∧ Sorted sets.string_le sorted
  ∧ (∀ crds, map (getCRD p) sorted = map Ok crds →
       systemCRDProvider_List p cluster st = Done (Ok crds) st1)
  ∧ (∀ pre crds k post e,
       sorted = pre ++ k :: post →
       map (getCRD p) pre = map Ok crds → getCRD p k = Err e →
       systemCRDProvider_List p cluster st
       = Done (Err (systemError e))
              (mkState (heap st1) (klog st1 ++ [systemFailure cluster k e]) (now st1))
       ∧ IsNotFound (systemError e) = IsNotFound e).
Proof.
  intros HK sorted. repeat apply conj.
  - intros k. apply sets_List_elem.
  - apply sets_List_NoDup.
  - apply Sorted_merge_sort; apply _.
  - intros crds Hm. unfold systemCRDProvider_List, bind. rewrite HK.
    apply (systemList_loop_ok p cluster _ crds [] st1 Hm).
  - intros pre crds k post e Hs Hm Hk. split; [|reflexivity].
    unfold systemCRDProvider_List, bind. rewrite HK. fold sorted. rewrite Hs.
    eapply systemList_loop_err; eassumption.
Qed.

Lemma systemCRDProvider_List_all_or_nothing_witness :
  let root := logicalcluster.New "root" in
  systemCRDProvider_List MoreExamples.fullProvider root Example.state
  = Done (Ok (map MoreExamples.systemCRD
                (sets.List (rootCRDs MoreExamples.fullProvider
                            ∪ commonCRDs MoreExamples.fullProvider))))
         Example.state
  ∧ ∃ st', systemCRDProvider_List (Example.provider [Example.systemWorkspaces]) root
             Example.state
           = Done (Err (systemError
                          (NewNotFound crdResource
                             (systemKey "clusterworkspaceshards.tenancy.kcp.dev")))) st'.
Proof.
  intros root. split.
  - pose proof (systemCRDProvider_List_all_or_nothing MoreExamples.fullProvider root
                  Example.state _ Example.state eq_refl) as (_ & _ & _ & Hok & _).
    apply Hok. rewrite map_map. reflexivity.
  - pose proof (systemCRDProvider_List_all_or_nothing
                  (Example.provider [Example.systemWorkspaces]) root
                  Example.state _ Example.state eq_refl) as (_ & _ & _ & _ & Herr).
    eexists.
    apply (Herr [systemKey "clusterworkspaces.tenancy.kcp.dev"]
             [Example.systemWorkspaces]
             (systemKey "clusterworkspaceshards.tenancy.kcp.dev")
             [systemKey "clusterworkspacetypes.tenancy.kcp.dev";
              systemKey "locations.scheduling.kcp.dev";
              systemKey "workspaces.tenancy.kcp.dev"]);
      vm_compute; reflexivity.
Defined.

(** ** The API reconciler: event handlers and the work queue *)

Lemma enqueueSyncTarget_Live obj logSuffix c :
  controller.enqueueSyncTarget (controller.Live obj) logSuffix c
  = controller.mkController (controller.registry c)
      (controller.queue c ++ [controller.queue_Add (controller.keyOf (controller.stMeta obj))])
      (controller.handled c)
      (controller.infos c
       ++ [(controller.keyOf (controller.stMeta obj), "queueing SyncTarget" +:+ logSuffix)]).
Proof. reflexivity. Qed.

Lemma enqueue_targets synctargets c :
  foldl (λ c obj, controller.enqueueSyncTarget (controller.Live obj)
                    " because of APIExport" c) c synctargets
  = controller.mkController (controller.registry c)
      (controller.queue c
       ++ map controller.queue_Add
              (map (λ t, controller.keyOf (controller.stMeta t)) synctargets))
      (controller.handled c)
      (controller.infos c
       ++ map controller.becauseOfAPIExport
              (map (λ t, controller.keyOf (controller.stMeta t)) synctargets)).
Proof.
  revert c. induction synctargets as [|t ts IH]; intros c.
  - simpl. rewrite !app_nil_r. destruct c; reflexivity.
  - simpl foldl. rewrite IH, enqueueSyncTarget_Live. simpl.
    rewrite <- !app_assoc. reflexivity.
Qed.

Lemma enqueueAPIExport_fans_out ix obj logSuffix c :
  let c' := controller.enqueueAPIExport ix obj logSuffix c in
  let keys := controller.exportFanOut ix (controller.deliveredKey obj) in
  controller.registry c' = controller.registry c
  ∧ controller.queue c' = controller.queue c ++ map controller.queue_Add keys
  ∧ controller.infos c' = controller.infos c ++ map controller.becauseOfAPIExport keys
  ∧ ∃ errs, controller.handled c' = controller.handled c ++ errs.
Proof.
  unfold controller.enqueueAPIExport, controller.exportFanOut.
  assert (controller.DeletionHandlingMetaClusterNamespaceKeyFunc id obj
          = Ok (controller.deliveredKey obj)) as -> by (destruct obj; reflexivity).
  destruct (controller.syncTargetIndexer ix _ _) as [ts|e]; simpl.
  - rewrite enqueue_targets. simpl. repeat apply conj; try reflexivity.
    exists []. rewrite app_nil_r. reflexivity.
  - rewrite !app_nil_r. repeat apply conj; try reflexivity. exists [e]. reflexivity.
Qed.

Lemma enqueue_exports ix apiExports c :
  let c' := foldl (λ c obj, controller.enqueueAPIExport ix (controller.Live obj)
                              " because of APIResourceSchema" c) c apiExports in
  let keys := concat (map (λ e, controller.exportFanOut ix (controller.keyOf e))
                          apiExports) in
  controller.registry c' = controller.registry c
  ∧ controller.queue c' = controller.queue c ++ map controller.queue_Add keys
  ∧ controller.infos c' = controller.infos c ++ map controller.becauseOfAPIExport keys
  ∧ ∃ errs, controller.handled c' = controller.handled c ++ errs.
Proof.
  revert c. induction apiExports as [|e es IH]; intros c.
  - simpl. rewrite !app_nil_r. repeat apply conj; try reflexivity. exists []. 
    rewrite app_nil_r. reflexivity.
  - simpl foldl.
    destruct (enqueueAPIExport_fans_out ix (controller.Live e)
                " because of APIResourceSchema" c) as (Hr & Hq & Hi & errs & Hh).
    destruct (IH (controller.enqueueAPIExport ix (controller.Live e)
                    " because of APIResourceSchema" c)) as (Hr' & Hq' & Hi' & errs' & Hh').
    cbv zeta. simpl concat. rewrite !map_app.
    rewrite Hr', Hq', Hi', Hh', Hr, Hq, Hi, Hh, <- !app_assoc.
    repeat apply conj; try reflexivity. exists (errs ++ errs'). reflexivity.
Qed.

(** X15. An event on an API resource schema fans out, through the two
    indexes, to the sync targets of the exports that refer to the schema:
    the queue receives one [Add] per sync target of every such export, in
    index order, and nothing else; the registry is not touched.  An index
    that fails for one export drops that export's sync targets only.  A
    deletion delivered as a tombstone is looked up by the tombstone's key.
    Every message logged on the way reads "because of APIExport": the
    suffix given to [enqueueAPIExport] is never used. *)
Theorem enqueueAPIResourceSchema_fans_out ix obj c :
  let c' := controller.enqueueAPIResourceSchema ix obj c in
  let keys := controller.schemaFanOut ix (controller.deliveredKey obj) in
  controller.registry c' = controller.registry c
  ∧ controller.queue c' = controller.queue c ++ map controller.queue_Add keys
  ∧ controller.infos c' = controller.infos c ++ map controller.becauseOfAPIExport keys
  ∧ (∃ errs, controller.handled c' = controller.handled c ++ errs)
  ∧ ∀ export suffix suffix',
      controller.enqueueAPIExport ix export suffix c
      = controller.enqueueAPIExport ix export suffix' c.
Proof.
  cbv zeta. split; [|split; [|split; [|split]]]; try (intros; reflexivity);
    unfold controller.enqueueAPIResourceSchema, controller.schemaFanOut;
    (assert (controller.DeletionHandlingMetaClusterNamespaceKeyFunc id obj
             = Ok (controller.deliveredKey obj)) as ->
       by (destruct obj; reflexivity));
    destruct (controller.apiExportIndexer ix _ _) as [es|e]; simpl;
    try apply enqueue_exports; rewrite ?app_nil_r; try reflexivity.
  exists [e]. reflexivity.
Qed.

Lemma enqueueAPIResourceSchema_fans_out_witness :
  let c := controller.handle ControllerExample.indexers
             (controller.APIResourceSchemaDeleted
                (controller.DeletedFinalStateUnknown "root:org:ws|today.widgets"))
             controller.start in
  controller.queue c
  = [controller.queue_Add "root:org:ws|east"; controller.queue_Add "root:org:ws|west";
     controller.queue_Add "root:org:ws|west"]
  ∧ controller.handled c = [OtherError "no such index"].
Proof.
  intros c. subst c. split.
  - apply (proj1 (proj2 (enqueueAPIResourceSchema_fans_out ControllerExample.indexers
                           (controller.DeletedFinalStateUnknown "root:org:ws|today.widgets")
                           controller.start))).
  - reflexivity.
Defined.

(** X16. An update of a sync target is enqueued exactly when its
    [Status.SyncedResources] changed: with equal synced resources the
    handler does nothing at all, whatever else differs between the two
    versions; otherwise it does what the add handler does for the new
    version, one [Add] of the new version's key.  An update of an API
    resource schema is never enqueued, an update of an API export always
    as its new version. *)
Theorem update_handlers ix old new c :
  (controller.SyncedResources old = controller.SyncedResources new →
     controller.handle ix (controller.SyncTargetUpdated old new) c = c)
  ∧ (controller.SyncedResources old ≠ controller.SyncedResources new →
     controller.handle ix (controller.SyncTargetUpdated old new) c
     = controller.handle ix (controller.SyncTargetAdded new) c
     ∧ controller.queue (controller.handle ix (controller.SyncTargetUpdated old new) c)
       = controller.queue c
         ++ [controller.queue_Add (controller.keyOf (controller.stMeta new))])
  ∧ (∀ o n, controller.handle ix (controller.APIResourceSchemaUpdated o n) c = c)
  ∧ (∀ o n, controller.handle ix (controller.APIExportUpdated o n) c
            = controller.handle ix (controller.APIExportAdded n) c).
Proof.
  repeat apply conj; try reflexivity.
  - intros Heq. simpl. unfold controller.Semantic_DeepEqual.
    rewrite bool_decide_eq_true_2 by exact Heq. reflexivity.
  - intros Hne. simpl. unfold controller.Semantic_DeepEqual.
    rewrite bool_decide_eq_false_2 by exact Hne. split; reflexivity.
Qed.

Lemma update_handlers_witness :
  controller.handle ControllerExample.indexers
    (controller.SyncTargetUpdated ControllerExample.east ControllerExample.eastExporting)
    controller.start = controller.start
  ∧ controller.queue
      (controller.handle ControllerExample.indexers
         (controller.SyncTargetUpdated ControllerExample.east ControllerExample.eastSynced)
         controller.start)
    = [controller.queue_Add "root:org:ws|east"].
Proof.
  split.
  - apply (proj1 (update_handlers ControllerExample.indexers ControllerExample.east
                    ControllerExample.eastExporting controller.start)).
    reflexivity.
  - apply (proj2 (proj1 (proj2 (update_handlers ControllerExample.indexers
                                  ControllerExample.east ControllerExample.eastSynced
                                  controller.start)) ltac:(discriminate))).
Defined.

(** X17. A deletion of a sync target that reaches the handler as a
    tombstone is not enqueued: the key function used for sync targets
    does not read tombstones, so the handler reports an error and makes no
    call on the queue, while the same tombstone for an API export is
    resolved by its recorded key.  The deletion of a sync target delivered
    as the object itself is enqueued under the object's key. *)
Theorem deleted_sync_target_tombstone ix key obj c :
  (∃ err, controller.handle ix
            (controller.SyncTargetDeleted (controller.DeletedFinalStateUnknown key)) c
          = controller.HandleError err c)
  ∧ controller.queue
      (controller.handle ix
         (controller.SyncTargetDeleted (controller.DeletedFinalStateUnknown key)) c)
    = controller.queue c
  ∧ controller.queue
      (controller.handle ix (controller.SyncTargetDeleted (controller.Live obj)) c)
    = controller.queue c
      ++ [controller.queue_Add (controller.keyOf (controller.stMeta obj))]
  ∧ controller.queue
      (controller.handle ix
         (controller.APIExportDeleted (controller.DeletedFinalStateUnknown key)) c)
    = controller.queue c ++ map controller.queue_Add (controller.exportFanOut ix key).
Proof.
  repeat apply conj; try reflexivity.
  - eexists. reflexivity.
  - apply (enqueueAPIExport_fans_out ix (controller.DeletedFinalStateUnknown key) "" c).
Qed.

(** ** The worker *)

Lemma processNextWorkItem_queue_step reconcile lister key c :
  let out := controller.process_with reconcile lister key (controller.registry c) in
  controller.processNextWorkItem_queue reconcile lister (Some key) c
  = (true, controller.mkController out.2
             (controller.queue c ++ controller.workerCalls (key, out.1))
             (controller.handled c ++ controller.reported [(key, out.1)])
             (controller.infos c)).
Proof.
  intros out. subst out. unfold controller.processNextWorkItem_queue.
  destruct (controller.process_with reconcile lister key (controller.registry c))
    as [[u|err] r]; simpl; unfold controller.call, controller.HandleError; simpl.
  - rewrite app_nil_r, <- app_assoc. reflexivity.
  - rewrite <- app_assoc. reflexivity.
Qed.

Lemma verdict_cases o :
  (controller.verdict o = controller.queue_Forget o.1
   ∧ controller.reported [o] = [])
  ∨ (controller.verdict o = controller.queue_AddRateLimited o.1
     ∧ ∃ err, o.2 = Err err ∧ controller.reported [o] = [controller.syncFailure err]).
Proof.
  destruct o as [key [u|err]]; [left | right]; simpl.
  - split; reflexivity.
  - split; [reflexivity|]. exists err. split; reflexivity.
Qed.

Lemma startWorker_cons reconcile lister key items tail c :
  controller.startWorker reconcile
    (map (λ it, (it.1, Some it.2)) ((lister, key) :: items) ++ tail) c
  = match controller.processNextWorkItem_queue reconcile lister (Some key) c with
    | (true, c') =>
        controller.startWorker reconcile (map (λ it, (it.1, Some it.2)) items ++ tail) c'
    | (false, c') => c'
    end.
Proof. reflexivity. Qed.

(** X18. A worker handles the keys the queue hands out one after the other
    until the queue reports that it has shut down, and not beyond: the
    registry is the one obtained by processing the keys in order.  For
    every key, in the order taken, the worker makes exactly two calls on
    the queue: [Forget] when processing the key succeeded or
    [AddRateLimited] when it failed, and then [Done]; so every key taken is
    marked done once, whether or not processing failed.  It calls neither
    [Add] nor [ShutDown].  It reports to [HandleError] exactly the failures,
    wrapped, in the order they happened, one per key it re-queues, and
    logs nothing.  This holds for any [reconcile]. *)
Theorem startWorker_protocol reconcile items quit rest c :
  let gets := map (λ it, (it.1, Some it.2)) items ++ (quit, None) :: rest in
  let c' := controller.startWorker reconcile gets c in
  let outs := controller.outcomes reconcile items (controller.registry c) in
  controller.registry c'
  = foldl (λ r it, (controller.process_with reconcile it.1 it.2 r).2)
          (controller.registry c) items
  ∧ controller.infos c' = controller.infos c
  ∧ map fst outs = map snd items
  ∧ ∃ calls errs,
      controller.queue c' = controller.queue c ++ calls
      ∧ controller.handled c' = controller.handled c ++ errs
      ∧ calls = concat (map controller.workerCalls outs)
      ∧ errs = controller.reported outs
      ∧ length calls = 2 * length items
      ∧ filter controller.isDone calls = map controller.queue_Done (map snd items)
      ∧ length errs = length (filter controller.isRetry calls)
      ∧ ∀ q, q ∈ calls → ∃ key, key ∈ map snd items ∧ controller.workerCall key q.
Proof.
  cbv zeta. revert c. induction items as [|[lister key] items IH]; intros c.
  - simpl. repeat apply conj; try reflexivity. exists [], [].
    rewrite !app_nil_r. repeat apply conj; try reflexivity.
    intros q Hq. apply elem_of_nil in Hq. contradiction.
  - rewrite startWorker_cons, processNextWorkItem_queue_step. cbn [fst snd foldl].
    set (out := controller.process_with reconcile lister key (controller.registry c)).
    set (o := (key, out.1)).
    destruct (IH (controller.mkController out.2
                    (controller.queue c ++ controller.workerCalls o)
                    (controller.handled c ++ controller.reported [o])
                    (controller.infos c)))
      as (Hr & Hi & Hk & calls & errs' & Hq & Hh & Hcalls & Herrs & Hlen & Hdone
          & Hcount & Hin).
    cbn [controller.registry controller.queue controller.handled controller.infos]
      in Hr, Hi, Hk, Hq, Hh, Hcalls, Herrs.
    split; [exact Hr|]. split; [exact Hi|].
    split; [simpl; f_equal; exact Hk|].
    exists (controller.workerCalls o ++ calls), (controller.reported [o] ++ errs').
    assert (Hv : (controller.verdict o = controller.queue_Forget key
                  ∧ controller.reported [o] = [])
                 ∨ (controller.verdict o = controller.queue_AddRateLimited key
                    ∧ ∃ err, o.2 = Err err
                             ∧ controller.reported [o] = [controller.syncFailure err]))
      by apply (verdict_cases o).
    repeat apply conj.
    + rewrite Hq, <- app_assoc. reflexivity.
    + rewrite Hh, <- app_assoc. reflexivity.
    + simpl. fold out. fold o. rewrite Hcalls. reflexivity.
    + simpl. fold out. fold o. rewrite Herrs. unfold controller.reported. simpl.
      rewrite app_nil_r. reflexivity.
    + unfold controller.workerCalls. simpl. rewrite Hlen. lia.
    + unfold controller.workerCalls. simpl app.
      rewrite filter_cons_False
        by (destruct Hv as [[-> _] | [-> _]]; simpl; tauto).
      rewrite filter_cons_True by exact I. simpl. f_equal. exact Hdone.
    + rewrite length_app, Hcount. unfold controller.workerCalls. simpl app.
      destruct Hv as [[-> ->] | [-> (err & _ & ->)]].
      * rewrite !filter_cons_False by (simpl; tauto). reflexivity.
      * rewrite !filter_cons_True by exact I.
        rewrite filter_cons_False by (simpl; tauto). reflexivity.
    + intros q Hq'. unfold controller.workerCalls in Hq'. simpl app in Hq'.
      apply elem_of_cons in Hq' as [-> | Hq'].
      { exists key. split; [left|]. unfold controller.workerCall.
        destruct Hv as [[-> _] | [-> _]]; tauto. }
      apply elem_of_cons in Hq' as [-> | Hq'].
      { exists key. split; [left|]. unfold controller.workerCall. simpl. tauto. }
      destruct (Hin q Hq') as (k & Hk' & Hw). exists k. split; [right; exact Hk' | exact Hw].
Qed.

Lemma startWorker_protocol_witness :
  let c := controller.startWorker apireconciler.reconcile
             [(ReconcilerExample.present, Some ReconcilerExample.key);
              (ControllerExample.unreadable, Some ReconcilerExample.key);
              (ReconcilerExample.deleted, None);
              (ReconcilerExample.deleted, Some ReconcilerExample.key)]
             controller.start in
  controller.queue c
  = [controller.queue_Forget ReconcilerExample.key;
     controller.queue_Done ReconcilerExample.key;
     controller.queue_AddRateLimited ReconcilerExample.key;
     controller.queue_Done ReconcilerExample.key]
  ∧ controller.handled c = [controller.syncFailure (OtherError "cache not synced")]
  ∧ apireconciler.held (controller.registry c) = [1%positive].
Proof.
  intros c.
  pose proof (startWorker_protocol apireconciler.reconcile
                [(ReconcilerExample.present, ReconcilerExample.key);
                 (ControllerExample.unreadable, ReconcilerExample.key)]
                ReconcilerExample.deleted
                [(ReconcilerExample.deleted, Some ReconcilerExample.key)]
                controller.start)
    as (Hr & _ & _ & calls & errs & Hq & Hh & -> & -> & _).
  split; [etransitivity; [exact Hq | vm_compute; reflexivity]|].
  split; [etransitivity; [exact Hh | vm_compute; reflexivity]|].
  change (controller.registry c) with
    (controller.registry
       (controller.startWorker apireconciler.reconcile
          (map (λ it, (it.1, Some it.2))
               [(ReconcilerExample.present, ReconcilerExample.key);
                (ControllerExample.unreadable, ReconcilerExample.key)]
           ++ (ReconcilerExample.deleted, None)
              :: [(ReconcilerExample.deleted, Some ReconcilerExample.key)])
          controller.start)).
  rewrite Hr. vm_compute. reflexivity.
Defined.

(** X19. The registry of API-definition sets: removing a key makes its
    lookup report absence, leaves every other key as it was, changes
    nothing when done again or when the key was absent; a lookup reports
    presence exactly when it returns a set, and a new reconciler holds no
    set. *)
Theorem registry_frame key r :
  apireconciler.GetAPIDefinitionSet key (apireconciler.removeAPIDefinitionSet key r)
  = (None, false)
  ∧ (∀ k, k ≠ key →
       apireconciler.GetAPIDefinitionSet k (apireconciler.removeAPIDefinitionSet key r)
       = apireconciler.GetAPIDefinitionSet k r)
  ∧ apireconciler.removeAPIDefinitionSet key (apireconciler.removeAPIDefinitionSet key r)
    = apireconciler.removeAPIDefinitionSet key r
  ∧ (apireconciler.GetAPIDefinitionSet key r = (None, false) →
       apireconciler.removeAPIDefinitionSet key r = r)
  ∧ (∀ k, (apireconciler.GetAPIDefinitionSet k r).2 = true
          ↔ is_Some (apireconciler.GetAPIDefinitionSet k r).1)
  ∧ (∀ k, apireconciler.GetAPIDefinitionSet k apireconciler.NewAPIReconciler
          = (None, false)).
Proof.
  unfold apireconciler.GetAPIDefinitionSet, apireconciler.removeAPIDefinitionSet.
  simpl. repeat apply conj.
  - rewrite lookup_delete_eq. reflexivity.
  - intros k Hk. rewrite lookup_delete_ne by congruence. reflexivity.
  - f_equal. apply delete_id, lookup_delete_eq.
  - intros [= Hn _]. destruct r as [sets tds next]. simpl in *. f_equal.
    apply delete_id, Hn.
  - intros k. simpl. rewrite bool_decide_eq_true. reflexivity.
  - intros k. rewrite lookup_empty. reflexivity.
Qed.

Lemma registry_frame_witness :
  let r := apireconciler.processNextWorkItem
             (ReconcilerExample.present, ReconcilerExample.key)
             apireconciler.NewAPIReconciler in
  apireconciler.removeAPIDefinitionSet "root:org:ws|west" r = r
  ∧ (apireconciler.GetAPIDefinitionSet ReconcilerExample.key
       (apireconciler.removeAPIDefinitionSet "root:org:ws|west" r)).2 = true.
Proof.
  intros r.
  pose proof (registry_frame "root:org:ws|west" r) as (_ & Hother & _ & Habsent & _).
  split.
  - apply Habsent. vm_compute. reflexivity.
  - rewrite Hother by discriminate. vm_compute. reflexivity.
Defined.

(** ** Decoration under a binding that is not being deleted *)

(** X20. For a binding without a deletion time (nil or the zero instant)
    [decorateCRDWithBinding] returns the schema with a map of its own for
    the annotations and nothing else changed: conditions and deletion
    timestamp are the schema's.  The new map holds the schema's annotations
    with the identity, which replaces an identity already there; the
    schema's own map and every other map are as before, and nothing is
    logged. *)
Theorem decorateCRDWithBinding_live in_ identity deleteTime st :
  metav1.IsZero deleteTime = true →
  allocated st in_ →
  ∃ out st',
    decorateCRDWithBinding in_ identity deleteTime st = Done out st'
    ∧ out = set_Annotations (Annotations out) in_
    ∧ Annotations out ≠ Annotations in_
    ∧ annotationsOf st' out
      = <[apisv1alpha1.AnnotationAPIIdentityKey := identity]> (annotationsOf st in_)
    ∧ annotationsOf st' in_ = annotationsOf st in_
    ∧ (∀ l, l ∈ dom (heap st) → heap st' !! l = heap st !! l)
    ∧ klog st' = klog st ∧ now st' = now st.
Proof.
  intros Hz Hal. rewrite decorate_not_deleting by exact Hz. eexists _, _.
  split; [reflexivity|].
  pose proof (is_fresh (dom (heap st))) as Hfresh.
  assert (Hin : Annotations in_ ≠ Some (fresh (dom (heap st)))).
  { intros Heq. apply Hfresh, Hal, Heq. }
  repeat apply conj; try reflexivity.
  - simpl. congruence.
  - unfold annotationsOf at 1. simpl. rewrite lookup_insert_eq. reflexivity.
  - unfold annotationsOf. simpl. destruct (Annotations in_) as [l|]; [|reflexivity].
    rewrite lookup_insert_ne by congruence. reflexivity.
  - intros l Hl. simpl. rewrite lookup_insert_ne; [reflexivity|].
    intros <-. contradiction.
Qed.

Lemma decorateCRDWithBinding_live_witness :
  ∃ out st',
    decorateCRDWithBinding Example.shadowWidgets "identity-1" (Some 0%Z) Example.state
    = Done out st'
    ∧ DeletionTimestamp out = None
    ∧ Conditions out = [Example.established]
    ∧ annotationsOf st' out = {[ apisv1alpha1.AnnotationAPIIdentityKey := "identity-1" ]}
    ∧ annotationsOf st' Example.shadowWidgets = ∅.
Proof.
  assert (Hal : allocated Example.state Example.shadowWidgets).
  { intros l [= <-]. vm_compute. reflexivity. }
  destruct (decorateCRDWithBinding_live Example.shadowWidgets "identity-1" (Some 0%Z)
              Example.state eq_refl Hal)
    as (out & st' & Hd & Hout & _ & Hann & Hin & _).
  exists out, st'. split; [exact Hd|].
  split; [rewrite Hout; reflexivity|].
  split; [rewrite Hout; reflexivity|].
  split; [rewrite Hann | rewrite Hin]; vm_compute; reflexivity.
Defined.
